(** * Liqu Finance backend agent: a shallow embedding and its properties

    The development follows the TypeScript sources module by module:

    - [JsNumber]: the fragment of JavaScript [number] (IEEE-754 binary64)
      arithmetic the agent uses, on Rocq's primitive floats;
    - [Types], [Config]: [types.ts] and the strategy table of [config.ts];
    - [LlmAnalyzer]: the deterministic fallback of [llm-analyzer.ts];
    - [TxExecutor]: the BigInt liquidity math and the mint / close /
      rebalance coordinator of [tx-executor.ts], over an abstract ledger;
    - [Erc8004]: the validation record store and the reputation score of
      [erc8004-service.ts];
    - [EventListener]: the block-height watermark of [event-listener.ts];
    - [Agent]: the two variants of [processDeposit] found in [agent.ts];
    - [GeminiAnalyzer], [TxDecision], [PoolReader]: what the analyzers do
      with the model's reply, [executeDecision] of [tx-executor.ts] and
      the deposit scan of [pool-reader.ts];
    - [AgentRunner], [ClosePositions], [ListenerRuns]: the runs of
      [agent.ts] over the assigned deposits, [closePositionsForDeposit]
      and the runs of the poller.

    Definitions come first, the theorems about them follow. *)

From Stdlib Require Import ZArith Floats List Ascii String Bool Lia Sorted.
From stdpp Require Import gmap strings list pretty.
Import ListNotations.

Set Warnings "-inexact-float,-clear-no-such-hyp".
Local Open Scope Z_scope.

(* ===================================================================== *)
(** * JavaScript numbers *)
(* ===================================================================== *)

Module JsNumber.

(** The binary64 value of an integer (exact below 2^53, rounded to
    nearest-even above). *)
Definition of_Z (z : Z) : float :=
  SF2Prim (binary_normalize prec emax z 0 false).

Definition signedZ (s : bool) (m : positive) : Z :=
  if s then Zneg m else Zpos m.

(** [Math.floor]: a finite double is [±m·2^e]; with [e >= 0] it is an
    integer already, otherwise the floor of [±m / 2^(-e)] is an arithmetic
    right shift.  NaN, the infinities and the zeros are returned as is. *)
Definition Math_floor (x : float) : float :=
  match Prim2SF x with
  | S754_finite s m e =>
      if (0 <=? e)%Z then x
      else of_Z (Z.shiftr (signedZ s m) (- e))
  | _ => x
  end.

(** [Math.round]: nearest integer, ties towards +∞, and -0 for the
    arguments in [-0.5, -0]. *)
Definition Math_round (x : float) : float :=
  match Prim2SF x with
  | S754_finite s m e =>
      if (0 <=? e)%Z then x
      else
        let q := Z.shiftr (2 * signedZ s m + 2 ^ (- e)) (- e + 1) in
        if s && (q =? 0)%Z then neg_zero else of_Z q
  | _ => x
  end.

Definition Math_abs (x : float) : float := PrimFloat.abs x.

(** [Math.max] and [Math.min] of two numbers: NaN is contagious, and +0 is
    larger than -0. *)
Definition Math_max (x y : float) : float :=
  if is_nan x || is_nan y then nan
  else if (x <? y)%float then y
  else if (y <? x)%float then x
  else if get_sign x then y else x.

Definition Math_min (x y : float) : float :=
  if is_nan x || is_nan y then nan
  else if (x <? y)%float then x
  else if (y <? x)%float then y
  else if get_sign x then x else y.

(** [a > b] on numbers. *)
Definition gtb (a b : float) : bool := (b <? a)%float.

(** [Number(b)] of a bigint [b], as the integer it denotes: the double
    nearest to [b], ties to even, which is [b] itself up to [2^53].  A
    [uint256] is below [2^1024], so the double is finite or zero. *)
Definition Number_of_bigint (b : Z) : Z :=
  match Prim2SF (of_Z b) with
  | S754_finite s m e => Z.shiftl (signedZ s m) e
  | _ => 0
  end.

End JsNumber.

(* ===================================================================== *)
(** * types.ts *)
(* ===================================================================== *)

Module Types.

Inductive StrategyName := CONSERVATIVE | BALANCED | DEGEN.

Record StrategyConfig := {
  tickRangeMultiplier : float;
  maxSlippage : float;
  rebalanceThreshold : float;
  description : string
}.

Record PoolAnalysis := {
  currentTick : float;
  currentPrice : float;
  pa_liquidity : string;
  feeGrowth0 : string;
  feeGrowth1 : string
}.

Inductive Action := MINT | CLOSE | HOLD | REBALANCE.

(** [tickLower?] and [tickUpper?] are optional fields. *)
Record PositionDecision := {
  action : Action;
  tickLower : option float;
  tickUpper : option float;
  reason : string;
  confidence : float
}.

(** The [{ tickLower, tickUpper, liquidity }] entries handed to the
    analyzers. *)
Record ExistingPosition := {
  pos_tickLower : float;
  pos_tickUpper : float;
  pos_liquidity : string
}.

(** What the ledger reads return.  The [bigint] fields and the
    integer-valued [number] fields (int24 ticks, ids, block times) are
    integers. *)
Record PoolState := {
  sqrtPriceX96 : Z;
  tick : Z;
  liquidity : Z;
  feeGrowthGlobal0 : Z;
  feeGrowthGlobal1 : Z
}.

Record DepositInfo := {
  user : string;
  amount0Remaining : Z;
  amount1Remaining : Z;
  lockUntil : Z;
  strategy : Z;
  assignedAgent : string;
  status : Z;
  positionTokenIds : list Z
}.

Record PositionInfo := {
  pi_tokenId : Z;
  pi_liquidity : Z;
  pi_tickLower : Z;
  pi_tickUpper : Z;
  pi_currentTick : Z;
  pi_sqrtPriceX96 : Z
}.

End Types.

(* ===================================================================== *)
(** * config.ts: the strategy table *)
(* ===================================================================== *)

Module Config.
Import Types.

Definition STRATEGY_CONFIG (s : StrategyName) : StrategyConfig :=
  match s with
  | CONSERVATIVE =>
      {| tickRangeMultiplier := 2; maxSlippage := 0.005;
         rebalanceThreshold := 0.7;
         description := "Narrow range, low risk, frequent rebalancing" |}
  | BALANCED =>
      {| tickRangeMultiplier := 10; maxSlippage := 0.01;
         rebalanceThreshold := 0.85;
         description := "Medium range, moderate risk" |}
  | DEGEN =>
      {| tickRangeMultiplier := 50; maxSlippage := 0.03;
         rebalanceThreshold := 0.95;
         description := "Wide range, high yield potential" |}
  end.

End Config.

(* ===================================================================== *)
(** * llm-analyzer.ts: the deterministic fallback *)
(* ===================================================================== *)

Module LlmAnalyzer.
Import JsNumber Types Config.

Definition tickSpacing : float := 60.

(** The local closure [alignTick] of [getFallbackDecision]. *)
Definition alignTick (tick : float) : float :=
  (Math_floor (tick / tickSpacing) * tickSpacing)%float.

(** The callback of [existingPositions.some(...)]. *)
Definition isOutOfRange (currentTick rebalanceThreshold : float)
    (pos : ExistingPosition) : bool :=
  let posCenter := ((pos_tickLower pos + pos_tickUpper pos) / 2)%float in
  let distanceFromCenter := Math_abs (currentTick - posCenter)%float in
  let posRange := ((pos_tickUpper pos - pos_tickLower pos) / 2)%float in
  let outOfRangeThreshold := (posRange * rebalanceThreshold)%float in
  gtb distanceFromCenter outOfRangeThreshold.

Definition getFallbackDecision (poolState : PoolAnalysis)
    (strategy : StrategyName) (existingPositions : list ExistingPosition)
    : PositionDecision :=
  let config := STRATEGY_CONFIG strategy in
  let currentTick := currentTick poolState in
  let tickRange := (tickRangeMultiplier config * tickSpacing)%float in
  let tickLower := alignTick (currentTick - tickRange)%float in
  let tickUpper := alignTick (currentTick + tickRange)%float in
  if (length existingPositions =? 0)%nat then
    {| action := MINT;
       tickLower := Some tickLower;
       tickUpper := Some tickUpper;
       reason := "[Fallback] LLM unavailable - auto-minting based on strategy config";
       confidence := 75 |}
  else
    let hasOutOfRangePosition :=
      existsb (isOutOfRange currentTick (rebalanceThreshold config))
              existingPositions in
    if hasOutOfRangePosition then
      {| action := REBALANCE;
         tickLower := Some tickLower;
         tickUpper := Some tickUpper;
         reason := "[Fallback] LLM unavailable - auto-rebalancing out-of-range position";
         confidence := 70 |}
    else
      {| action := HOLD;
         tickLower := None;
         tickUpper := None;
         reason := "[Fallback] LLM unavailable - positions appear in range";
         confidence := 60 |}.

End LlmAnalyzer.

(* ===================================================================== *)
(** * Exceptions and module state *)
(* ===================================================================== *)

Module Effects.

(** What a [throw] (or a rejected promise) carries: the [RangeError] of a
    BigInt division by zero, the [TypeError] of a property read on
    [undefined], or a failure reported by an external service (a rejected
    call, a reverted transaction, an unavailable query). *)
Inductive Exn :=
| RangeError_DivisionByZero
| TypeError
| ServiceError (msg : string).

Inductive Result (A : Type) :=
| Ok (a : A)
| Throw (e : Exn).
Arguments Ok {A} a.
Arguments Throw {A} e.

Definition isThrow {A} (r : Result A) : bool :=
  match r with Throw _ => true | Ok _ => false end.

(** Computations that read and write a state [S] and may throw; what was
    done before a throw stays done.  Every [await] is a step of such a
    computation. *)
Definition M (S A : Type) : Type := S -> Result A * S.

Definition ret {S A} (a : A) : M S A := fun s => (Ok a, s).

Definition bind {S A B} (m : M S A) (f : A -> M S B) : M S B :=
  fun s =>
    match m s with
    | (Ok a, s') => f a s'
    | (Throw e, s') => (Throw e, s')
    end.

Definition lift {S A} (r : Result A) : M S A := fun s => (r, s).

(** [try { m } catch (e) { handler e }] *)
Definition tryCatch {S A} (m : M S A) (handler : Exn -> M S A) : M S A :=
  fun s =>
    match m s with
    | (Ok a, s') => (Ok a, s')
    | (Throw e, s') => handler e s'
    end.

Notation "'let*' x ':=' m 'in' k" := (bind m (fun x => k))
  (at level 10, x name, m at level 100, k at level 200).

End Effects.

(* ===================================================================== *)
(** * tx-executor.ts *)
(* ===================================================================== *)

Module TxExecutor.
Import Effects.

(** ** BigInt arithmetic

    A [bigint] is an unbounded integer: [Z].  [/] truncates towards zero
    and throws on a zero divisor, [%] is the matching remainder, [>>] is
    the arithmetic shift. *)

Definition bigDiv (a b : Z) : Result Z :=
  if b =? 0 then Throw RangeError_DivisionByZero else Ok (Z.quot a b).

Definition Q96 : Z := Z.shiftl 1 96.

(** [(absTick & mask) !== 0].  [tick] is an integer-valued [number] (an
    int24 contract argument); the masks test bits 0 to 19 only, which
    [ToInt32] leaves as they are. *)
Definition bitSet (absTick mask : Z) : bool :=
  negb (Z.land absTick mask =? 0).

(** [if (cond) ratio = (ratio * c) >> 128n;] *)
Definition mulShift (cond : bool) (ratio c : Z) : Z :=
  if cond then Z.shiftr (ratio * c) 128 else ratio.

(** [ratio] after the twenty conditional multiplications. *)
Definition tickRatio (tick : Z) : Z :=
  let absTick := Z.abs tick in
  let ratio := if bitSet absTick 0x1
               then 0xfffcb933bd6fad37aa2d162d1a594001
               else 0x100000000000000000000000000000000 in
  let ratio := mulShift (bitSet absTick 0x2) ratio 0xfff97272373d413259a46990580e213a in
  let ratio := mulShift (bitSet absTick 0x4) ratio 0xfff2e50f5f656932ef12357cf3c7fdcc in
  let ratio := mulShift (bitSet absTick 0x8) ratio 0xffe5caca7e10e4e61c3624eaa0941cd0 in
  let ratio := mulShift (bitSet absTick 0x10) ratio 0xffcb9843d60f6159c9db58835c926644 in
  let ratio := mulShift (bitSet absTick 0x20) ratio 0xff973b41fa98c081472e6896dfb254c0 in
  let ratio := mulShift (bitSet absTick 0x40) ratio 0xff2ea16466c96a3843ec78b326b52861 in
  let ratio := mulShift (bitSet absTick 0x80) ratio 0xfe5dee046a99a2a811c461f1969c3053 in
  let ratio := mulShift (bitSet absTick 0x100) ratio 0xfcbe86c7900a88aedcffc83b479aa3a4 in
  let ratio := mulShift (bitSet absTick 0x200) ratio 0xf987a7253ac413176f2b074cf7815e54 in
  let ratio := mulShift (bitSet absTick 0x400) ratio 0xf3392b0822b70005940c7a398e4b70f3 in
  let ratio := mulShift (bitSet absTick 0x800) ratio 0xe7159475a2c29b7443b29c7fa6e889d9 in
  let ratio := mulShift (bitSet absTick 0x1000) ratio 0xd097f3bdfd2022b8845ad8f792aa5825 in
  let ratio := mulShift (bitSet absTick 0x2000) ratio 0xa9f746462d870fdf8a65dc1f90e061e5 in
  let ratio := mulShift (bitSet absTick 0x4000) ratio 0x70d869a156d2a1b890bb3df62baf32f7 in
  let ratio := mulShift (bitSet absTick 0x8000) ratio 0x31be135f97d08fd981231505542fcfa6 in
  let ratio := mulShift (bitSet absTick 0x10000) ratio 0x9aa508b5b7a84e1c677de54f3e99bc9 in
  let ratio := mulShift (bitSet absTick 0x20000) ratio 0x5d6af8dedb81196699c329225ee604 in
  let ratio := mulShift (bitSet absTick 0x40000) ratio 0x2216e584f5fa1ea926041bedfe98 in
  let ratio := mulShift (bitSet absTick 0x80000) ratio 0x48a170391f7dc42444e8fa2 in
  ratio.

(** The nineteen multiplications after the first, as a table of
    (mask, constant), and the same computation as a fold over it. *)
Definition ratioSteps : list (Z * Z) :=
  [ (0x2, 0xfff97272373d413259a46990580e213a);
    (0x4, 0xfff2e50f5f656932ef12357cf3c7fdcc);
    (0x8, 0xffe5caca7e10e4e61c3624eaa0941cd0);
    (0x10, 0xffcb9843d60f6159c9db58835c926644);
    (0x20, 0xff973b41fa98c081472e6896dfb254c0);
    (0x40, 0xff2ea16466c96a3843ec78b326b52861);
    (0x80, 0xfe5dee046a99a2a811c461f1969c3053);
    (0x100, 0xfcbe86c7900a88aedcffc83b479aa3a4);
    (0x200, 0xf987a7253ac413176f2b074cf7815e54);
    (0x400, 0xf3392b0822b70005940c7a398e4b70f3);
    (0x800, 0xe7159475a2c29b7443b29c7fa6e889d9);
    (0x1000, 0xd097f3bdfd2022b8845ad8f792aa5825);
    (0x2000, 0xa9f746462d870fdf8a65dc1f90e061e5);
    (0x4000, 0x70d869a156d2a1b890bb3df62baf32f7);
    (0x8000, 0x31be135f97d08fd981231505542fcfa6);
    (0x10000, 0x9aa508b5b7a84e1c677de54f3e99bc9);
    (0x20000, 0x5d6af8dedb81196699c329225ee604);
    (0x40000, 0x2216e584f5fa1ea926041bedfe98);
    (0x80000, 0x48a170391f7dc42444e8fa2) ].

Definition ratioStep (absTick : Z) (ratio : Z) (mc : Z * Z) : Z :=
  mulShift (bitSet absTick (fst mc)) ratio (snd mc).

(** The step taken whatever the bit: the least the ratio can become. *)
Definition ratioStepAlways (ratio : Z) (mc : Z * Z) : Z :=
  Z.shiftr (ratio * snd mc) 128.

Definition tickToSqrtPriceX96 (tick : Z) : Result Z :=
  match (if tick >? 0 then bigDiv (2 ^ 256 - 1) (tickRatio tick)
         else Ok (tickRatio tick)) with
  | Throw e => Throw e
  | Ok ratio =>
      (* Convert from Q128 to Q96 *)
      Ok (Z.shiftr ratio 32
          + (if Z.rem ratio (Z.shiftl 1 32) >? 0 then 1 else 0))
  end.

Definition sortBounds (a b : Z) : Z * Z :=
  if a >? b then (b, a) else (a, b).

Definition getLiquidityForAmount0 (sqrtPriceAX96 sqrtPriceBX96 amount0 : Z)
    : Result Z :=
  let '(sqrtPriceAX96, sqrtPriceBX96) := sortBounds sqrtPriceAX96 sqrtPriceBX96 in
  match bigDiv (sqrtPriceAX96 * sqrtPriceBX96) Q96 with
  | Throw e => Throw e
  | Ok intermediate =>
      bigDiv (amount0 * intermediate) (sqrtPriceBX96 - sqrtPriceAX96)
  end.

Definition getLiquidityForAmount1 (sqrtPriceAX96 sqrtPriceBX96 amount1 : Z)
    : Result Z :=
  let '(sqrtPriceAX96, sqrtPriceBX96) := sortBounds sqrtPriceAX96 sqrtPriceBX96 in
  bigDiv (amount1 * Q96) (sqrtPriceBX96 - sqrtPriceAX96).

Definition getLiquidityForAmounts
    (sqrtPriceX96 sqrtPriceAX96 sqrtPriceBX96 amount0 amount1 : Z)
    : Result Z :=
  let '(sqrtPriceAX96, sqrtPriceBX96) := sortBounds sqrtPriceAX96 sqrtPriceBX96 in
  if sqrtPriceX96 <=? sqrtPriceAX96 then
    (* Current price below range: only token0 is used *)
    getLiquidityForAmount0 sqrtPriceAX96 sqrtPriceBX96 amount0
  else if sqrtPriceX96 <? sqrtPriceBX96 then
    (* Current price in range: both tokens, the min liquidity *)
    match getLiquidityForAmount0 sqrtPriceX96 sqrtPriceBX96 amount0 with
    | Throw e => Throw e
    | Ok liq0 =>
        match getLiquidityForAmount1 sqrtPriceAX96 sqrtPriceX96 amount1 with
        | Throw e => Throw e
        | Ok liq1 => Ok (if liq0 <? liq1 then liq0 else liq1)
        end
    end
  else
    (* Current price above range: only token1 is used *)
    getLiquidityForAmount1 sqrtPriceAX96 sqrtPriceBX96 amount1.

(** ** The world the executor runs in

    The ledger is an asynchronous service behind [contracts] and
    [pool-reader.ts]; [World] is its state together with the clock.  A
    write is the submission followed by [tx.wait()]: it returns the
    ledger after the call and either the receipt or what was thrown. *)

(** A receipt log as [iface.parseLog] sees it: parsed, with the event name
    and the [PositionCreated] / [PositionClosed] arguments, or not one of
    the agent contract's events (parseLog returns null or throws). *)
Inductive TxLog :=
| ParsedLog (name : string) (depositId tokenId : Z)
| UnparsedLog.

Record Receipt := { hash : string; logs : list TxLog }.

Class WorldOps (World : Type) := {
  dateNow : World -> Z;
  readPoolState : World -> Result Types.PoolState;
  readDeposit : World -> Z -> Result Types.DepositInfo;
  (* depositId tickLower tickUpper liquidity amount0Max amount1Max deadline *)
  agentMintPosition :
    World -> Z -> Z -> Z -> Z -> Z -> Z -> Z -> World * Result Receipt;
  (* depositId tokenId amount0Min amount1Min deadline *)
  agentClosePosition :
    World -> Z -> Z -> Z -> Z -> Z -> World * Result Receipt
}.

(** The write calls issued so far, oldest first (a ghost record: the
    source keeps none). *)
Inductive TxRequest :=
| TxMint (depositId tickLower tickUpper liquidity amount0Max amount1Max deadline : Z)
| TxClose (depositId tokenId amount0Min amount1Min deadline : Z).


Record MintResult := {
  mr_tokenId : option Z;
  mr_txHash : string;
  mr_liquidity : Z;   (* held as decimal strings in the source *)
  mr_amount0 : Z;
  mr_amount1 : Z
}.

Record CloseResult := { cr_tokenId : Z; cr_txHash : string }.

Record RebalanceResult := {
  closeTxHashes : list CloseResult;
  mintResult : option MintResult;
  newTokenId : option Z
}.

Section Executor.
Context {World : Type} `{WorldOps World}.

(** The module state: the world, the [positionTickCache] map and the
    ghost record of submissions. *)
Record State := {
  world : World;
  positionTickCache : gmap Z (Z * Z);
  submitted : list TxRequest
}.

Definition getCachedPositionTicks (tokenId : Z) (s : State)
    : option (Z * Z) :=
  positionTickCache s !! tokenId.

Definition getPoolState : M State Types.PoolState :=
  fun s => (readPoolState (world s), s).

Definition getDepositInfo (depositId : Z) : M State Types.DepositInfo :=
  fun s => (readDeposit (world s) depositId, s).

Definition now : M State Z := fun s => (Ok (dateNow (world s)), s).

Definition sendMint (depositId tickLower tickUpper liquidity
    amount0Max amount1Max deadline : Z) : M State Receipt :=
  fun s =>
    let '(w', r) := agentMintPosition (world s) depositId tickLower
                      tickUpper liquidity amount0Max amount1Max deadline in
    (r, {| world := w';
           positionTickCache := positionTickCache s;
           submitted := submitted s ++
             [TxMint depositId tickLower tickUpper liquidity
                     amount0Max amount1Max deadline] |}).

Definition sendClose (depositId tokenId amount0Min amount1Min
    deadline : Z) : M State Receipt :=
  fun s =>
    let '(w', r) := agentClosePosition (world s) depositId tokenId
                      amount0Min amount1Min deadline in
    (r, {| world := w';
           positionTickCache := positionTickCache s;
           submitted := submitted s ++
             [TxClose depositId tokenId amount0Min amount1Min deadline] |}).

Definition cacheSet (tokenId : Z) (ticks : Z * Z) : M State unit :=
  fun s => (Ok tt, {| world := world s;
                      positionTickCache := <[tokenId := ticks]> (positionTickCache s);
                      submitted := submitted s |}).

Definition cacheDelete (tokenId : Z) : M State unit :=
  fun s => (Ok tt, {| world := world s;
                      positionTickCache := delete tokenId (positionTickCache s);
                      submitted := submitted s |}).

(** The scan of [receipt.logs] for the first [PositionCreated]: the
    [tokenId] argument of that record, a uint256. *)
Fixpoint positionCreatedArg (txLogs : list TxLog) : option Z :=
  match txLogs with
  | [] => None
  | ParsedLog name _ tokenId :: rest =>
      if String.eqb name "PositionCreated" then Some tokenId
      else positionCreatedArg rest
  | UnparsedLog :: rest => positionCreatedArg rest
  end.

(** [tokenId = Number(parsed.args.tokenId)] *)
Definition findPositionCreated (txLogs : list TxLog) : option Z :=
  option_map JsNumber.Number_of_bigint (positionCreatedArg txLogs).

Definition executeMintPosition (depositId tickLower tickUpper
    amount0Max amount1Max : Z) : M State (option MintResult) :=
  let* t := now in
  let deadline := t / 1000 + 300 in
  (* Calculate optimal liquidity from available amounts and pool price *)
  let* poolState := getPoolState in
  let sqrtPriceCurrent := Types.sqrtPriceX96 poolState in
  let* sqrtPriceA := lift (tickToSqrtPriceX96 tickLower) in
  let* sqrtPriceB := lift (tickToSqrtPriceX96 tickUpper) in
  let* liquidity := lift (getLiquidityForAmounts sqrtPriceCurrent sqrtPriceA
                       sqrtPriceB amount0Max amount1Max) in
  (* Apply 1% safety margin *)
  let* liquidity := lift (bigDiv (liquidity * 99) 100) in
  if liquidity =? 0 then ret None
  else
    let* receipt := sendMint depositId tickLower tickUpper liquidity
                 amount0Max amount1Max deadline in
    let txHash := hash receipt in
    (* Parse PositionCreated event *)
    let* tokenId := match findPositionCreated (logs receipt) with
               | Some tokenId =>
                   let* _ := cacheSet tokenId (tickLower, tickUpper) in
                   ret (Some tokenId)
               | None => ret None
               end in
    ret (Some {| mr_tokenId := tokenId;
                 mr_txHash := txHash;
                 mr_liquidity := liquidity;
                 mr_amount0 := amount0Max;
                 mr_amount1 := amount1Max |}).

Definition executeClosePosition (depositId tokenId : Z) : M State CloseResult :=
  let* t := now in
  let deadline := t / 1000 + 300 in
  let* receipt := sendClose depositId tokenId 0 0 deadline in
  let txHash := hash receipt in
  (* Remove from cache *)
  let* _ := cacheDelete tokenId in
  ret {| cr_tokenId := tokenId; cr_txHash := txHash |}.

(** The [for (const tokenId of deposit.positionTokenIds)] loop of
    [executeRebalance], pushing onto [closeTxHashes]. *)
Fixpoint closeEach (depositId : Z) (tokenIds : list Z)
    (closeTxHashes : list CloseResult) : M State (list CloseResult) :=
  match tokenIds with
  | [] => ret closeTxHashes
  | tokenId :: rest =>
      let* closeResult := executeClosePosition depositId tokenId in
      closeEach depositId rest (closeTxHashes ++ [closeResult])
  end.

Definition executeRebalance (depositId newTickLower newTickUpper : Z)
    : M State RebalanceResult :=
  (* Step 1: Close all existing positions *)
  let* deposit := getDepositInfo depositId in
  let* closeTxHashes :=
    (if (length (Types.positionTokenIds deposit) =? 0)%nat then ret []
     else closeEach depositId (Types.positionTokenIds deposit) []) in
  (* Step 2: Re-read deposit to get updated balances after close *)
  let* deposit := getDepositInfo depositId in
  let amount0Max := Types.amount0Remaining deposit in
  let amount1Max := Types.amount1Remaining deposit in
  if (amount0Max =? 0) && (amount1Max =? 0) then
    ret {| closeTxHashes := closeTxHashes;
           mintResult := None;
           newTokenId := None |}
  else
    (* Step 3: Mint new position with new tick range *)
    let* mintResult := executeMintPosition depositId newTickLower newTickUpper
                    amount0Max amount1Max in
    ret {| closeTxHashes := closeTxHashes;
           mintResult := mintResult;
           newTokenId := match mintResult with
                         | Some r => mr_tokenId r
                         | None => None
                         end |}.

(** ** Runs of the executor

    The cache changes only inside [executeMintPosition] and
    [executeClosePosition]; every other entry point goes through them.
    The ledger is shared: the other agents, other instances of this
    agent and the depositors write to it too, which the module state
    does not see. *)

(** What a run leaves behind (a ghost record): a mint of this process
    that confirmed with a creation record, a close of this process that
    confirmed, a change of the ledger by another writer. *)
Inductive Event :=
| Minted (tokenId tickLower tickUpper : Z)
| Closed (tokenId : Z)
| LedgerChanged.

Definition mintEvents (r : Result (option MintResult))
    (tickLower tickUpper : Z) : list Event :=
  match r with
  | Ok (Some m) =>
      match mr_tokenId m with
      | Some tokenId => [Minted tokenId tickLower tickUpper]
      | None => []
      end
  | _ => []
  end.

Definition closeEvents (r : Result CloseResult) (tokenId : Z)
    : list Event :=
  match r with
  | Ok _ => [Closed tokenId]
  | Throw _ => []
  end.

Definition withWorld (s : State) (w : World) : State :=
  {| world := w; positionTickCache := positionTickCache s;
     submitted := submitted s |}.

Inductive step : State -> list Event -> State -> Prop :=
| step_mint depositId tickLower tickUpper amount0Max amount1Max s r s' :
    executeMintPosition depositId tickLower tickUpper amount0Max
      amount1Max s = (r, s') ->
    step s (mintEvents r tickLower tickUpper) s'
| step_close depositId tokenId s r s' :
    executeClosePosition depositId tokenId s = (r, s') ->
    step s (closeEvents r tokenId) s'
| step_ledger s w :
    step s [LedgerChanged] (withWorld s w).

Inductive reachable (s0 : State) : list Event -> State -> Prop :=
| reachable_start : reachable s0 [] s0
| reachable_step events s new s' :
    reachable s0 events s -> step s new s' ->
    reachable s0 (events ++ new) s'.




(** The state at module load: [new Map()], nothing submitted. *)
Definition initialState (w : World) : State :=
  {| world := w; positionTickCache := ∅; submitted := [] |}.

(** ** Notions used in the statements *)

(** The liquidity [executeMintPosition] computes before the safety
    margin: the theoretical maximum for the balances. *)
Definition candidateLiquidity (w : World)
    (tickLower tickUpper amount0Max amount1Max : Z) : Result Z :=
  match readPoolState w with
  | Throw e => Throw e
  | Ok poolState =>
      match tickToSqrtPriceX96 tickLower with
      | Throw e => Throw e
      | Ok sqrtPriceA =>
          match tickToSqrtPriceX96 tickUpper with
          | Throw e => Throw e
          | Ok sqrtPriceB =>
              getLiquidityForAmounts (Types.sqrtPriceX96 poolState)
                sqrtPriceA sqrtPriceB amount0Max amount1Max
          end
      end
  end.

(** [reqs] are closes of the positions [ids] of deposit [d], one each,
    in order, with zero minimum amounts. *)
Definition closesOf (d : Z) (reqs : list TxRequest) (ids : list Z)
    : Prop :=
  Forall2 (fun t tokenId => exists dl, t = TxClose d tokenId 0 0 dl)
          reqs ids.

End Executor.

Arguments State World : clear implicits.

(** What the executor assumes of the ledger's write interface: a
    confirmed mint opens one position that was not open and emits its
    creation record, with a token id below [2^53]; a confirmed close
    closes the position it names; a failed write opens and closes
    nothing. *)
Class LedgerLaws (World : Type) `{WorldOps World} := {
  openPositions : World -> gset Z;
  mint_confirmed : forall w d lo hi liq a0 a1 dl w' r,
    agentMintPosition w d lo hi liq a0 a1 dl = (w', Ok r) ->
    exists tokenId,
      (tokenId ∉ openPositions w) /\
      (openPositions w' = {[tokenId]} ∪ openPositions w) /\
      (positionCreatedArg (logs r) = Some tokenId) /\
      (0 <= tokenId < 2 ^ 53);
  mint_failed : forall w d lo hi liq a0 a1 dl w' e,
    agentMintPosition w d lo hi liq a0 a1 dl = (w', Throw e) ->
    openPositions w' = openPositions w;
  close_confirmed : forall w d tokenId m0 m1 dl w' r,
    agentClosePosition w d tokenId m0 m1 dl = (w', Ok r) ->
    (tokenId ∈ openPositions w) /\
    (openPositions w' = openPositions w ∖ {[tokenId]});
  close_failed : forall w d tokenId m0 m1 dl w' e,
    agentClosePosition w d tokenId m0 m1 dl = (w', Throw e) ->
    openPositions w' = openPositions w
}.

Section CacheInvariant.
Context {World : Type} `{LedgerLaws World}.


End CacheInvariant.

End TxExecutor.

(* ===================================================================== *)
(** * erc8004-service.ts: validation records and reputation *)
(* ===================================================================== *)

Module Erc8004.
Import Effects JsNumber.

Record AgentInfo := {
  ai_agentId : Z;
  ai_domain : string;
  ai_address : string
}.

Record ValidationRecord := {
  dataHash : string;
  agentId : Z;          (* server agent *)
  validatorId : Z;      (* validator agent *)
  score : option float; (* number | null *)
  responded : bool;
  timestamp : Z
}.

(** The [args] of the registry's two events. *)
Record RequestEventArgs := {
  req_agentValidatorId : Z;
  req_agentServerId : Z;
  req_dataHash : string
}.

Record ResponseEventArgs := {
  res_agentValidatorId : Z;
  res_agentServerId : Z;
  res_dataHash : string;
  res_response : Z
}.

(** The registries behind [contracts.identity], [contracts.reputation]
    and [contracts.validation], the clock, and the content hash
    [keccak256(toUtf8Bytes(JSON.stringify(decisionData)))].  An event of a
    query result may come without [args]. *)
Class RegistryOps (Chain Payload : Type) := {
  clock : Chain -> Z;
  keccakOfJson : Payload -> string;
  validationRequest : Chain -> Z -> Z -> string -> Chain * Result unit;
  validationResponse : Chain -> string -> float -> Chain * Result unit;
  isValidationPending : Chain -> string -> Result (bool * bool);
  getValidationResponse : Chain -> string -> Result (bool * Z);
  getAgent : Chain -> Z -> Result AgentInfo;
  getAgentCount : Chain -> Result Z;
  queryValidationRequestEvents :
    Chain -> Z -> Result (list (option RequestEventArgs));
  queryValidationResponseEvents :
    Chain -> Z -> Result (list (option ResponseEventArgs));
  reputationIsFeedbackAuthorized : Chain -> Z -> Z -> Result (bool * string)
}.

Record ValidationStatus := {
  vs_status : string;
  vs_score : option float
}.

Record HistoryEntry := {
  h_dataHash : string;
  h_score : option float;
  h_responded : bool
}.

Record FeedbackAuthorization := {
  clientAgentId : Z;
  feedbackAuthId : string
}.

Record AgentReputation := {
  rep_agentId : Z;
  rep_domain : string;
  rep_address : string;
  totalValidations : nat;
  respondedValidations : nat;
  averageScore : float;
  validationHistory : list HistoryEntry;
  feedbackAuthorizations : list FeedbackAuthorization;
  totalFeedbackAuths : nat;
  reputationScore : float
}.

(** [xs.length] as a number. *)
Definition lengthNumber {A} (xs : list A) : float :=
  of_Z (Z.of_nat (length xs)).

(** [record.score = score; record.responded = true] on the first record
    with the hash, if any ([validationStore.find]). *)
Fixpoint recordResponse (h : string) (sc : float)
    (store : list ValidationRecord) : list ValidationRecord :=
  match store with
  | [] => []
  | r :: rest =>
      if String.eqb (dataHash r) h then
        {| dataHash := dataHash r; agentId := agentId r;
           validatorId := validatorId r; score := Some sc;
           responded := true; timestamp := timestamp r |} :: rest
      else r :: recordResponse h sc rest
  end.

(** [responseMap]: later response events overwrite earlier ones. *)
Definition buildResponseMap (responseLogs : list (option ResponseEventArgs))
    : gmap string float :=
  fold_left
    (fun m el =>
       match el with
       | Some args => <[res_dataHash args := of_Z (res_response args)]> m
       | None => m
       end)
    responseLogs ∅.

(** The merge loop over [requestLogs]; [knownHashes] is computed once,
    before the loop. *)
Definition mergeRequestLogs (knownHashes : gset string)
    (responseMap : gmap string float)
    (requestLogs : list (option RequestEventArgs))
    (store : list ValidationRecord) : list ValidationRecord :=
  fold_left
    (fun st el =>
       match el with
       | None => st
       | Some args =>
           let dh := req_dataHash args in
           if decide (dh ∈ knownHashes) then st
           else
             let sc := responseMap !! dh in
             st ++ [{| dataHash := dh;
                       agentId := req_agentServerId args;
                       validatorId := req_agentValidatorId args;
                       score := sc;
                       responded := match sc with
                                    | Some _ => true
                                    | None => false
                                    end;
                       timestamp := 0 |}]
       end)
    requestLogs store.

(** [scores.reduce((a, b) => a + b, 0) / scores.length], or 0. *)
Definition meanOrZero (scores : list float) : float :=
  if (0 <? length scores)%nat
  then (fold_left PrimFloat.add scores 0 / lengthNumber scores)%float
  else 0%float.

(** ** Notions used in the statements *)

(** A record merged from the chain: its hash was not known, and it is
    responded exactly when a response score was found. *)
Definition mergedRecord (knownHashes : gset string)
    (responseMap : gmap string float) (r : ValidationRecord) : Prop :=
  (dataHash r ∉ knownHashes)
  /\ score r = responseMap !! dataHash r
  /\ responded r = match score r with Some _ => true | None => false end.

(** The records the merge loop pushes: one for each request event whose
    hash is not in [knownHashes], in the order of the log, a hash that
    the log repeats included each time. *)
Definition pushedRecords (knownHashes : gset string)
    (responseMap : gmap string float)
    (requestLogs : list (option RequestEventArgs))
    : list ValidationRecord :=
  omap (fun el =>
          match el with
          | None => None
          | Some args =>
              let dh := req_dataHash args in
              if decide (dh ∈ knownHashes) then None
              else
                let sc := responseMap !! dh in
                Some {| dataHash := dh;
                        agentId := req_agentServerId args;
                        validatorId := req_agentValidatorId args;
                        score := sc;
                        responded := match sc with
                                     | Some _ => true
                                     | None => false
                                     end;
                        timestamp := 0 |}
          end)
       requestLogs.

(** The hashes of the request events that carry [args]. *)
Definition requestHashes (requestLogs : list (option RequestEventArgs))
    : list string :=
  omap (fun el => option_map req_dataHash el) requestLogs.

(** A record is responded exactly when it has a score. *)
Definition scored (r : ValidationRecord) : Prop :=
  responded r = match score r with Some _ => true | None => false end.

(** [validationStore.find((r) => r.dataHash === h)] *)
Definition firstWith (h : string) (store : list ValidationRecord)
    : option ValidationRecord :=
  List.find (fun r => String.eqb (dataHash r) h) store.

(** Whenever a record is responded, so is the first record with its hash:
    the one [getValidationStatus] and [submitValidationResponse] find. *)
Definition firstResponded (store : list ValidationRecord) : Prop :=
  forall r, In r store -> responded r = true ->
    exists r1, firstWith (dataHash r) store = Some r1 /\ responded r1 = true.

Definition storeInv (store : list ValidationRecord) : Prop :=
  Forall scored store /\ firstResponded store.

Section Service.
Context {Chain Payload : Type} `{RegistryOps Chain Payload}.

(** The module state: the registries and [validationStore]. *)
Record State := {
  chain : Chain;
  validationStore : list ValidationRecord
}.

Definition getValidationStore (s : State) : list ValidationRecord :=
  validationStore s.

Definition sendValidationRequest (validatorAgentId myAgentId : Z)
    (h : string) : M State unit :=
  fun s =>
    let '(c', r) := validationRequest (chain s) validatorAgentId
                      myAgentId h in
    (r, {| chain := c'; validationStore := validationStore s |}).

Definition sendValidationResponse (h : string) (sc : float)
    : M State unit :=
  fun s =>
    let '(c', r) := validationResponse (chain s) h sc in
    (r, {| chain := c'; validationStore := validationStore s |}).

Definition readChain {A} (f : Chain -> Result A) : M State A :=
  fun s => (f (chain s), s).

Definition modifyStore
    (f : list ValidationRecord -> list ValidationRecord) : M State unit :=
  fun s => (Ok tt, {| chain := chain s;
                      validationStore := f (validationStore s) |}).

Definition getTotalAgents : M State Z := readChain getAgentCount.

Definition isFeedbackAuthorized (clientId serverId : Z)
    : M State (bool * string) :=
  readChain (fun c => reputationIsFeedbackAuthorized c clientId serverId).

Definition requestValidation (validatorAgentId myAgentId : Z)
    (decisionData : Payload) : M State string :=
  let h := keccakOfJson decisionData in
  let* _ := sendValidationRequest validatorAgentId myAgentId h in
  (* Track in-memory *)
  let* t := readChain (fun c => Ok (clock c)) in
  let* _ := modifyStore (fun store =>
              store ++ [{| dataHash := h;
                           agentId := myAgentId;
                           validatorId := validatorAgentId;
                           score := None;
                           responded := false;
                           timestamp := t |}]) in
  ret h.

Definition submitValidationResponse (h : string) (sc : float)
    : M State unit :=
  let* _ := sendValidationResponse h sc in
  (* Update in-memory record *)
  modifyStore (recordResponse h sc).

Definition getValidationStatus (h : string) : M State ValidationStatus :=
  fun s =>
    (* Check in-memory first *)
    match find (fun r => String.eqb (dataHash r) h) (validationStore s) with
    | Some record =>
        if responded record
        then (Ok {| vs_status := "RESPONDED"; vs_score := score record |}, s)
        else (Ok {| vs_status := "PENDING"; vs_score := None |}, s)
    | None =>
        (* Fallback to on-chain *)
        (let* ep := readChain (fun c => isValidationPending c h) in
         let '(exists_, pending) := ep in
         if negb exists_ then
           ret {| vs_status := "NOT_FOUND"; vs_score := None |}
         else if pending then
           ret {| vs_status := "PENDING"; vs_score := None |}
         else
           let* hr := readChain (fun c => getValidationResponse c h) in
           ret {| vs_status := "RESPONDED";
                  vs_score := Some (of_Z (snd hr)) |}) s
    end.

(** The body of the [try] in [getAgentReputation]: both event queries,
    then the merge into the store. *)
Definition mergeOnChainEvents (a : Z) : M State unit :=
  let* requestLogs :=
    readChain (fun c => queryValidationRequestEvents c a) in
  let* responseLogs :=
    readChain (fun c => queryValidationResponseEvents c a) in
  modifyStore (fun store =>
    let knownHashes : gset string := list_to_set (map dataHash store) in
    let responseMap := buildResponseMap responseLogs in
    mergeRequestLogs knownHashes responseMap requestLogs store).

(** The loop [for (let i = 1; i <= totalAgents; i++)]; a failed
    authorization query is skipped. *)
Fixpoint collectFeedbackAuthorizations (candidates : list Z) (a : Z)
    (acc : list FeedbackAuthorization) : M State (list FeedbackAuthorization) :=
  match candidates with
  | [] => ret acc
  | i :: rest =>
      if i =? a then collectFeedbackAuthorizations rest a acc
      else
        let* acc' :=
          tryCatch
            (let* r := isFeedbackAuthorized i a in
             let '(authorized, authId) := r in
             if authorized
             then ret (acc ++ [{| clientAgentId := i;
                                  feedbackAuthId := authId |}])
             else ret acc)
            (fun _ => ret acc) in
        collectFeedbackAuthorizations rest a acc'
  end.

Definition getAgentReputation (a : Z) : M State AgentReputation :=
  (* Get agent identity *)
  let* info := readChain (fun c => getAgent c a) in
  let* totalAgents := getTotalAgents in
  (* Also try on-chain queryFilter as supplement *)
  let* _ := tryCatch (mergeOnChainEvents a) (fun _ => ret tt) in
  (* Re-filter after potential merge *)
  let* store := (fun s => (Ok (validationStore s), s)) in
  let allValidations := filter (fun r => agentId r = a) store in
  let validationHistory :=
    map (fun r => {| h_dataHash := dataHash r; h_score := score r;
                     h_responded := responded r |}) allValidations in
  let respondedValidations :=
    length (filter (fun v => responded v = true) allValidations) in
  let scores := omap score allValidations in
  let averageScore := meanOrZero scores in
  (* Feedback authorizations *)
  let* feedbackAuthorizations :=
    collectFeedbackAuthorizations (seqZ 1 totalAgents) a [] in
  (* Compute reputation score (0-100) *)
  let validationScoreComponent := (averageScore * 0.6)%float in
  let responseRate :=
    if (0 <? length allValidations)%nat
    then (of_Z (Z.of_nat respondedValidations)
          / lengthNumber allValidations * 100)%float
    else 0%float in
  let responseRateComponent := (responseRate * 0.2)%float in
  let maxPossibleAuths := Math_max (of_Z (totalAgents - 1)) 1 in
  let trustRatio :=
    (lengthNumber feedbackAuthorizations / maxPossibleAuths * 100)%float in
  let trustComponent := (trustRatio * 0.2)%float in
  let reputationScore :=
    if (length allValidations =? 0)%nat
       && (length feedbackAuthorizations =? 0)%nat
    then 50%float
    else Math_round (validationScoreComponent + responseRateComponent
                     + trustComponent)%float in
  ret {| rep_agentId := ai_agentId info;
         rep_domain := ai_domain info;
         rep_address := ai_address info;
         totalValidations := length allValidations;
         respondedValidations := respondedValidations;
         averageScore := (Math_round (averageScore * 100) / 100)%float;
         validationHistory := validationHistory;
         feedbackAuthorizations := feedbackAuthorizations;
         totalFeedbackAuths := length feedbackAuthorizations;
         reputationScore := reputationScore |}.

(** The inbound authorizations of agent [a] among the [candidates]. *)
Definition inboundAuthorizations (c : Chain) (candidates : list Z)
    (a : Z) : list FeedbackAuthorization :=
  omap (fun i =>
          if i =? a then None
          else match reputationIsFeedbackAuthorized c i a with
               | Ok (true, authId) =>
                   Some {| clientAgentId := i; feedbackAuthId := authId |}
               | _ => None
               end)
       candidates.

(** ** Runs of the service: the calls that touch [validationStore]. *)
Inductive step : State -> State -> Prop :=
| step_request validatorAgentId myAgentId decisionData s r s' :
    requestValidation validatorAgentId myAgentId decisionData s = (r, s') ->
    step s s'
| step_response h sc s r s' :
    submitValidationResponse h sc s = (r, s') ->
    step s s'
| step_reputation a s r s' :
    getAgentReputation a s = (r, s') ->
    step s s'
| step_status h s r s' :
    getValidationStatus h s = (r, s') ->
    step s s'.

Inductive reachable (s0 : State) : State -> Prop :=
| reachable_start : reachable s0 s0
| reachable_step s s' : reachable s0 s -> step s s' -> reachable s0 s'.

(** The state at module load: [validationStore = []]. *)
Definition initialState (c : Chain) : State :=
  {| chain := c; validationStore := [] |}.

End Service.

Arguments State Chain : clear implicits.

End Erc8004.

(** The reputation score in the words of the specification, to be compared
    with what [getAgentReputation] computes. *)
Module ReputationSpec.
Import JsNumber Erc8004.

(** The mean of the non-null scores (0 when there is none). *)
Definition averageScore (records : list ValidationRecord) : float :=
  let scores := omap score records in
  match scores with
  | [] => 0%float
  | _ => (fold_left PrimFloat.add scores 0 / lengthNumber scores)%float
  end.

(** Responded records divided by total records, times 100 (0 if no
    records). *)
Definition responseRatePercent (records : list ValidationRecord) : float :=
  match records with
  | [] => 0%float
  | _ => (lengthNumber (List.filter responded records)
          / lengthNumber records * 100)%float
  end.

(** The count of inbound authorizations divided by
    [max(totalAgents - 1, 1)], times 100. *)
Definition trustRatioPercent (authorizations : nat) (totalAgents : Z)
    : float :=
  (of_Z (Z.of_nat authorizations) / Math_max (of_Z (totalAgents - 1)) 1
   * 100)%float.

(** The records deduplicated by hash: of the records with one hash, the
    first is kept. *)
Fixpoint dedupFrom (seen : list string) (records : list ValidationRecord)
    : list ValidationRecord :=
  match records with
  | [] => []
  | r :: rest =>
      if existsb (String.eqb (dataHash r)) seen then dedupFrom seen rest
      else r :: dedupFrom (dataHash r :: seen) rest
  end.

Definition dedupByHash (records : list ValidationRecord)
    : list ValidationRecord :=
  dedupFrom [] records.

(** 50 for an agent with no validation record and no authorization,
    [round(0.6 avg + 0.2 rate + 0.2 trust)] otherwise. *)
Definition reputationScore (records : list ValidationRecord)
    (authorizations : nat) (totalAgents : Z) : float :=
  match records, authorizations with
  | [], O => 50%float
  | _, _ =>
      Math_round (0.6 * averageScore records
                  + 0.2 * responseRatePercent records
                  + 0.2 * trustRatioPercent authorizations totalAgents)%float
  end.

End ReputationSpec.

(* ===================================================================== *)
(** * JavaScript strings *)
(* ===================================================================== *)

Module JsString.

Definition lowerAscii (c : ascii) : ascii :=
  let n := nat_of_ascii c in
  if ((65 <=? n) && (n <=? 90))%nat then ascii_of_nat (n + 32) else c.

(** [s.toLowerCase()] on the ASCII letters (addresses are hexadecimal). *)
Fixpoint toLowerCase (s : string) : string :=
  match s with
  | EmptyString => EmptyString
  | String c rest => String (lowerAscii c) (toLowerCase rest)
  end.

(** [s.includes(needle)] *)
Fixpoint includes (needle s : string) : bool :=
  String.prefix needle s
  || match s with
     | EmptyString => false
     | String _ rest => includes needle rest
     end.

End JsString.

(* ===================================================================== *)
(** * event-listener.ts: the deposit and assignment poller *)
(* ===================================================================== *)

Module EventListener.
Import Effects Types JsString.

Definition STRATEGY_MAP (i : Z) : option StrategyName :=
  if i =? 0 then Some CONSERVATIVE
  else if i =? 1 then Some BALANCED
  else if i =? 2 then Some DEGEN
  else None.

Definition AGENT_ADDRESSES (s : StrategyName) : string :=
  match s with
  | CONSERVATIVE => "0x5b6A404F8958E7e10028301549e61435925725Bf"
  | BALANCED => "0x6c52aAD1Cbb66C0f666b62b36261d2f2205A8607"
  | DEGEN => "0x5B20B5a4Bba73bC6363fBE90E6b2Ab4fFF5C820e"
  end.

Definition MAX_RECENT : nat := 50.

Record DepositEvent := {
  ev_depositId : Z;
  ev_user : string;
  ev_amount0 : Z;     (* held as decimal strings in the source *)
  ev_amount1 : Z;
  ev_strategy : option StrategyName;
  ev_lockUntil : Z;
  ev_recommendedAgent : option string;
  ev_timestamp : Z
}.

Record DepositCreatedArgs := {
  dc_depositId : Z;
  dc_user : string;
  dc_amount0 : Z;
  dc_amount1 : Z;
  dc_strategy : Z;
  dc_lockUntil : Z
}.

Record AgentAssignedArgs := {
  aa_depositId : Z;
  aa_agent : string
}.

(** The provider, the agent contract's event queries, the wallet and
    [processDeposit] of [agent.ts].  [processDeposit] is started and not
    awaited; the model runs it where it is started and keeps its outcome
    for the [.catch] handler. *)
Class ListenerOps (World : Type) := {
  getBlockNumber : World -> Result Z;
  dateNow : World -> Z;
  queryDepositCreated :
    World -> Z -> Z -> Result (list (option DepositCreatedArgs));
  queryAgentAssigned :
    World -> Z -> Z -> Result (list (option AgentAssignedArgs));
  agentWalletAddress : World -> string;
  processDeposit : World -> Z -> World * Result unit
}.

Inductive EventQuery :=
| QueryDepositCreated (fromBlock toBlock : Z)
| QueryAgentAssigned (fromBlock toBlock : Z).

Section Listener.
Context {World : Type} `{ListenerOps World}.

(** [lastBlock] and [recentDeposits], with ghost records of the queries
    issued, of the deposits handed to [processDeposit] and of the
    messages given to [logError]. *)
Record State := {
  world : World;
  lastBlock : Z;
  recentDeposits : list DepositEvent;
  queries : list EventQuery;
  processed : list Z;
  errors : list string
}.

Definition getRecentDeposits (s : State) : list DepositEvent :=
  recentDeposits s.

Definition readWorld {A} (f : World -> Result A) : M State A :=
  fun s => (f (world s), s).

Definition setLastBlock (b : Z) : M State unit :=
  fun s => (Ok tt, {| world := world s; lastBlock := b;
                      recentDeposits := recentDeposits s;
                      queries := queries s; processed := processed s;
                      errors := errors s |}).

Definition setRecentDeposits (l : list DepositEvent) : M State unit :=
  fun s => (Ok tt, {| world := world s; lastBlock := lastBlock s;
                      recentDeposits := l;
                      queries := queries s; processed := processed s;
                      errors := errors s |}).

Definition logError (msg : string) : M State unit :=
  fun s => (Ok tt, {| world := world s; lastBlock := lastBlock s;
                      recentDeposits := recentDeposits s;
                      queries := queries s; processed := processed s;
                      errors := errors s ++ [msg] |}).

Definition queryFilter (q : EventQuery) : M State unit :=
  fun s => (Ok tt, {| world := world s; lastBlock := lastBlock s;
                      recentDeposits := recentDeposits s;
                      queries := queries s ++ [q];
                      processed := processed s;
                      errors := errors s |}).

(** [processDeposit(depositId).catch(err => logError(...))] *)
Definition processImmediately (depositId : Z) : M State unit :=
  fun s =>
    let '(w', r) := processDeposit (world s) depositId in
    let s' := {| world := w'; lastBlock := lastBlock s;
                 recentDeposits := recentDeposits s;
                 queries := queries s;
                 processed := processed s ++ [depositId];
                 errors := errors s |} in
    match r with
    | Ok _ => (Ok tt, s')
    | Throw _ => logError "Immediate processing failed" s'
    end.

(** The body of the loop over [depositLogs]. *)
Definition onDepositCreated (el : option DepositCreatedArgs)
    : M State unit :=
  match el with
  | None => ret tt
  | Some args =>
      let strategyName := STRATEGY_MAP (dc_strategy args) in
      let recommendedAgent := option_map AGENT_ADDRESSES strategyName in
      fun s =>
        let event := {| ev_depositId := dc_depositId args;
                        ev_user := dc_user args;
                        ev_amount0 := dc_amount0 args;
                        ev_amount1 := dc_amount1 args;
                        ev_strategy := strategyName;
                        ev_lockUntil := dc_lockUntil args;
                        ev_recommendedAgent := recommendedAgent;
                        ev_timestamp := dateNow (world s) |} in
        let unshifted := event :: recentDeposits s in
        setRecentDeposits
          (if (MAX_RECENT <? length unshifted)%nat
           then removelast unshifted else unshifted) s
  end.

(** The body of the loop over [assignLogs]. *)
Definition onAgentAssigned (el : option AgentAssignedArgs)
    : M State unit :=
  match el with
  | None => ret tt
  | Some args =>
      let depositId := aa_depositId args in
      let assignedAgent := aa_agent args in
      fun s =>
        if String.eqb (toLowerCase assignedAgent)
                      (toLowerCase (agentWalletAddress (world s)))
        then processImmediately depositId s
        else ret tt s
  end.

Fixpoint forEach {A} (f : A -> M State unit) (xs : list A)
    : M State unit :=
  match xs with
  | [] => ret tt
  | x :: rest => let* _ := f x in forEach f rest
  end.

(** The [try] block of [poll]. *)
Definition pollBody : M State unit :=
  let* currentBlock := readWorld getBlockNumber in
  let* lb := (fun s => (Ok (lastBlock s), s)) in
  let* _ := (if lb =? 0
             (* On first run, only look back ~100 blocks *)
             then setLastBlock (Z.max 0 (currentBlock - 100))
             else ret tt) in
  let* lb := (fun s => (Ok (lastBlock s), s)) in
  if currentBlock <=? lb then ret tt
  else
    (* Query DepositCreated events *)
    let* _ := queryFilter (QueryDepositCreated (lb + 1) currentBlock) in
    let* depositLogs :=
      readWorld (fun w => queryDepositCreated w (lb + 1) currentBlock) in
    let* _ := forEach onDepositCreated depositLogs in
    (* Query AgentAssigned events *)
    let* _ := queryFilter (QueryAgentAssigned (lb + 1) currentBlock) in
    let* assignLogs :=
      readWorld (fun w => queryAgentAssigned w (lb + 1) currentBlock) in
    let* _ := forEach onAgentAssigned assignLogs in
    setLastBlock currentBlock.

Definition poll : M State unit :=
  tryCatch pollBody (fun _ => logError "Event poller error").

(** [startDepositListener]: [let lastBlock = 0]. *)
Definition initialState (w : World) : State :=
  {| world := w; lastBlock := 0; recentDeposits := [];
     queries := []; processed := []; errors := [] |}.

(** ** Notions used in the statements *)

Definition withLastBlock (s : State) (b : Z) : State :=
  {| world := world s; lastBlock := b;
     recentDeposits := recentDeposits s;
     queries := queries s; processed := processed s;
     errors := errors s |}.

(** The watermark a poll works with: initialized while it is 0. *)
Definition watermarkAt (s : State) (currentBlock : Z) : Z :=
  if lastBlock s =? 0 then Z.max 0 (currentBlock - 100) else lastBlock s.

End Listener.

Arguments State World : clear implicits.

End EventListener.

(* ===================================================================== *)
(** * agent.ts: per-deposit processing *)
(* ===================================================================== *)

Module Agent.
Import Effects JsNumber JsString Types.

Definition STRATEGY_MAP := EventListener.STRATEGY_MAP.

Record ExecutionResult := {
  er_action : string;
  er_txHashes : list string;
  er_newTokenId : option Z;
  er_tickLower : option float;
  er_tickUpper : option float
}.

(** [{ depositId, decision, timestamp: Date.now() }] *)
Record ValidationPayload := {
  vp_depositId : Z;
  vp_decision : PositionDecision;
  vp_timestamp : Z
}.

(** What [processDeposit] calls: the wallet and the clock, the reads of
    [pool-reader.ts], the executor ([getCachedPositionTicks],
    [executeDecision]), the configured advisory backend, and the
    validation calls of [erc8004-service.ts].  [tickToPrice] is the
    display-only [Math.pow] conversion. *)
Class AgentOps (World : Type) := {
  agentWalletAddress : World -> string;
  dateNow : World -> Z;
  readDeposit : World -> Z -> Result DepositInfo;
  readPosition : World -> Z -> Result PositionInfo;
  readPoolState : World -> Result PoolState;
  getCachedPositionTicks : World -> Z -> option (Z * Z);
  tickToPrice : Z -> float;
  llmAnalyze : World -> PoolAnalysis -> StrategyName ->
               list ExistingPosition -> World * Result PositionDecision;
  requestValidation :
    World -> Z -> Z -> ValidationPayload -> World * Result string;
  executeDecision :
    World -> Z -> PositionDecision -> World * Result ExecutionResult;
  submitValidationResponse :
    World -> string -> float -> World * Result unit
}.

(** The calls made to the backend, the registry and the executor, oldest
    first (a ghost record). *)
Inductive Call :=
| CallAnalyze
| CallRequestValidation (payload : ValidationPayload)
| CallExecuteDecision (depositId : Z) (decision : PositionDecision)
| CallSubmitValidationResponse (dataHash : string) (score : float).

Definition isValidationOrExecution (c : Call) : bool :=
  match c with
  | CallAnalyze => false
  | _ => true
  end.

Definition actionIsHold (a : Action) : bool :=
  match a with HOLD => true | _ => false end.

(** A recorded validation request or execution carries a decision that
    passed the gate. *)
Definition gateRespected (c : Call) : Prop :=
  match c with
  | CallRequestValidation payload =>
      (confidence (vp_decision payload) <? 60)%float = false
  | CallExecuteDecision _ decision =>
      (confidence decision <? 60)%float = false
  | CallAnalyze | CallSubmitValidationResponse _ _ => True
  end.

Section Processing.
Context {World : Type} `{AgentOps World}.

Record State := {
  world : World;
  agentInfo : option Erc8004.AgentInfo;
  calls : list Call
}.

Definition getAgentInfo (s : State) : option Erc8004.AgentInfo :=
  agentInfo s.

Definition readWorld {A} (f : World -> Result A) : M State A :=
  fun s => (f (world s), s).

Definition callWorld {A} (c : Call) (f : World -> World * Result A)
    : M State A :=
  fun s =>
    let '(w', r) := f (world s) in
    (r, {| world := w'; agentInfo := agentInfo s;
           calls := calls s ++ [c] |}).

(** The loop building [existingPositions]: cached ticks first, the
    router's otherwise. *)
Fixpoint collectPositions (tokenIds : list Z)
    (existingPositions : list ExistingPosition)
    : M State (list ExistingPosition) :=
  match tokenIds with
  | [] => ret existingPositions
  | tokenId :: rest =>
      let* pos := readWorld (fun w => readPosition w tokenId) in
      let* cached :=
        readWorld (fun w => Ok (getCachedPositionTicks w tokenId)) in
      let lo := match cached with
                | Some c => fst c
                | None => pi_tickLower pos
                end in
      let hi := match cached with
                | Some c => snd c
                | None => pi_tickUpper pos
                end in
      collectPositions rest
        (existingPositions ++
           [{| pos_tickLower := of_Z lo;
               pos_tickUpper := of_Z hi;
               pos_liquidity := pretty (pi_liquidity pos) |}])
  end.

Definition hasUnknownPositions (existingPositions : list ExistingPosition)
    : bool :=
  existsb
    (fun p => (pos_tickLower p =? 0)%float
              && (pos_tickUpper p =? 0)%float
              && negb (String.eqb (pos_liquidity p) "0"))
    existingPositions.

Definition mkAnalysis (poolState : PoolState) : PoolAnalysis :=
  {| currentTick := of_Z (tick poolState);
     currentPrice := tickToPrice (tick poolState);
     pa_liquidity := pretty (liquidity poolState);
     feeGrowth0 := pretty (feeGrowthGlobal0 poolState);
     feeGrowth1 := pretty (feeGrowthGlobal1 poolState) |}.

(** The call of the advisory backend; with a strategy index outside the
    table the configuration read fails. *)
Definition askBackend (analysis : PoolAnalysis)
    (strategy : option StrategyName)
    (existingPositions : list ExistingPosition) : M State PositionDecision :=
  match strategy with
  | None => lift (Throw TypeError)
  | Some st =>
      callWorld CallAnalyze
        (fun w => llmAnalyze w analysis st existingPositions)
  end.

(** Request on-chain validation before executing; a failure is logged
    and [dataHash] stays [null]. *)
Definition requestValidationBeforeExecuting (info : Erc8004.AgentInfo)
    (depositId : Z) (decision : PositionDecision)
    : M State (option string) :=
  if negb (actionIsHold (action decision)) then
    tryCatch
      (let* t := readWorld (fun w => Ok (dateNow w)) in
       let payload := {| vp_depositId := depositId;
                         vp_decision := decision;
                         vp_timestamp := t |} in
       let* h := callWorld (CallRequestValidation payload)
                   (fun w => requestValidation w (Erc8004.ai_agentId info)
                               (Erc8004.ai_agentId info) payload) in
       ret (Some h))
      (fun _ => ret None)
  else ret None.

(** Submit validation response (self-validate with confidence as
    score); [if (dataHash)] is false for [null] and for the empty
    string. *)
Definition submitResponseAfterExecuting (dataHash : option string)
    (decision : PositionDecision) : M State unit :=
  match dataHash with
  | Some h =>
      if String.eqb h "" then ret tt
      else
        tryCatch
          (let sc := Math_min (confidence decision) 100 in
           callWorld (CallSubmitValidationResponse h sc)
             (fun w => submitValidationResponse w h sc))
          (fun _ => ret tt)
  | None => ret tt
  end.

(** [processDeposit] of [src/agent.ts]. *)
Definition processDeposit (depositId : Z) : M State unit :=
  let* info := (fun s => (Ok (agentInfo s), s)) in
  match info with
  | None => ret tt
  | Some info =>
      let* deposit := readWorld (fun w => readDeposit w depositId) in
      let strategy := STRATEGY_MAP (Types.strategy deposit) in
      let* wallet := readWorld (fun w => Ok (agentWalletAddress w)) in
      (* Verify this deposit is assigned to us and active *)
      if negb (String.eqb (toLowerCase (assignedAgent deposit))
                          (toLowerCase wallet)) then ret tt
      else if negb (status deposit =? 0) then ret tt
      else
        let* existingPositions :=
          collectPositions (positionTokenIds deposit) [] in
        (* Read pool state *)
        let* poolState := readWorld readPoolState in
        if (0 <? length existingPositions)%nat
           && hasUnknownPositions existingPositions then ret tt
        else
          let analysis := mkAnalysis poolState in
          let* decision := askBackend analysis strategy existingPositions in
          (* Only execute if confidence is high enough *)
          if (confidence decision <? 60)%float then ret tt
          else
            let* dataHash :=
              requestValidationBeforeExecuting info depositId decision in
            (* Execute the decision *)
            let* _ := callWorld (CallExecuteDecision depositId decision)
                        (fun w => executeDecision w depositId decision) in
            submitResponseAfterExecuting dataHash decision
  end.

End Processing.

Arguments State World : clear implicits.

End Agent.

(** The later variant of [agent.ts], built on [analyzePool] of
    [llm-analyzer.ts]. *)
Module AgentWithFallback.
Import Effects JsNumber JsString Types Agent.

Record ProcessDepositResult := {
  pr_action : string;
  pr_tickLower : option float;
  pr_tickUpper : option float;
  pr_newTokenId : option Z;
  pr_reason : string;
  pr_confidence : float;
  pr_txHashes : list string;
  pr_validationHash : option string
}.

Section Processing.
Context {World : Type} `{AgentOps World}.

(** [analyzePool]: the configured provider, replaced by the fallback
    when it reports confidence 0 or a parse failure, or throws. *)
Definition analyzePool (poolState : PoolAnalysis)
    (strategy : option StrategyName)
    (existingPositions : list ExistingPosition)
    : M (State World) PositionDecision :=
  match strategy with
  | None => lift (Throw TypeError)
  | Some st =>
      tryCatch
        (let* decision := askBackend poolState strategy existingPositions in
         (* If LLM returned low confidence (likely parse error) *)
         if (confidence decision =? 0)%float
            || includes "Failed to parse" (reason decision)
         then ret (LlmAnalyzer.getFallbackDecision poolState st
                     existingPositions)
         else ret decision)
        (fun _ => ret (LlmAnalyzer.getFallbackDecision poolState st
                         existingPositions))
  end.

Definition processDeposit (depositId : Z)
    : M (State World) (option ProcessDepositResult) :=
  let* info := (fun s => (Ok (agentInfo s), s)) in
  match info with
  | None => ret None
  | Some info =>
      let* deposit := readWorld (fun w => readDeposit w depositId) in
      let strategy := STRATEGY_MAP (Types.strategy deposit) in
      let* wallet := readWorld (fun w => Ok (agentWalletAddress w)) in
      (* Verify this deposit is assigned to us and active *)
      if negb (String.eqb (toLowerCase (assignedAgent deposit))
                          (toLowerCase wallet)) then ret None
      else if negb (status deposit =? 0) then ret None
      else
        let* existingPositions :=
          collectPositions (positionTokenIds deposit) [] in
        (* Read pool state *)
        let* poolState := readWorld readPoolState in
        if (0 <? length existingPositions)%nat
           && hasUnknownPositions existingPositions then
          ret (Some {| pr_action := "HOLD";
                       pr_tickLower := None;
                       pr_tickUpper := None;
                       pr_newTokenId := None;
                       pr_reason := "Position has unknown tick range";
                       pr_confidence := 100;
                       pr_txHashes := [];
                       pr_validationHash := None |})
        else
          let analysis := mkAnalysis poolState in
          let* decision := analyzePool analysis strategy existingPositions in
          (* Note: Low confidence fallback is now handled in
             llm-analyzer.ts so we proceed with execution directly *)
          let* dataHash :=
            requestValidationBeforeExecuting info depositId decision in
          (* Execute the decision *)
          let* execResult :=
            callWorld (CallExecuteDecision depositId decision)
              (fun w => executeDecision w depositId decision) in
          let* _ := submitResponseAfterExecuting dataHash decision in
          ret (Some {| pr_action := er_action execResult;
                       pr_tickLower := er_tickLower execResult;
                       pr_tickUpper := er_tickUpper execResult;
                       pr_newTokenId := er_newTokenId execResult;
                       pr_reason := reason decision;
                       pr_confidence := confidence decision;
                       pr_txHashes := er_txHashes execResult;
                       pr_validationHash := dataHash |})
  end.

End Processing.

End AgentWithFallback.

(* ===================================================================== *)
(** * Reference environments

    Small executable stand-ins for the external services, on which the
    embedding can be run: a ledger with deposits and positions, a registry
    with fixed event logs, a chain head for the poller and a scripted
    advisory backend. *)
(* ===================================================================== *)

Module SimPool.
Import Types.

(** A pool snapshot at tick [t]. *)
Definition scenarioPool (t : float) : PoolAnalysis :=
  {| currentTick := t; currentPrice := 0; pa_liquidity := "0";
     feeGrowth0 := "0"; feeGrowth1 := "0" |}.

Definition position (lo hi : float) : ExistingPosition :=
  {| pos_tickLower := lo; pos_tickUpper := hi; pos_liquidity := "1000" |}.


End SimPool.

Module SimLedger.
Import Effects Types TxExecutor.

Record Sim := {
  sim_now : Z;
  sim_pool : Result PoolState;
  sim_deposits : list (Z * DepositInfo);
  sim_open : list Z;
  sim_nextTokenId : Z;
  (* what a close returns to the deposit's balances *)
  sim_refund : Z * Z
}.

Fixpoint lookupDeposit (d : Z) (ds : list (Z * DepositInfo))
    : option DepositInfo :=
  match ds with
  | [] => None
  | (k, v) :: rest => if k =? d then Some v else lookupDeposit d rest
  end.

Fixpoint updateDeposit (d : Z) (f : DepositInfo -> DepositInfo)
    (ds : list (Z * DepositInfo)) : list (Z * DepositInfo) :=
  match ds with
  | [] => []
  | (k, v) :: rest =>
      if k =? d then (k, f v) :: rest else (k, v) :: updateDeposit d f rest
  end.

Definition withPositions (dep : DepositInfo) (a0 a1 : Z) (ids : list Z)
    : DepositInfo :=
  {| user := user dep; amount0Remaining := a0; amount1Remaining := a1;
     lockUntil := lockUntil dep; strategy := strategy dep;
     assignedAgent := assignedAgent dep; status := status dep;
     positionTokenIds := ids |}.

Definition removeId (tokenId : Z) (ids : list Z) : list Z :=
  List.filter (fun i => negb (i =? tokenId)) ids.

Definition memId (tokenId : Z) (ids : list Z) : bool :=
  existsb (fun i => i =? tokenId) ids.

(** A mint takes the whole balance, opens position [sim_nextTokenId] and
    emits its creation record after a foreign log. *)
Definition simMint (w : Sim) (d lo hi liq a0 a1 dl : Z)
    : Sim * Result Receipt :=
  match lookupDeposit d (sim_deposits w) with
  | None => (w, Throw (ServiceError "unknown deposit"))
  | Some _ =>
      let tokenId := sim_nextTokenId w in
      if memId tokenId (sim_open w)
      then (w, Throw (ServiceError "token id in use"))
      else if negb ((0 <=? tokenId) && (tokenId <? 2 ^ 53))
      then (w, Throw (ServiceError "token id out of range"))
      else
        ({| sim_now := sim_now w + 2000;
            sim_pool := sim_pool w;
            sim_deposits :=
              updateDeposit d
                (fun dep => withPositions dep 0 0
                              (positionTokenIds dep ++ [tokenId]))
                (sim_deposits w);
            sim_open := tokenId :: sim_open w;
            sim_nextTokenId := tokenId + 1;
            sim_refund := sim_refund w |},
         Ok {| hash := "0xmint";
               logs := [UnparsedLog;
                        ParsedLog "PositionCreated" d tokenId] |})
  end.

(** A close of an open position returns [sim_refund] to the deposit. *)
Definition simClose (w : Sim) (d tokenId m0 m1 dl : Z)
    : Sim * Result Receipt :=
  if memId tokenId (sim_open w) then
    ({| sim_now := sim_now w + 2000;
        sim_pool := sim_pool w;
        sim_deposits :=
          updateDeposit d
            (fun dep => withPositions dep
                          (amount0Remaining dep + fst (sim_refund w))
                          (amount1Remaining dep + snd (sim_refund w))
                          (removeId tokenId (positionTokenIds dep)))
            (sim_deposits w);
        sim_open := removeId tokenId (sim_open w);
        sim_nextTokenId := sim_nextTokenId w;
        sim_refund := sim_refund w |},
     Ok {| hash := "0xclose";
           logs := [ParsedLog "PositionClosed" d tokenId] |})
  else (w, Throw (ServiceError "position not open")).

#[export] Instance simOps : WorldOps Sim := {|
  dateNow := sim_now;
  readPoolState := sim_pool;
  readDeposit := fun w d =>
    match lookupDeposit d (sim_deposits w) with
    | Some dep => Ok dep
    | None => Throw (ServiceError "unknown deposit")
    end;
  agentMintPosition := simMint;
  agentClosePosition := simClose
|}.

Definition simOpenPositions (w : Sim) : gset Z := list_to_set (sim_open w).

Definition samplePool : PoolState :=
  {| sqrtPriceX96 := 3323502368798229010155612; (* within tick -201600 *)
     tick := -201600;
     liquidity := 123456789012345678;
     feeGrowthGlobal0 := 0;
     feeGrowthGlobal1 := 0 |}.

Definition sampleDeposit (a0 a1 : Z) (ids : list Z) : DepositInfo :=
  {| user := "0xUser"; amount0Remaining := a0; amount1Remaining := a1;
     lockUntil := 0; strategy := 1;
     assignedAgent := "0x6c52aAD1Cbb66C0f666b62b36261d2f2205A8607";
     status := 0; positionTokenIds := ids |}.

(** Deposit 1 with the given balances and open positions. *)
Definition sampleWorld (a0 a1 : Z) (ids : list Z) (refund : Z * Z) : Sim :=
  {| sim_now := 1700000000000;
     sim_pool := Ok samplePool;
     sim_deposits := [(1, sampleDeposit a0 a1 ids)];
     sim_open := ids;
     sim_nextTokenId := 100;
     sim_refund := refund |}.


(** No position is open; deposit 1 holds both tokens. *)
Definition fundedWorld : Sim :=
  sampleWorld 1000000 500000000000000 [] (0, 0).

Definition afterMint : State Sim :=
  snd (executeMintPosition 1 (-202200) (-201000) 1000000 500000000000000
         (initialState fundedWorld)).


End SimLedger.

Module SimRegistry.
Import Effects Erc8004.

Record Sim := {
  reg_now : Z;
  reg_agents : list AgentInfo;
  reg_requestEvents : Result (list (option RequestEventArgs));
  reg_responseEvents : Result (list (option ResponseEventArgs));
  (* (client, server) pairs with an accepted feedback authorization *)
  reg_auths : list (Z * Z);
  reg_accepting : bool
}.

Definition simWrite (c : Sim) : Sim * Result unit :=
  if reg_accepting c then (c, Ok tt)
  else (c, Throw (ServiceError "reverted")).

(** The payload is its own JSON text, and stands for its hash. *)
#[export] Instance simRegistry : RegistryOps Sim string := {|
  clock := reg_now;
  keccakOfJson := fun payload => payload;
  validationRequest := fun c _ _ _ => simWrite c;
  validationResponse := fun c _ _ => simWrite c;
  isValidationPending := fun _ _ => Ok (false, false);
  getValidationResponse := fun _ _ => Ok (false, 0);
  getAgent := fun c a =>
    match List.find (fun i => ai_agentId i =? a) (reg_agents c) with
    | Some i => Ok i
    | None => Throw (ServiceError "unknown agent")
    end;
  getAgentCount := fun c => Ok (Z.of_nat (length (reg_agents c)));
  queryValidationRequestEvents := fun c _ => reg_requestEvents c;
  queryValidationResponseEvents := fun c _ => reg_responseEvents c;
  reputationIsFeedbackAuthorized := fun c client server =>
    Ok (existsb (fun p => (fst p =? client) && (snd p =? server))
                (reg_auths c), "0xauth")
|}.

Definition sampleAgents : list AgentInfo :=
  [ {| ai_agentId := 1; ai_domain := "conservative.liqu";
       ai_address := "0x5b6A404F8958E7e10028301549e61435925725Bf" |};
    {| ai_agentId := 2; ai_domain := "balanced.liqu";
       ai_address := "0x6c52aAD1Cbb66C0f666b62b36261d2f2205A8607" |};
    {| ai_agentId := 3; ai_domain := "degen.liqu";
       ai_address := "0x5B20B5a4Bba73bC6363fBE90E6b2Ab4fFF5C820e" |} ].

(** Three agents, no events on chain, no authorizations. *)
Definition quietChain : Sim :=
  {| reg_now := 1700000000000; reg_agents := sampleAgents;
     reg_requestEvents := Ok []; reg_responseEvents := Ok [];
     reg_auths := []; reg_accepting := true |}.

(** Agent 2 has one request answered on chain with 90 and one
    authorization, from agent 1. *)
Definition busyChain : Sim :=
  {| reg_now := 1700000000000; reg_agents := sampleAgents;
     reg_requestEvents :=
       Ok [Some {| req_agentValidatorId := 2; req_agentServerId := 2;
                   req_dataHash := "0xaa" |}; None];
     reg_responseEvents :=
       Ok [Some {| res_agentValidatorId := 2; res_agentServerId := 2;
                   res_dataHash := "0xaa"; res_response := 90 |}];
     reg_auths := [(1, 2)]; reg_accepting := true |}.

(** The request for "0xaa" was sent twice and its event is twice in
    the log; the responses are 90 for "0xaa" and 40 for "0xbb". *)
Definition repeatingChain : Sim :=
  {| reg_now := 1700000000000; reg_agents := sampleAgents;
     reg_requestEvents :=
       Ok [Some {| req_agentValidatorId := 1; req_agentServerId := 2;
                   req_dataHash := "0xaa" |};
           Some {| req_agentValidatorId := 1; req_agentServerId := 2;
                   req_dataHash := "0xaa" |};
           Some {| req_agentValidatorId := 3; req_agentServerId := 2;
                   req_dataHash := "0xbb" |}];
     reg_responseEvents :=
       Ok [Some {| res_agentValidatorId := 1; res_agentServerId := 2;
                   res_dataHash := "0xaa"; res_response := 90 |};
           Some {| res_agentValidatorId := 3; res_agentServerId := 2;
                   res_dataHash := "0xbb"; res_response := 40 |}];
     reg_auths := []; reg_accepting := true |}.

(** The store after a request for payload "p1" answered with 80. *)
Definition afterResponse : State Sim :=
  snd (submitValidationResponse "p1" 80
         (snd (requestValidation 2 2 "p1" (initialState quietChain)))).

(** The store after two requests for payload "p1" and the answer 80. *)
Definition afterRepeatedRequest : State Sim :=
  snd (submitValidationResponse "p1" 80
         (snd (requestValidation 2 2 "p1"
                 (snd (requestValidation 2 2 "p1"
                         (initialState quietChain)))))).

(** The agent's records in a store. *)
Definition recordsOf (a : Z) (s : State Sim) : list ValidationRecord :=
  filter (fun r => agentId r = a) (validationStore s).

Definition scoreOf (r : Result AgentReputation) : option float :=
  match r with
  | Ok rep => Some (reputationScore rep)
  | Throw _ => None
  end.

End SimRegistry.

Module SimListener.
Import Effects EventListener.

Record Sim := {
  head : Result Z;
  depositLogs : Result (list (option DepositCreatedArgs));
  assignLogs : Result (list (option AgentAssignedArgs));
  wallet : string;
  processFails : bool;
  time : Z
}.

#[export] Instance simListener : ListenerOps Sim := {|
  getBlockNumber := head;
  dateNow := time;
  queryDepositCreated := fun w _ _ => depositLogs w;
  queryAgentAssigned := fun w _ _ => assignLogs w;
  agentWalletAddress := wallet;
  processDeposit := fun w _ =>
    if processFails w then (w, Throw (ServiceError "processing failed"))
    else (w, Ok tt)
|}.

Definition ourWallet : string :=
  "0x6c52aAD1Cbb66C0f666b62b36261d2f2205A8607".

Definition assignedToUs : list (option AgentAssignedArgs) :=
  [Some {| aa_depositId := 5;
           aa_agent := "0x6C52AAD1CBB66C0F666B62B36261D2F2205A8607" |}].

(** Head at block 300; the deposit query is unavailable. *)
Definition queryDown : Sim :=
  {| head := Ok 300;
     depositLogs := Throw (ServiceError "query unavailable");
     assignLogs := Ok assignedToUs;
     wallet := ourWallet; processFails := false; time := 1700000000000 |}.

(** Head at block 300; both queries answer, the immediate processing of
    deposit 5 fails. *)
Definition processingDown : Sim :=
  {| head := Ok 300;
     depositLogs := Ok [];
     assignLogs := Ok assignedToUs;
     wallet := ourWallet; processFails := true; time := 1700000000000 |}.

Definition stateAt {World} (w : World) (watermark : Z) : State World :=
  {| world := w; lastBlock := watermark; recentDeposits := [];
     queries := []; processed := []; errors := [] |}.

End SimListener.

Module SimAgent.
Import Effects Types Agent.

Record Sim := {
  ag_wallet : string;
  ag_now : Z;
  ag_deposit : Result DepositInfo;
  ag_pool : Result PoolState;
  ag_backend : Result PositionDecision
}.

#[export] Instance simAgent : AgentOps Sim := {|
  agentWalletAddress := ag_wallet;
  dateNow := ag_now;
  readDeposit := fun w _ => ag_deposit w;
  readPosition := fun _ tokenId =>
    Ok {| pi_tokenId := tokenId; pi_liquidity := 0; pi_tickLower := 0;
          pi_tickUpper := 0; pi_currentTick := 0; pi_sqrtPriceX96 := 0 |};
  readPoolState := ag_pool;
  getCachedPositionTicks := fun _ _ => None;
  tickToPrice := fun _ => 0%float;
  llmAnalyze := fun w _ _ _ => (w, ag_backend w);
  requestValidation := fun w _ _ _ => (w, Ok "0xhash");
  executeDecision := fun w _ decision =>
    (w, Ok {| er_action := "MINT"; er_txHashes := ["0xmint"];
              er_newTokenId := Some 100;
              er_tickLower := tickLower decision;
              er_tickUpper := tickUpper decision |});
  submitValidationResponse := fun w _ _ => (w, Ok tt)
|}.

(** A backend answer that is neither a parse failure nor confident. *)
Definition hesitantMint : PositionDecision :=
  {| action := MINT;
     tickLower := Some (-202200)%float;
     tickUpper := Some (-201000)%float;
     reason := "Range looks acceptable but volatility is high";
     confidence := 30 |}.

Definition hesitantWorld : Sim :=
  {| ag_wallet := "0x6c52aAD1Cbb66C0f666b62b36261d2f2205A8607";
     ag_now := 1700000000000;
     ag_deposit := Ok (SimLedger.sampleDeposit 1000000 500000000000000 []);
     ag_pool := Ok SimLedger.samplePool;
     ag_backend := Ok hesitantMint |}.

Definition ready (w : Sim) : State Sim :=
  {| world := w;
     agentInfo := Some {| Erc8004.ai_agentId := 2;
                          Erc8004.ai_domain := "balanced.liqu";
                          Erc8004.ai_address :=
                            "0x6c52aAD1Cbb66C0f666b62b36261d2f2205A8607" |};
     calls := [] |}.

End SimAgent.

(* ===================================================================== *)
(** * gemini-analyzer.ts, kimi-analyzer.ts: what is done with the reply *)
(* ===================================================================== *)

Module GeminiAnalyzer.
Import Effects JsNumber Types.

(** [alignTick(tick, spacing = 60)] *)
Definition alignTick (tick spacing : float) : float :=
  (Math_floor (tick / spacing) * spacing)%float.

(** [decision] with its two tick fields assigned. *)
Definition withTicks (decision : PositionDecision)
    (lo hi : option float) : PositionDecision :=
  {| action := action decision;
     tickLower := lo;
     tickUpper := hi;
     reason := reason decision;
     confidence := confidence decision |}.

(** Align ticks to multiples of 60: each tick that is not [null] is
    replaced by [alignTick] of it, with the default spacing. *)
Definition alignTicks (decision : PositionDecision) : PositionDecision :=
  withTicks decision
    (option_map (fun t => alignTick t 60) (tickLower decision))
    (option_map (fun t => alignTick t 60) (tickUpper decision)).

(** Validate tick ordering: with both ticks present and
    [tickLower >= tickUpper] the two are exchanged. *)
Definition orderTicks (decision : PositionDecision) : PositionDecision :=
  match tickLower decision, tickUpper decision with
  | Some lo, Some hi =>
      if (hi <=? lo)%float then withTicks decision (Some hi) (Some lo)
      else decision
  | _, _ => decision
  end.

(** What the [catch] returns. *)
Definition parseFailure : PositionDecision :=
  {| action := HOLD;
     tickLower := None;
     tickUpper := None;
     reason := "Failed to parse LLM response";
     confidence := 0 |}.

(** [analyzePoolWithGemini], by the outcome [reply] of the [try] up to
    and including [JSON.parse]: the request to the model, the reading of
    its text and the parse either give a decision object or throw. *)
Definition analyzePoolWithGemini (reply : Result PositionDecision)
    : PositionDecision :=
  match reply with
  | Ok decision => orderTicks (alignTicks decision)
  | Throw _ => parseFailure
  end.

(** [analyzePoolWithKimi] treats its reply in the same way. *)
Definition analyzePoolWithKimi (reply : Result PositionDecision)
    : PositionDecision :=
  match reply with
  | Ok decision => orderTicks (alignTicks decision)
  | Throw _ => parseFailure
  end.

End GeminiAnalyzer.

(* ===================================================================== *)
(** * tx-executor.ts: executeDecision *)
(* ===================================================================== *)

Module TxDecision.
Import Effects Types TxExecutor.

(** The [PositionDecision] handed to the executor.  Its ticks are the
    int24 arguments of the ledger calls: integers, as in
    [executeMintPosition]; [null] and [undefined] are [None]. *)
Record Decision := {
  d_action : Action;
  d_tickLower : option Z;
  d_tickUpper : option Z;
  d_reason : string;
  d_confidence : float
}.

Definition actionName (a : Action) : string :=
  match a with
  | MINT => "MINT"
  | CLOSE => "CLOSE"
  | HOLD => "HOLD"
  | REBALANCE => "REBALANCE"
  end.

Record ExecutionResult := {
  x_action : string;
  x_txHashes : list string;
  x_newTokenId : option Z;
  x_tickLower : option Z;
  x_tickUpper : option Z
}.

Section Decide.
Context {World : Type} `{WorldOps World}.

(** The loop of the CLOSE branch, pushing each close's hash. *)
Fixpoint closeEachHash (depositId : Z) (tokenIds : list Z)
    (txHashes : list string) : M (State World) (list string) :=
  match tokenIds with
  | [] => ret txHashes
  | tokenId :: rest =>
      let* closeResult := executeClosePosition depositId tokenId in
      closeEachHash depositId rest (txHashes ++ [cr_txHash closeResult])
  end.

Definition executeDecision (depositId : Z) (decision : Decision)
    : M (State World) ExecutionResult :=
  let* deposit := getDepositInfo depositId in
  match d_action decision, d_tickLower decision, d_tickUpper decision with
  | MINT, Some tickLower, Some tickUpper =>
      let amount0Max := amount0Remaining deposit in
      let amount1Max := amount1Remaining deposit in
      if (amount0Max =? 0) && (amount1Max =? 0) then
        ret {| x_action := "SKIP"; x_txHashes := [];
               x_newTokenId := None;
               x_tickLower := Some tickLower;
               x_tickUpper := Some tickUpper |}
      else
        let* mintResult := executeMintPosition depositId tickLower tickUpper
                             amount0Max amount1Max in
        match mintResult with
        | Some m =>
            ret {| x_action := "MINT"; x_txHashes := [mr_txHash m];
                   x_newTokenId := mr_tokenId m;
                   x_tickLower := Some tickLower;
                   x_tickUpper := Some tickUpper |}
        | None =>
            ret {| x_action := "SKIP"; x_txHashes := [];
                   x_newTokenId := None;
                   x_tickLower := Some tickLower;
                   x_tickUpper := Some tickUpper |}
        end
  | CLOSE, _, _ =>
      let* txHashes := closeEachHash depositId (positionTokenIds deposit) [] in
      ret {| x_action := "CLOSE"; x_txHashes := txHashes;
             x_newTokenId := None; x_tickLower := None;
             x_tickUpper := None |}
  | REBALANCE, Some tickLower, Some tickUpper =>
      let* rebalanceResult := executeRebalance depositId tickLower tickUpper in
      (* Collect all tx hashes from close operations *)
      let txHashes := map cr_txHash (closeTxHashes rebalanceResult) in
      (* Add mint tx hash if present *)
      let txHashes := match mintResult rebalanceResult with
                      | Some m => txHashes ++ [mr_txHash m]
                      | None => txHashes
                      end in
      ret {| x_action := "REBALANCE"; x_txHashes := txHashes;
             x_newTokenId := newTokenId rebalanceResult;
             x_tickLower := Some tickLower;
             x_tickUpper := Some tickUpper |}
  | HOLD, _, _ =>
      ret {| x_action := "HOLD"; x_txHashes := [];
             x_newTokenId := None; x_tickLower := None;
             x_tickUpper := None |}
  | a, _, _ =>
      ret {| x_action := actionName a; x_txHashes := [];
             x_newTokenId := None; x_tickLower := None;
             x_tickUpper := None |}
  end.

(** ** Notions used in the statements *)

(** The positions of [ids] are gone from the cache of [after]; the other
    entries are those of [before]. *)
Definition uncached (ids : list Z) (before after : State World) : Prop :=
  forall tokenId,
    getCachedPositionTicks tokenId after
    = if decide (tokenId ∈ ids) then None
      else getCachedPositionTicks tokenId before.

End Decide.

End TxDecision.

(* ===================================================================== *)
(** * pool-reader.ts: the scan for the deposits of an agent *)
(* ===================================================================== *)

Module PoolReader.
Import Effects Types JsString.

(** The test of the loop body: assigned to [agentAddress], letter case
    aside, and of status 0. *)
Definition isActiveFor (agentAddress : string) (dep : DepositInfo) : bool :=
  String.eqb (toLowerCase (assignedAgent dep)) (toLowerCase agentAddress)
  && (status dep =? 0).

(** The loop [for (let i = 1; i < nextId; i++)] over the ids still to
    visit; a deposit that fails to load is skipped. *)
Fixpoint scanDeposits (getDeposit : Z -> Result DepositInfo)
    (agentAddress : string) (ids : list Z) (myDeposits : list Z) : list Z :=
  match ids with
  | [] => myDeposits
  | i :: rest =>
      match getDeposit i with
      | Ok dep =>
          if isActiveFor agentAddress dep
          then scanDeposits getDeposit agentAddress rest (myDeposits ++ [i])
          else scanDeposits getDeposit agentAddress rest myDeposits
      | Throw _ => scanDeposits getDeposit agentAddress rest myDeposits
      end
  end.

(** The test the scan applies to deposit [i]. *)
Definition selected (getDeposit : Z -> Result DepositInfo)
    (agentAddress : string) (i : Z) : bool :=
  match getDeposit i with
  | Ok dep => isActiveFor agentAddress dep
  | Throw _ => false
  end.

(** [getMyAssignedDeposits], over the two views of the agent contract it
    reads: [nextDepositId()] and [getDeposit(i)]. *)
Definition getMyAssignedDeposits (nextDepositId : Result Z)
    (getDeposit : Z -> Result DepositInfo) (agentAddress : string)
    : Result (list Z) :=
  match nextDepositId with
  | Throw e => Throw e
  | Ok nextId =>
      Ok (scanDeposits getDeposit agentAddress (seqZ 1 (nextId - 1)) [])
  end.

End PoolReader.

(* ===================================================================== *)
(** * agent.ts: notions for the statements about processDeposit *)
(* ===================================================================== *)

Module AgentProtocol.
Import Effects JsNumber JsString Types Agent.

Definition isSubmitResponse (c : Call) : bool :=
  match c with
  | CallSubmitValidationResponse _ _ => true
  | _ => false
  end.

(** The calls of one [processDeposit], in order: nothing; or the
    analysis alone; or the analysis, then a validation request exactly
    when the decision is not HOLD, then the execution of the decision,
    then at most one validation response, which needs a request, carries
    a hash that is not empty and scores the decision by
    [Math.min(confidence, 100)]. *)
Definition wellFormedRun (depositId : Z) (new : list Call) : Prop :=
  new = [] \/ new = [CallAnalyze]
  \/ exists decision pre post,
       new = CallAnalyze :: pre
               ++ [CallExecuteDecision depositId decision] ++ post
       /\ (if actionIsHold (action decision) then pre = []
           else exists t,
                  pre = [CallRequestValidation
                           {| vp_depositId := depositId;
                              vp_decision := decision;
                              vp_timestamp := t |}])
       /\ (post = []
           \/ (pre <> []
               /\ exists h,
                    h <> ""
                    /\ post = [CallSubmitValidationResponse h
                                 (Math_min (confidence decision) 100)])).

Section Positions.
Context {World : Type} `{AgentOps World}.

(** The entry [processDeposit] builds for position [tokenId]: the cached
    ticks when there are, the router's otherwise. *)
Definition positionEntry (w : World) (tokenId : Z) (pos : PositionInfo)
    : ExistingPosition :=
  let cached := getCachedPositionTicks w tokenId in
  {| pos_tickLower := of_Z match cached with
                           | Some c => fst c
                           | None => pi_tickLower pos
                           end;
     pos_tickUpper := of_Z match cached with
                           | Some c => snd c
                           | None => pi_tickUpper pos
                           end;
     pos_liquidity := pretty (pi_liquidity pos) |}.

(** The router reports [tokenId] with liquidity and with ticks (0, 0),
    and the cache has no entry for it. *)
Definition unknownRange (w : World) (tokenId : Z) : Prop :=
  exists pos,
    readPosition w tokenId = Ok pos
    /\ getCachedPositionTicks w tokenId = None
    /\ pi_tickLower pos = 0 /\ pi_tickUpper pos = 0
    /\ pi_liquidity pos <> 0.

(** The deposit is assigned to the wallet, letter case aside, and is
    active. *)
Definition eligible (w : World) (deposit : DepositInfo) : Prop :=
  toLowerCase (assignedAgent deposit) = toLowerCase (agentWalletAddress w)
  /\ status deposit = 0.

End Positions.

End AgentProtocol.

(* ===================================================================== *)
(** * agent.ts: initialization and the runs over the assigned deposits *)
(* ===================================================================== *)

Module AgentRunner.
Import Effects JsNumber JsString Types Agent.

(** [initAgent]: the identity is resolved once, by [getMyAgentInfo] of
    [erc8004-service.ts] (the registry's [resolveByAddress] at the
    wallet's address), and kept in [agentInfo]. *)
Definition initAgent {World : Type}
    (getMyAgentInfo : World -> Result Erc8004.AgentInfo)
    : M (State World) Erc8004.AgentInfo :=
  let* current := (fun s => (Ok (agentInfo s), s)) in
  match current with
  | Some info => ret info
  | None =>
      let* info := (fun s => (getMyAgentInfo (world s), s)) in
      let* _ := (fun s => (Ok tt, {| world := world s;
                                     agentInfo := Some info;
                                     calls := calls s |})) in
      ret info
  end.

(** What the runs read besides [AgentOps]: the agent contract's
    [nextDepositId], the identity registry, and the text of an error
    ([error.message], or [String(error)]). *)
Class RunnerOps (World : Type) := {
  nextDepositId : World -> Result Z;
  getMyAgentInfo : World -> Result Erc8004.AgentInfo;
  errorText : Exn -> string
}.

(** [myDeposits.includes(depositId)] *)
Definition includesId (myDeposits : list Z) (depositId : Z) : bool :=
  existsb (fun i => i =? depositId) myDeposits.

Record PoolSummary := {
  ps_tick : Z;
  ps_price : float;
  ps_liquidity : string
}.

Record SingleDepositRunResult := {
  sr_agentId : Z;
  sr_agentDomain : string;
  sr_agentAddress : string;
  sr_depositId : Z;
  sr_pool : PoolSummary;
  sr_status : string;
  sr_action : option string;
  sr_tickLower : option float;
  sr_tickUpper : option float;
  sr_newTokenId : option Z;
  sr_reason : option string;
  sr_confidence : option float;
  sr_txHashes : option (list string);
  sr_validationHash : option string;
  sr_message : string;
  sr_timestamp : Z
}.

Record DepositRunResult := {
  dr_depositId : Z;
  dr_status : string;
  dr_message : string
}.

Record AgentRunResult := {
  ar_agentId : Z;
  ar_agentDomain : string;
  ar_agentAddress : string;
  ar_pool : PoolSummary;
  ar_depositsProcessed : nat;
  ar_depositResults : list DepositRunResult;
  ar_timestamp : Z
}.

Section Runner.
Context {World : Type} `{AgentOps World} `{RunnerOps World}.

(** [getMyAssignedDeposits] of [pool-reader.ts], on the ledger of the
    current state. *)
Definition getMyAssignedDeposits (agentAddress : string)
    : M (State World) (list Z) :=
  fun s =>
    (PoolReader.getMyAssignedDeposits (nextDepositId (world s))
       (readDeposit (world s)) agentAddress, s).

(** The loop of [runAgentOnce] over [myDeposits]; [process] is the
    file's [processDeposit]. *)
Fixpoint processEach {A} (process : Z -> M (State World) A)
    (myDeposits : list Z) (depositResults : list DepositRunResult)
    : M (State World) (list DepositRunResult) :=
  match myDeposits with
  | [] => ret depositResults
  | depositId :: rest =>
      let* depositResults :=
        tryCatch
          (let* _ := process depositId in
           ret (depositResults ++
                  [{| dr_depositId := depositId;
                      dr_status := "processed";
                      dr_message := "Deposit #" ++ pretty depositId
                                      ++ " processed successfully" |}]))
          (fun error =>
             ret (depositResults ++
                    [{| dr_depositId := depositId;
                        dr_status := "error";
                        dr_message := errorText error |}])) in
      processEach process rest depositResults
  end.

Definition runAgentOnceWith {A} (process : Z -> M (State World) A)
    : M (State World) AgentRunResult :=
  (* 1. Verify our identity on-chain *)
  let* info := initAgent getMyAgentInfo in
  tryCatch
    ((* 2. Read pool state *)
     let* poolState := readWorld readPoolState in
     let currentPrice := tickToPrice (tick poolState) in
     (* 3. Find deposits assigned to us *)
     let* wallet := readWorld (fun w => Ok (agentWalletAddress w)) in
     let* myDeposits := getMyAssignedDeposits wallet in
     let* depositResults := processEach process myDeposits [] in
     let* t := readWorld (fun w => Ok (dateNow w)) in
     ret {| ar_agentId := Erc8004.ai_agentId info;
            ar_agentDomain := Erc8004.ai_domain info;
            ar_agentAddress := Erc8004.ai_address info;
            ar_pool := {| ps_tick := tick poolState;
                          ps_price := currentPrice;
                          ps_liquidity := pretty (liquidity poolState) |};
            ar_depositsProcessed := length myDeposits;
            ar_depositResults := depositResults;
            ar_timestamp := t |})
    (fun error => lift (Throw error)).

(** [runAgentOnce] of the later [agent.ts], on the [processDeposit]
    built on [analyzePool]. *)
Definition runAgentOnce : M (State World) AgentRunResult :=
  runAgentOnceWith AgentWithFallback.processDeposit.

(** [runAgentOnce] of the [agent.ts] with the confidence gate. *)
Definition runAgentOnceGated : M (State World) AgentRunResult :=
  runAgentOnceWith Agent.processDeposit.

(** The object [runAgentForDeposit] returns when it has no processing
    result to report, at the clock of the return. *)
Definition bare (info : Erc8004.AgentInfo) (depositId : Z)
    (poolState : PoolState) (status message : string)
    : M (State World) SingleDepositRunResult :=
  fun s =>
    (Ok {| sr_agentId := Erc8004.ai_agentId info;
           sr_agentDomain := Erc8004.ai_domain info;
           sr_agentAddress := Erc8004.ai_address info;
           sr_depositId := depositId;
           sr_pool := {| ps_tick := tick poolState;
                         ps_price := tickToPrice (tick poolState);
                         ps_liquidity := pretty (liquidity poolState) |};
           sr_status := status;
           sr_action := None; sr_tickLower := None; sr_tickUpper := None;
           sr_newTokenId := None; sr_reason := None;
           sr_confidence := None; sr_txHashes := None;
           sr_validationHash := None;
           sr_message := message;
           sr_timestamp := dateNow (world s) |}, s).

Definition runAgentForDeposit (depositId : Z)
    : M (State World) SingleDepositRunResult :=
  (* 1. Verify our identity on-chain *)
  let* info := initAgent getMyAgentInfo in
  tryCatch
    ((* 2. Read pool state *)
     let* poolState := readWorld readPoolState in
     (* 3. Verify deposit is assigned to us *)
     let* wallet := readWorld (fun w => Ok (agentWalletAddress w)) in
     let* myDeposits := getMyAssignedDeposits wallet in
     if negb (includesId myDeposits depositId) then
       bare info depositId poolState "error"
         ("Deposit #" ++ pretty depositId
            ++ " is not assigned to this agent")
     else
       (* 4. Process the deposit *)
       tryCatch
         (let* result := AgentWithFallback.processDeposit depositId in
          match result with
          | None =>
              bare info depositId poolState "skipped"
                ("Deposit #" ++ pretty depositId ++ " was skipped")
          | Some r =>
              fun s =>
                (Ok {| sr_agentId := Erc8004.ai_agentId info;
                       sr_agentDomain := Erc8004.ai_domain info;
                       sr_agentAddress := Erc8004.ai_address info;
                       sr_depositId := depositId;
                       sr_pool :=
                         {| ps_tick := tick poolState;
                            ps_price := tickToPrice (tick poolState);
                            ps_liquidity := pretty (liquidity poolState) |};
                       sr_status := "processed";
                       sr_action := Some (AgentWithFallback.pr_action r);
                       sr_tickLower := AgentWithFallback.pr_tickLower r;
                       sr_tickUpper := AgentWithFallback.pr_tickUpper r;
                       sr_newTokenId := AgentWithFallback.pr_newTokenId r;
                       sr_reason := Some (AgentWithFallback.pr_reason r);
                       sr_confidence :=
                         Some (AgentWithFallback.pr_confidence r);
                       sr_txHashes := Some (AgentWithFallback.pr_txHashes r);
                       sr_validationHash :=
                         AgentWithFallback.pr_validationHash r;
                       sr_message := "Deposit #" ++ pretty depositId
                                       ++ " processed successfully";
                       sr_timestamp := dateNow (world s) |}, s)
          end)
         (fun error => bare info depositId poolState "error"
                         (errorText error)))
    (fun error => lift (Throw error)).

(** ** Notions used in the statements *)

(** The state after [process] ran on each deposit in turn, whatever each
    run returned or threw. *)
Definition afterEach {A} (process : Z -> M (State World) A)
    (myDeposits : list Z) (s : State World) : State World :=
  fold_left (fun st depositId => snd (process depositId st)) myDeposits s.

(** The statuses [runAgentOnce] reports for [myDeposits]: "error" for a
    deposit whose processing threw, "processed" for every other one;
    each deposit is processed on the state the previous one left. *)
Fixpoint statuses {A} (process : Z -> M (State World) A)
    (myDeposits : list Z) (s : State World) : list string :=
  match myDeposits with
  | [] => []
  | depositId :: rest =>
      (match fst (process depositId s) with
       | Ok _ => "processed"
       | Throw _ => "error"
       end) :: statuses process rest (snd (process depositId s))
  end.

End Runner.

End AgentRunner.

(* ===================================================================== *)
(** * agent.ts: closePositionsForDeposit *)
(* ===================================================================== *)

Module ClosePositions.
Import Effects JsNumber JsString Types TxExecutor.

(** What [closePositionsForDeposit] reads besides the executor's ledger:
    the wallet, the agent contract's [nextDepositId], the identity
    registry, the display price of a tick and the text of an error. *)
Class CloseOps (World : Type) := {
  agentWalletAddress : World -> string;
  nextDepositId : World -> Result Z;
  getMyAgentInfo : World -> Result Erc8004.AgentInfo;
  tickToPrice : Z -> float;
  errorText : Exn -> string
}.

Record ClosePositionsResult := {
  cp_agentId : Z;
  cp_agentDomain : string;
  cp_agentAddress : string;
  cp_depositId : Z;
  cp_pool : AgentRunner.PoolSummary;
  cp_status : string;
  cp_positionsClosed : nat;
  cp_closedTokenIds : list Z;
  cp_txHashes : list string;
  cp_message : string;
  cp_timestamp : Z
}.

Section Close.
Context {World : Type} `{WorldOps World} `{CloseOps World}.

(** The agent module's state over the executor's: [agentInfo], and the
    executor's ledger, tick cache and submissions as its world. *)
Definition AgentState : Type := Agent.State (State World).


Definition initAgent : M AgentState Erc8004.AgentInfo :=
  AgentRunner.initAgent (fun e => getMyAgentInfo (world e)).

Definition getMyAssignedDeposits (agentAddress : string)
    : M AgentState (list Z) :=
  fun s =>
    let w := world (Agent.world s) in
    (PoolReader.getMyAssignedDeposits (nextDepositId w) (readDeposit w)
       agentAddress, s).

(** The returned object, at the clock of the return. *)
Definition result (info : Erc8004.AgentInfo) (depositId : Z)
    (poolState : PoolState) (status : string) (closedTokenIds : list Z)
    (txHashes : list string) (message : string)
    : M AgentState ClosePositionsResult :=
  fun s =>
    (Ok {| cp_agentId := Erc8004.ai_agentId info;
           cp_agentDomain := Erc8004.ai_domain info;
           cp_agentAddress := Erc8004.ai_address info;
           cp_depositId := depositId;
           cp_pool :=
             {| AgentRunner.ps_tick := tick poolState;
                AgentRunner.ps_price := tickToPrice (tick poolState);
                AgentRunner.ps_liquidity := pretty (liquidity poolState) |};
           cp_status := status;
           cp_positionsClosed := length closedTokenIds;
           cp_closedTokenIds := closedTokenIds;
           cp_txHashes := txHashes;
           cp_message := message;
           cp_timestamp := dateNow (world (Agent.world s)) |}, s).



End Close.

End ClosePositions.

(* ===================================================================== *)
(** * event-listener.ts: runs of the poller *)
(* ===================================================================== *)

Module ListenerRuns.
Import Effects Types JsString EventListener.

Section Runs.
Context {World : Type} `{ListenerOps World}.

Definition withWorld (s : State World) (w : World) : State World :=
  {| world := w; lastBlock := lastBlock s;
     recentDeposits := recentDeposits s;
     queries := queries s; processed := processed s;
     errors := errors s |}.

(** The poller's state changes by a poll; between two polls the chain,
    the clock and whatever else [World] holds move on. *)
Inductive step : State World -> State World -> Prop :=
| step_poll s r s' : poll s = (r, s') -> step s s'
| step_world s w : step s (withWorld s w).

Inductive reachable (s0 : State World) : State World -> Prop :=
| reachable_start : reachable s0 s0
| reachable_step s s' : reachable s0 s -> step s s' -> reachable s0 s'.

(** The [DepositEvent] built from the arguments of a [DepositCreated]
    event, at the clock of [w]. *)
Definition depositEvent (w : World) (args : DepositCreatedArgs)
    : DepositEvent :=
  {| ev_depositId := dc_depositId args;
     ev_user := dc_user args;
     ev_amount0 := dc_amount0 args;
     ev_amount1 := dc_amount1 args;
     ev_strategy := STRATEGY_MAP (dc_strategy args);
     ev_lockUntil := dc_lockUntil args;
     ev_recommendedAgent :=
       option_map AGENT_ADDRESSES (STRATEGY_MAP (dc_strategy args));
     ev_timestamp := dateNow w |}.

(** The assignment is to the wallet [wallet], letter case aside. *)
Definition assignedTo (wallet : string) (args : AgentAssignedArgs) : bool :=
  String.eqb (toLowerCase (aa_agent args)) (toLowerCase wallet).

(** The deposits one poll hands to [processDeposit]: those of the
    assignment events of its window that are assigned to the wallet, in
    event order, when both event queries answer; none otherwise. *)
Definition handedOver (s : State World) : list Z :=
  match getBlockNumber (world s) with
  | Throw _ => []
  | Ok currentBlock =>
      let watermark := watermarkAt s currentBlock in
      if currentBlock <=? watermark then []
      else
        match queryDepositCreated (world s) (watermark + 1) currentBlock,
              queryAgentAssigned (world s) (watermark + 1) currentBlock with
        | Ok _, Ok assignLogs =>
            map aa_depositId
              (List.filter (assignedTo (agentWalletAddress (world s)))
                 (omap id assignLogs))
        | _, _ => []
        end
  end.

End Runs.

End ListenerRuns.

(* ===================================================================== *)
(** * Further reference environments *)
(* ===================================================================== *)

Module SimDecision.
Import Effects Types TxExecutor TxDecision SimLedger.

Definition decide (a : Action) (lo hi : option Z) : Decision :=
  {| d_action := a; d_tickLower := lo; d_tickUpper := hi;
     d_reason := "scripted"; d_confidence := 80 |}.



(** The executor after it minted position 100 for deposit 1. *)
Definition holding : State Sim := afterMint.

End SimDecision.

Module SimReply.
Import Effects Types.

(** A reply whose two ticks fall within one tick spacing. *)
Definition narrowReply : PositionDecision :=
  {| action := MINT;
     tickLower := Some 100%float;
     tickUpper := Some 110%float;
     reason := "Tight range around the current price";
     confidence := 90 |}.

(** A reply with its ticks the wrong way round. *)
Definition invertedReply : PositionDecision :=
  {| action := MINT;
     tickLower := Some 630%float;
     tickUpper := Some (-610)%float;
     reason := "Range around the current price";
     confidence := 85 |}.

End SimReply.

Module SimPolls.
Import Effects EventListener SimListener.

Definition newDeposit : DepositCreatedArgs :=
  {| dc_depositId := 5; dc_user := "0xUser"; dc_amount0 := 1000000;
     dc_amount1 := 0; dc_strategy := 1; dc_lockUntil := 0 |}.

(** Head at block 300: one deposit was created, deposit 5 was assigned
    to our wallet and deposit 6 to the conservative agent. *)
Definition busyHead : Sim :=
  {| head := Ok 300;
     depositLogs := Ok [Some newDeposit; None];
     assignLogs :=
       Ok (assignedToUs ++
           [Some {| aa_depositId := 6;
                    aa_agent := "0x5b6A404F8958E7e10028301549e61435925725Bf" |}]);
     wallet := ourWallet; processFails := false; time := 1700000000000 |}.

End SimPolls.
Module SimRunner.
Import Effects Types Agent AgentRunner SimAgent.

Definition errorMessage (error : Exn) : string :=
  match error with
  | RangeError_DivisionByZero => "Division by zero"
  | TypeError => "TypeError"
  | ServiceError msg => msg
  end.

Definition balancedAgent : Erc8004.AgentInfo :=
  {| Erc8004.ai_agentId := 2;
     Erc8004.ai_domain := "balanced.liqu";
     Erc8004.ai_address := "0x6c52aAD1Cbb66C0f666b62b36261d2f2205A8607" |}.

(** The agent contract has issued deposits 1 and 2. *)
#[export] Instance simRunner : RunnerOps Sim := {|
  nextDepositId := fun _ => Ok 3;
  getMyAgentInfo := fun _ => Ok balancedAgent;
  errorText := errorMessage
|}.

(** The analysis backend is down. *)
Definition backendDown : Sim :=
  {| ag_wallet := ag_wallet hesitantWorld;
     ag_now := ag_now hesitantWorld;
     ag_deposit := ag_deposit hesitantWorld;
     ag_pool := ag_pool hesitantWorld;
     ag_backend := Throw (ServiceError "fetch failed") |}.

Definition fresh (w : Sim) : State Sim :=
  {| world := w; agentInfo := None; calls := [] |}.

(** The deposit is assigned to the conservative agent. *)
Definition foreignWorld : Sim :=
  {| ag_wallet := ag_wallet hesitantWorld;
     ag_now := ag_now hesitantWorld;
     ag_deposit :=
       Ok {| user := "0xUser"; amount0Remaining := 1000000;
             amount1Remaining := 500000000000000;
             lockUntil := 0; strategy := 0;
             assignedAgent := "0x5b6A404F8958E7e10028301549e61435925725Bf";
             status := 0; positionTokenIds := [] |};
     ag_pool := ag_pool hesitantWorld;
     ag_backend := ag_backend hesitantWorld |}.

End SimRunner.

Module SimRestart.
Import Effects Types Agent.

(** The ledger as the agent finds it after a restart: the router
    reports every position with liquidity [rs_liquidity] and ticks
    (0, 0), and the tick cache is empty. *)
Record Sim := {
  rs_deposit : DepositInfo;
  rs_liquidity : Z
}.

#[export] Instance simRestart : AgentOps Sim := {|
  agentWalletAddress := fun _ => "0x6c52aAD1Cbb66C0f666b62b36261d2f2205A8607";
  dateNow := fun _ => 1700000000000;
  readDeposit := fun w _ => Ok (rs_deposit w);
  readPosition := fun w tokenId =>
    Ok {| pi_tokenId := tokenId; pi_liquidity := rs_liquidity w;
          pi_tickLower := 0; pi_tickUpper := 0; pi_currentTick := -201600;
          pi_sqrtPriceX96 := sqrtPriceX96 SimLedger.samplePool |};
  readPoolState := fun _ => Ok SimLedger.samplePool;
  getCachedPositionTicks := fun _ _ => None;
  tickToPrice := fun _ => 0%float;
  llmAnalyze := fun w _ _ _ => (w, Ok SimAgent.hesitantMint);
  requestValidation := fun w _ _ _ => (w, Ok "0xhash");
  executeDecision := fun w _ decision =>
    (w, Ok {| er_action := "MINT"; er_txHashes := ["0xmint"];
              er_newTokenId := Some 100;
              er_tickLower := tickLower decision;
              er_tickUpper := tickUpper decision |});
  submitValidationResponse := fun w _ _ => (w, Ok tt)
|}.

(** Deposit 1 holds position 7, opened before the restart. *)
Definition restarted : State Sim :=
  {| world := {| rs_deposit := SimLedger.sampleDeposit 0 0 [7];
                 rs_liquidity := 5000 |};
     agentInfo := Some SimRunner.balancedAgent;
     calls := [] |}.

End SimRestart.

Module SimClose.
Import Effects Types TxExecutor ClosePositions SimLedger.

#[export] Instance simClose : CloseOps Sim := {|
  agentWalletAddress := fun _ => "0x6c52aAD1Cbb66C0f666b62b36261d2f2205A8607";
  nextDepositId := fun w => Ok (Z.of_nat (length (sim_deposits w)) + 1);
  getMyAgentInfo := fun _ => Ok SimRunner.balancedAgent;
  tickToPrice := fun _ => 0%float;
  errorText := SimRunner.errorMessage
|}.

Definition fresh (w : Sim) : AgentState :=
  {| Agent.world := initialState w; Agent.agentInfo := None;
     Agent.calls := [] |}.


End SimClose.

(* ===================================================================== *)
(** * Properties *)
(* ===================================================================== *)

(** ** Binary64 arithmetic on integers *)

Section Binary64.
Import JsNumber.

Lemma digits2_pos_bounds p :
  2 ^ (Zpos (digits2_pos p) - 1) <= Zpos p < 2 ^ Zpos (digits2_pos p).
Proof.
  induction p as [p IH | p IH |]; cbn [digits2_pos].
  - rewrite Pos2Z.inj_succ, (Pos2Z.inj_xI p).
    replace (Z.succ (Zpos (digits2_pos p)) - 1)
      with (Z.succ (Zpos (digits2_pos p) - 1)) by lia.
    rewrite !Z.pow_succ_r by lia.
    destruct IH as [IHlo IHhi]. revert IHlo IHhi.
    generalize (2 ^ (Zpos (digits2_pos p) - 1)) (2 ^ Zpos (digits2_pos p)).
    lia.
  - rewrite Pos2Z.inj_succ, (Pos2Z.inj_xO p).
    replace (Z.succ (Zpos (digits2_pos p)) - 1)
      with (Z.succ (Zpos (digits2_pos p) - 1)) by lia.
    rewrite !Z.pow_succ_r by lia.
    destruct IH as [IHlo IHhi]. revert IHlo IHhi.
    generalize (2 ^ (Zpos (digits2_pos p) - 1)) (2 ^ Zpos (digits2_pos p)).
    lia.
  - cbn. lia.
Qed.

Lemma digits2_pos_unique p n :
  2 ^ (n - 1) <= Zpos p < 2 ^ n -> Zpos (digits2_pos p) = n.
Proof.
  intros [Hlo Hhi]. pose proof (digits2_pos_bounds p) as [Dlo Dhi].
  assert (Hn : 0 < n).
  { destruct (Z.ltb_spec 0 n) as [| Hle]; [assumption |].
    destruct (Z.eq_dec n 0) as [-> | Hne]; [cbn in Hhi; lia |].
    rewrite Z.pow_neg_r in Hhi by lia. lia. }
  destruct (Z.lt_trichotomy (Zpos (digits2_pos p)) n) as [Hlt | [Heq | Hgt]];
    [| exact Heq |].
  - assert (2 ^ Zpos (digits2_pos p) <= 2 ^ (n - 1))
      by (apply Z.pow_le_mono_r; lia). lia.
  - assert (2 ^ n <= 2 ^ (Zpos (digits2_pos p) - 1))
      by (apply Z.pow_le_mono_r; lia). lia.
Qed.

Lemma iter_xO_pow mx d : Zpos (Pos.iter xO mx d) = Zpos mx * 2 ^ Zpos d.
Proof.
  induction d as [| d IH] using Pos.peano_ind.
  - cbn. lia.
  - rewrite Pos.iter_succ, Pos2Z.inj_xO, IH, Pos2Z.inj_succ,
      Z.pow_succ_r by lia. lia.
Qed.

Lemma iter_pos_iter {A} (f : A -> A) p : forall x,
  SpecFloat.iter_pos f p x = Pos.iter f x p.
Proof.
  induction p as [p IH | p IH |]; intros x; cbn [SpecFloat.iter_pos Pos.iter].
  - rewrite !IH, !Pos.iter_swap. reflexivity.
  - rewrite !IH. reflexivity.
  - reflexivity.
Qed.

Lemma shr_1_spec m r s :
  0 <= m ->
  shr_1 {| shr_m := m; shr_r := r; shr_s := s |}
  = {| shr_m := Z.div2 m; shr_r := Z.odd m; shr_s := r || s |}.
Proof.
  intros Hm. destruct m as [| [p | p |] | p]; try reflexivity. lia.
Qed.

(** [p] right shifts of a mantissa: the quotient by [2^p], with no
    round or sticky bit when nothing is shifted out. *)
Lemma shr_iter m r s p :
  0 <= m ->
  let x := SpecFloat.iter_pos shr_1 p {| shr_m := m; shr_r := r; shr_s := s |} in
  shr_m x = m / 2 ^ Zpos p
  /\ (r = false -> s = false -> m mod 2 ^ Zpos p = 0 ->
      shr_r x = false /\ shr_s x = false).
Proof.
  intros Hm. cbv zeta. rewrite iter_pos_iter.
  induction p as [| p IH] using Pos.peano_ind.
  - cbn [Pos.iter]. rewrite shr_1_spec by exact Hm. cbn [shr_m shr_r shr_s].
    change (2 ^ 1) with 2. split; [apply Z.div2_div |].
    intros -> -> Hmod. split; [| reflexivity].
    rewrite <- Z.negb_even. apply negb_false_iff.
    apply Zeven_bool_iff, Zeven_ex_iff. exists (m / 2).
    pose proof (Z.div_mod m 2). lia.
  - rewrite Pos.iter_succ. destruct IH as [IHm IHe].
    destruct (Pos.iter shr_1 _ p) as [m' r' s'] eqn:Hx.
    cbn [shr_m shr_r shr_s] in IHm, IHe.
    assert (Hm' : 0 <= m') by (rewrite IHm; apply Z.div_pos; lia).
    rewrite shr_1_spec by exact Hm'. cbn [shr_m shr_r shr_s].
    rewrite Pos2Z.inj_succ, Z.pow_succ_r by lia.
    split.
    + rewrite Z.div2_div, IHm, Z.div_div by lia. f_equal. lia.
    + intros Hr Hs Hmod.
      assert (Hdvd : m = 2 ^ Zpos p * (2 * (m / (2 * 2 ^ Zpos p)))).
      { pose proof (Z.div_mod m (2 * 2 ^ Zpos p)). lia. }
      assert (Hmodp : m mod 2 ^ Zpos p = 0).
      { rewrite Hdvd, Z.mul_comm. apply Z.mod_mul. lia. }
      destruct (IHe Hr Hs Hmodp) as [-> ->]. split; [| reflexivity].
      rewrite IHm, <- Z.negb_even. apply negb_false_iff.
      rewrite Hdvd, Z.mul_comm, Z.div_mul by lia.
      rewrite Z.even_mul. reflexivity.
Qed.

Lemma fexp_normal n : -1074 <= n - 53 -> fexp prec emax n = n - 53.
Proof. unfold fexp, SpecFloat.emin, prec, emax. lia. Qed.

Lemma round_nearest_even_bounds q l :
  q <= round_nearest_even q l <= q + 1.
Proof.
  destruct l as [| [| |]]; cbn [round_nearest_even]; try lia.
  destruct (Z.even q); lia.
Qed.

(** The first stage of [binary_round_aux]: a mantissa of [53 + s] digits
    is shifted right by [s]. *)
Lemma shr_fexp_shift m e l s :
  Zpos (digits2_pos m) = 53 + s -> 0 <= s -> -1074 <= e + s ->
  exists mrs,
    shr_fexp prec emax (Zpos m) e l = (mrs, e + s)
    /\ shr_m mrs = Zpos m / 2 ^ s
    /\ (l = loc_Exact -> Zpos m mod 2 ^ s = 0 ->
        loc_of_shr_record mrs = loc_Exact).
Proof.
  intros Hd Hs He. unfold shr_fexp. cbn [Zdigits2]. rewrite Hd.
  rewrite fexp_normal by lia.
  replace (53 + s + e - 53 - e) with s by lia.
  destruct s as [| p | p]; [| | lia].
  - cbn [shr]. eexists. split; [rewrite Z.add_0_r; reflexivity |].
    split.
    + destruct l as [| [| |]]; cbn; rewrite Z.div_1_r; reflexivity.
    + intros -> _. reflexivity.
  - cbn [shr].
    assert (Hrec : exists r0 s0,
               shr_record_of_loc (Zpos m) l
               = {| shr_m := Zpos m; shr_r := r0; shr_s := s0 |}
               /\ (l = loc_Exact -> r0 = false /\ s0 = false)).
    { destruct l as [| [| |]]; cbn; eexists _, _;
        (split; [reflexivity | intros [=]; split; reflexivity])
        || (split; [reflexivity | intros; discriminate]). }
    destruct Hrec as (r0 & s0 & -> & Hex).
    destruct (shr_iter (Zpos m) r0 s0 p) as [Hm Hrs]; [lia |].
    eexists. split; [reflexivity |]. split; [exact Hm |].
    intros Hl Hmod. destruct (Hex Hl) as [-> ->].
    destruct (Hrs eq_refl eq_refl Hmod) as [Hr Hs'].
    destruct (SpecFloat.iter_pos shr_1 p _) as [m'' r'' s'']. cbn in Hr, Hs'.
    subst. reflexivity.
Qed.

(** [binary_round_aux] on a mantissa of at least 53 digits, away from
    the subnormal numbers and from overflow. *)
Lemma binary_round_aux_shift sx m e l s :
  Zpos (digits2_pos m) = 53 + s -> 0 <= s ->
  -1074 <= e + s -> e + s + 1 <= 971 ->
  let q := Zpos m / 2 ^ s in
  exists m' e',
    binary_round_aux prec emax sx (Zpos m) e l = S754_finite sx m' e'
    /\ Zpos (digits2_pos m') = 53 /\ -1074 <= e' <= 971
    /\ ((e' = e + s /\ q <= Zpos m' <= q + 1)
        \/ (e' = e + s + 1 /\ Zpos m' = 2 ^ 52 /\ q + 1 = 2 ^ 53))
    /\ (l = loc_Exact -> Zpos m mod 2 ^ s = 0 ->
        e' = e + s /\ Zpos m' = q).
Proof.
  intros Hd Hs Hlo Hhi q.
  destruct (shr_fexp_shift m e l s Hd Hs Hlo) as (mrs & Hshr & Hm & Hex).
  unfold binary_round_aux. rewrite Hshr.
  assert (Hq : 2 ^ 52 <= q < 2 ^ 53).
  { pose proof (digits2_pos_bounds m) as [Dlo Dhi]. rewrite Hd in Dlo, Dhi.
    replace (53 + s - 1) with (52 + s) in Dlo by lia.
    rewrite Z.pow_add_r in Dlo, Dhi by lia. unfold q.
    assert (0 < 2 ^ s) by (apply Z.pow_pos_nonneg; lia).
    split.
    - apply Z.div_le_lower_bound; lia.
    - apply Z.div_lt_upper_bound; lia. }
  fold q in Hm.
  pose proof (round_nearest_even_bounds (shr_m mrs) (loc_of_shr_record mrs))
    as Hr.
  set (m1 := round_nearest_even (shr_m mrs) (loc_of_shr_record mrs)) in *.
  rewrite Hm in Hr.
  assert (Hm1 : l = loc_Exact -> Zpos m mod 2 ^ s = 0 -> m1 = q).
  { intros Hl Hmod. unfold m1. rewrite (Hex Hl Hmod), Hm. reflexivity. }
  clearbody m1.
  destruct m1 as [| m1 | m1]; [lia | | lia].
  destruct (Z.ltb_spec (Zpos m1) (2 ^ 53)) as [Hlt | Hge].
  - assert (Hd1 : Zpos (digits2_pos m1) = 53)
      by (apply digits2_pos_unique; lia).
    destruct (shr_fexp_shift m1 (e + s) loc_Exact 0) as (mrs2 & -> & Hm2 & _);
      [lia | lia | lia |].
    rewrite Z.div_1_r in Hm2. rewrite Hm2, Z.add_0_r.
    exists m1, (e + s). unfold emax, prec.
    destruct (Z.leb_spec (e + s) (1024 - 53)); [| lia].
    split; [reflexivity |]. split; [exact Hd1 |]. split; [lia |].
    split; [left; lia |]. intros Hl Hmod. split; [reflexivity |].
    apply (Hm1 Hl Hmod).
  - assert (Heq : Zpos m1 = 2 ^ 53) by lia.
    assert (Hd1 : Zpos (digits2_pos m1) = 53 + 1)
      by (apply digits2_pos_unique; rewrite Heq; cbn; lia).
    destruct (shr_fexp_shift m1 (e + s) loc_Exact 1) as (mrs2 & -> & Hm2 & _);
      [exact Hd1 | lia | lia |].
    rewrite Heq in Hm2. change (2 ^ 53 / 2 ^ 1) with (Zpos (2 ^ 52)) in Hm2.
    rewrite Hm2. exists (2 ^ 52)%positive, (e + s + 1). unfold emax, prec.
    destruct (Z.leb_spec (e + s + 1) (1024 - 53)); [| lia].
    split; [reflexivity |]. split; [reflexivity |]. split; [lia |].
    split; [right; split; [reflexivity |]; split; [reflexivity | lia] |].
    intros Hl Hmod. specialize (Hm1 Hl Hmod). lia.
Qed.

Lemma digits2_pos_shift m m' j :
  0 <= j -> Zpos m' = Zpos m * 2 ^ j ->
  Zpos (digits2_pos m') = Zpos (digits2_pos m) + j.
Proof.
  intros Hj Hm. apply digits2_pos_unique. rewrite Hm.
  pose proof (digits2_pos_bounds m) as [Dlo Dhi].
  replace (Zpos (digits2_pos m) + j - 1)
    with (Zpos (digits2_pos m) - 1 + j) by lia.
  rewrite !Z.pow_add_r by lia.
  assert (0 < 2 ^ j) by (apply Z.pow_pos_nonneg; lia).
  split; [apply Z.mul_le_mono_nonneg_r; lia
         | apply Z.mul_lt_mono_pos_r; lia].
Qed.

(** [binary_round] is exact on a number that is representable: it
    returns the normal float [m * 2^e] of the same value. *)
Lemma binary_round_value sx mx ex m e :
  Zpos (digits2_pos m) = 53 -> -1074 <= e <= 970 ->
  (e <= ex /\ Zpos m = Zpos mx * 2 ^ (ex - e)
   \/ ex <= e /\ Zpos mx = Zpos m * 2 ^ (e - ex)) ->
  binary_round prec emax sx mx ex = S754_finite sx m e.
Proof.
  intros Hd He Hval. unfold binary_round.
  destruct Hval as [[Hle Hm] | [Hle Hm]].
  - pose proof (digits2_pos_shift mx m (ex - e) ltac:(lia) Hm) as Hdx.
    rewrite Hd in Hdx.
    rewrite fexp_normal by lia. unfold shl_align.
    replace (Zpos (digits2_pos mx) + ex - 53 - ex) with (- (ex - e)) by lia.
    destruct (ex - e) as [| d | d] eqn:Hdiff; [| | lia]; unfold Z.opp.
    + destruct (binary_round_aux_shift sx mx ex loc_Exact 0)
        as (m' & e' & -> & _ & _ & _ & Hex); [lia | lia | lia | lia |].
      destruct (Hex eq_refl) as [-> Hm']; [apply Z.mod_1_r |].
      rewrite Z.div_1_r in Hm'. f_equal; lia.
    + replace (Zpos (digits2_pos mx) + ex - 53) with e by lia.
      assert (Hit : Zpos (Pos.iter xO mx d) = Zpos m)
        by (rewrite iter_xO_pow, Hm; reflexivity).
      injection Hit as ->.
      destruct (binary_round_aux_shift sx m e loc_Exact 0)
        as (m' & e' & -> & _ & _ & _ & Hex); [lia | lia | lia | lia |].
      destruct (Hex eq_refl) as [-> Hm']; [apply Z.mod_1_r |].
      rewrite Z.div_1_r in Hm'. f_equal; lia.
  - pose proof (digits2_pos_shift m mx (e - ex) ltac:(lia) Hm) as Hdx.
    rewrite Hd in Hdx.
    rewrite fexp_normal by lia. unfold shl_align.
    replace (Zpos (digits2_pos mx) + ex - 53 - ex) with (e - ex) by lia.
    assert (Hpair : (match e - ex with
                     | Z.neg d => (Pos.iter xO mx d, Zpos (digits2_pos mx) + ex - 53)
                     | _ => (mx, ex)
                     end) = (mx, ex)).
    { destruct (e - ex) eqn:Hdiff; [reflexivity | reflexivity | lia]. }
    rewrite Hpair.
    destruct (binary_round_aux_shift sx mx ex loc_Exact (e - ex))
      as (m' & e' & -> & _ & _ & _ & Hex); [lia | lia | lia | lia |].
    assert (0 < 2 ^ (e - ex)) by (apply Z.pow_pos_nonneg; lia).
    destruct (Hex eq_refl) as [-> Hm'].
    { rewrite Hm. apply Z.mod_mul. lia. }
    rewrite Hm, Z.div_mul in Hm' by lia. f_equal; lia.
Qed.

(** Every positive integer below [2^53] is a normal float. *)
Lemma canonical_exists (zp : positive) :
  Zpos zp < 2 ^ 53 ->
  exists m e,
    Zpos (digits2_pos m) = 53 /\ -52 <= e <= 0
    /\ Zpos m = Zpos zp * 2 ^ (- e)
    /\ e = Zpos (digits2_pos zp) - 53.
Proof.
  intros Hz. pose proof (digits2_pos_bounds zp) as [Dlo Dhi].
  set (n := Zpos (digits2_pos zp)) in *.
  assert (Hn : 1 <= n <= 53).
  { split; [unfold n; lia |].
    destruct (Z.leb_spec n 53) as [| Hgt]; [assumption |].
    assert (2 ^ 53 <= 2 ^ (n - 1)) by (apply Z.pow_le_mono_r; lia). lia. }
  assert (Hpos : 0 < Zpos zp * 2 ^ (53 - n)).
  { apply Z.mul_pos_pos; [lia | apply Z.pow_pos_nonneg; lia]. }
  exists (Z.to_pos (Zpos zp * 2 ^ (53 - n))), (n - 53).
  assert (Hm : Zpos (Z.to_pos (Zpos zp * 2 ^ (53 - n)))
               = Zpos zp * 2 ^ (53 - n)) by (apply Z2Pos.id; exact Hpos).
  split.
  - rewrite (digits2_pos_shift zp _ (53 - n) ltac:(lia) Hm). fold n. lia.
  - split; [lia |]. split; [| reflexivity].
    rewrite Hm. f_equal. f_equal. lia.
Qed.

Lemma binary_normalize_int z m e :
  z <> 0 -> Zpos (digits2_pos m) = 53 -> -1074 <= e <= 0 ->
  Zpos m = Z.abs z * 2 ^ (- e) ->
  binary_normalize prec emax z 0 false = S754_finite (z <? 0) m e.
Proof.
  intros Hz Hd He Hm.
  destruct z as [| zp | zp]; [congruence | |]; cbn [binary_normalize Z.ltb];
    apply binary_round_value; try assumption; try lia;
    left; (split; [lia |]); rewrite Hm; cbn [Z.abs]; f_equal; f_equal; lia.
Qed.

Lemma valid_normal s m e :
  Zpos (digits2_pos m) = 53 -> -1074 <= e <= 971 ->
  valid_binary (S754_finite s m e) = true.
Proof.
  intros Hd He. cbn [SpecFloat.valid_binary]. unfold bounded, canonical_mantissa.
  rewrite Hd, fexp_normal by lia. unfold emax, prec.
  apply andb_true_iff. split; [apply Z.eqb_eq | apply Z.leb_le]; lia.
Qed.

Lemma Prim2SF_of_Z z :
  Z.abs z < 2 ^ 53 ->
  Prim2SF (of_Z z) = binary_normalize prec emax z 0 false.
Proof.
  intros Hz. unfold of_Z. apply Prim2SF_SF2Prim.
  destruct z as [| zp | zp]; [reflexivity | |];
    destruct (canonical_exists zp Hz) as (m & e & Hd & He & Hm & _).
  - rewrite (binary_normalize_int (Zpos zp) m e); try assumption; try lia.
    apply valid_normal; [assumption | lia].
  - rewrite (binary_normalize_int (Zneg zp) m e); try assumption; try lia.
    apply valid_normal; [assumption | lia].
Qed.

(** The quotient by 60 of an integer below [2^40], as binary64 computes
    it: exact for a multiple of 60, strictly between the two
    neighbouring integers otherwise. *)
Lemma SFdiv_60 sx ma ea a :
  Zpos (digits2_pos ma) = 53 -> -52 <= ea <= -13 ->
  Zpos ma = a * 2 ^ (- ea) -> 0 < a ->
  exists m' e',
    SFdiv prec emax (S754_finite sx ma ea)
      (S754_finite false 8444249301319680 (-47))
    = S754_finite sx m' e'
    /\ Zpos (digits2_pos m') = 53 /\ -1074 <= e' < 0
    /\ (a mod 60 = 0 -> Zpos m' = a / 60 * 2 ^ (- e'))
    /\ (a mod 60 <> 0 ->
        a / 60 * 2 ^ (- e') < Zpos m' < (a / 60 + 1) * 2 ^ (- e')).
Proof.
  intros Hd He Hma Ha.
  unfold SFdiv, SFdiv_core_binary. cbn [Zdigits2]. rewrite Hd.
  change (Zpos (digits2_pos 8444249301319680)) with 53.
  cbv zeta.
  assert (He' : Z.min (fexp prec emax (53 + ea - (53 + -47))) (ea - -47)
                = ea - 6).
  { rewrite fexp_normal by lia. lia. }
  rewrite He'. replace (ea - -47 - (ea - 6)) with 53 by lia.
  cbv iota beta. rewrite Z.shiftl_mul_pow2 by lia. rewrite xorb_false_r.
  set (U := 2 ^ (4 - ea)).
  assert (HU : 2 ^ 17 <= U) by (apply Z.pow_le_mono_r; lia).
  assert (HA : Zpos ma * 2 ^ 53 = a * U * 2 ^ 49).
  { rewrite Hma. unfold U. rewrite <- !Z.mul_assoc, <- !Z.pow_add_r by lia.
    f_equal. f_equal. lia. }
  change (Zpos 8444249301319680) with (15 * 2 ^ 49).
  assert (Hdiv : Z.div_eucl (Zpos ma * 2 ^ 53) (15 * 2 ^ 49)
                 = (a * U / 15, (a * U) mod 15 * 2 ^ 49)).
  { rewrite HA, <- (Z.div_mul_cancel_r (a * U) 15 (2 ^ 49)) by lia.
    rewrite <- Z.mul_mod_distr_r by lia.
    unfold Z.div, Z.modulo.
    destruct (Z.div_eucl (a * U * 2 ^ 49) (15 * 2 ^ 49)); reflexivity. }
  rewrite Hdiv. clear Hdiv HA.
  set (k := a / 60). set (r := a mod 60).
  assert (Hkr : a = 60 * k + r /\ 0 <= r < 60).
  { unfold k, r. split; [apply Z.div_mod | apply Z.mod_pos_bound]; lia. }
  destruct Hkr as [Hak Hr].
  assert (Hk : 0 <= k) by (apply Z.div_pos; lia).
  set (KU := k * U). set (RU := r * U).
  assert (HaU : a * U = 60 * KU + RU) by (unfold KU, RU; rewrite Hak; ring).
  assert (HRU : (r = 0 -> RU = 0) /\ (r <> 0 -> U <= RU <= 59 * U)).
  { unfold RU. split; [intros ->; reflexivity |]. intros Hr0. nia. }
  set (q := a * U / 15).
  assert (Hq : 15 * q <= a * U < 15 * q + 15).
  { unfold q. pose proof (Z.div_mod (a * U) 15 ltac:(lia)).
    pose proof (Z.mod_pos_bound (a * U) 15 ltac:(lia)). lia. }
  assert (Hrem : r = 0 -> (a * U) mod 15 = 0).
  { intros Hr0. destruct HRU as [HR0 _]. rewrite HaU, (HR0 Hr0), Z.add_0_r.
    replace (60 * KU) with (4 * KU * 15) by ring. apply Z.mod_mul. lia. }
  assert (Hrange : 2 ^ 52 <= q < 2 ^ 54).
  { pose proof (digits2_pos_bounds ma) as [Dlo Dhi]. rewrite Hd in Dlo, Dhi.
    assert (HmaU : Zpos ma * 16 = a * U).
    { rewrite Hma. unfold U. replace (4 - ea) with (- ea + 4) by lia.
      rewrite Z.pow_add_r by lia. ring. }
    change (2 ^ (53 - 1)) with 4503599627370496 in Dlo.
    change (2 ^ 53) with 9007199254740992 in Dhi.
    change (2 ^ 52) with 4503599627370496.
    change (2 ^ 54) with 18014398509481984. lia. }
  assert (Hloc : r = 0 ->
                 new_location (15 * 2 ^ 49) ((a * U) mod 15 * 2 ^ 49)
                 = loc_Exact).
  { intros Hr0. rewrite (Hrem Hr0). reflexivity. }
  destruct q as [| qp | qp] eqn:Hqp; [cbn in Hrange; lia | | lia].
  assert (Hs : exists s, (s = 0 \/ s = 1)
                         /\ Zpos (digits2_pos qp) = 53 + s).
  { destruct (Z.ltb_spec (Zpos qp) (2 ^ 53)) as [Hlt | Hge].
    - exists 0. split; [left; reflexivity |].
      apply digits2_pos_unique. change (53 + 0 - 1) with 52.
      change (53 + 0) with 53. lia.
    - exists 1. split; [right; reflexivity |].
      apply digits2_pos_unique. change (53 + 1 - 1) with 53.
      change (53 + 1) with 54. lia. }
  destruct Hs as (s & Hs01 & Hdq).
  destruct (binary_round_aux_shift sx qp (ea - 6)
              (new_location (15 * 2 ^ 49) ((a * U) mod 15 * 2 ^ 49)) s)
    as (m' & e' & Hres & Hd' & He'r & Hcases & Hexact);
    [exact Hdq | lia | lia | lia |].
  exists m', e'. split; [exact Hres |]. split; [exact Hd' |].
  split; [destruct Hcases as [[-> _] | [-> _]]; lia |].
  assert (Hp4 : 2 ^ (6 - ea) = 4 * U).
  { unfold U. replace (6 - ea) with (2 + (4 - ea)) by lia.
    rewrite Z.pow_add_r by lia. reflexivity. }
  assert (Hp2 : 2 ^ (5 - ea) = 2 * U).
  { unfold U. replace (5 - ea) with (1 + (4 - ea)) by lia.
    rewrite Z.pow_add_r by lia. reflexivity. }
  assert (Hq0 : s = 1 -> 2 * (Zpos qp / 2 ^ s) <= Zpos qp
                         < 2 * (Zpos qp / 2 ^ s) + 2).
  { intros ->. change (2 ^ 1) with 2.
    pose proof (Z.div_mod (Zpos qp) 2 ltac:(lia)).
    pose proof (Z.mod_pos_bound (Zpos qp) 2 ltac:(lia)). lia. }
  assert (Hq1 : s = 0 -> Zpos qp / 2 ^ s = Zpos qp).
  { intros ->. apply Z.div_1_r. }
  destruct HRU as [HR0 HR1].
  split.
  - intros Hr0. specialize (HR0 Hr0).
    assert (Hq4 : Zpos qp = 4 * KU) by lia.
    destruct (Hexact (Hloc Hr0)) as [-> Hm'].
    { destruct Hs01 as [-> | ->]; [apply Z.mod_1_r |].
      rewrite Hq4.
      replace (4 * KU) with (2 * KU * 2 ^ 1) by (change (2 ^ 1) with 2; ring).
      apply Z.mod_mul. change (2 ^ 1) with 2. lia. }
    fold KU in Hm' |- *. rewrite Hm'.
    destruct Hs01 as [-> | ->].
    + rewrite (Hq1 eq_refl).
      replace (- (ea - 6 + 0)) with (6 - ea) by lia. rewrite Hp4.
      unfold KU. lia.
    + specialize (Hq0 eq_refl).
      replace (- (ea - 6 + 1)) with (5 - ea) by lia. rewrite Hp2.
      unfold KU in *. lia.
  - intros Hr0. specialize (HR1 Hr0).
    destruct Hcases as [[-> Hm'] | (-> & Hm' & Hov)];
      destruct Hs01 as [-> | ->];
      try specialize (Hq0 eq_refl); try rewrite (Hq1 eq_refl) in *.
    + replace (- (ea - 6 + 0)) with (6 - ea) by lia. rewrite Hp4.
      fold k. unfold KU in *. lia.
    + replace (- (ea - 6 + 1)) with (5 - ea) by lia. rewrite Hp2.
      fold k. unfold KU in *. lia.
    + replace (- (ea - 6 + 0 + 1)) with (5 - ea) by lia. rewrite Hp2.
      fold k. unfold KU in *.
      change (2 ^ 52) with 4503599627370496 in *.
      change (2 ^ 53) with 9007199254740992 in *. lia.
    + replace (- (ea - 6 + 1 + 1)) with (4 - ea) by lia. fold U.
      fold k. unfold KU in *.
      change (2 ^ 52) with 4503599627370496 in *.
      change (2 ^ 53) with 9007199254740992 in *. lia.
Qed.

Lemma Math_floor_finite s m e :
  Zpos (digits2_pos m) = 53 -> -1074 <= e < 0 ->
  Math_floor (SF2Prim (S754_finite s m e))
  = of_Z (Z.shiftr (signedZ s m) (- e)).
Proof.
  intros Hd He. unfold Math_floor.
  rewrite Prim2SF_SF2Prim by (apply valid_normal; [exact Hd | lia]).
  destruct (Z.leb_spec 0 e); [lia | reflexivity].
Qed.

Lemma Prim2SF_60 :
  Prim2SF 60 = S754_finite false 8444249301319680 (-47).
Proof. reflexivity. Qed.

(** The product by 60 of an integer below [2^40] is exact. *)
Lemma of_Z_mul_60 K :
  Z.abs K < 2 ^ 40 -> (of_Z K * 60)%float = of_Z (60 * K).
Proof.
  intros HK. apply Prim2SF_inj.
  rewrite mul_spec, !Prim2SF_of_Z, Prim2SF_60 by lia.
  destruct (Z.eq_dec K 0) as [-> | HK0]; [reflexivity |].
  assert (Hex : exists mk ek,
             Zpos (digits2_pos mk) = 53 /\ -52 <= ek <= -13
             /\ Zpos mk = Z.abs K * 2 ^ (- ek)).
  { destruct K as [| kp | kp]; [congruence | |]; cbn [Z.abs] in *;
      destruct (canonical_exists kp ltac:(lia)) as (mk & ek & Hd & He & Hm & Hek);
      exists mk, ek; (split; [exact Hd |]); (split; [| exact Hm]);
      pose proof (digits2_pos_bounds kp) as [Dlo _];
      (assert (Zpos (digits2_pos kp) <= 40);
       [destruct (Z.leb_spec (Zpos (digits2_pos kp)) 40) as [| Hgt];
          [assumption |];
        assert (2 ^ 40 <= 2 ^ (Zpos (digits2_pos kp) - 1))
          by (apply Z.pow_le_mono_r; lia); lia
       | lia]). }
  destruct Hex as (mk & ek & Hd & He & Hm).
  rewrite (binary_normalize_int K mk ek) by (try assumption; lia).
  unfold SF64mul, SFmul. rewrite xorb_false_r.
  set (P := (mk * 8444249301319680)%positive).
  assert (HP : Zpos P = 15 * Z.abs K * 2 ^ (49 - ek)).
  { unfold P. rewrite Pos2Z.inj_mul, Hm.
    change (Zpos 8444249301319680) with (15 * 2 ^ 49).
    replace (49 - ek) with (- ek + 49) by lia.
    rewrite Z.pow_add_r by lia. ring. }
  pose proof (digits2_pos_bounds mk) as [Mlo Mhi]. rewrite Hd in Mlo, Mhi.
  change (2 ^ (53 - 1)) with 4503599627370496 in Mlo.
  change (2 ^ 53) with 9007199254740992 in Mhi.
  assert (HPr : 2 ^ 104 <= Zpos P < 2 ^ 106).
  { unfold P. rewrite Pos2Z.inj_mul.
    change (2 ^ 104) with (4503599627370496 * 4503599627370496).
    change (2 ^ 106) with (9007199254740992 * 9007199254740992).
    nia. }
  pose proof (digits2_pos_bounds P) as [Plo Phi].
  set (n := Zpos (digits2_pos P)) in *.
  assert (Hn : 105 <= n <= 106).
  { split.
    - destruct (Z.leb_spec 105 n) as [| Hlt]; [assumption |].
      assert (2 ^ n <= 2 ^ 104) by (apply Z.pow_le_mono_r; lia). lia.
    - destruct (Z.leb_spec n 106) as [| Hgt]; [assumption |].
      assert (2 ^ 106 <= 2 ^ (n - 1)) by (apply Z.pow_le_mono_r; lia). lia. }
  destruct (binary_round_aux_shift (K <? 0) P (ek + -47) loc_Exact (n - 53))
    as (m' & e' & -> & Hd' & He' & _ & Hexact);
    [unfold n; lia | lia | lia | lia |].
  assert (Hsplit : Zpos P
                   = 15 * Z.abs K * 2 ^ (49 - ek - (n - 53)) * 2 ^ (n - 53)).
  { rewrite HP.
    rewrite <- (Z.mul_assoc (15 * Z.abs K) (2 ^ (49 - ek - (n - 53)))),
      <- Z.pow_add_r by lia.
    f_equal. f_equal. lia. }
  assert (Hpow : 0 < 2 ^ (n - 53)) by (apply Z.pow_pos_nonneg; lia).
  destruct (Hexact eq_refl) as [-> Hm'].
  { rewrite Hsplit. apply Z.mod_mul. lia. }
  rewrite Hsplit, Z.div_mul in Hm' by lia.
  symmetry.
  replace (K <? 0) with (60 * K <? 0)
    by (destruct (Z.ltb_spec (60 * K) 0), (Z.ltb_spec K 0); lia || reflexivity).
  apply binary_normalize_int; [lia | exact Hd' | lia |].
  rewrite Hm'. replace (Z.abs (60 * K)) with (15 * Z.abs K * 2 ^ 2)
    by (change (2 ^ 2) with 4; lia).
  rewrite <- (Z.mul_assoc (15 * Z.abs K) (2 ^ 2)), <- Z.pow_add_r by lia.
  f_equal. f_equal. lia.
Qed.

(** [Math.floor(z / 60)] on an integer [z] below [2^40] in magnitude is
    the integer quotient, rounded towards minus infinity. *)
Lemma Math_floor_div_60 z :
  Z.abs z < 2 ^ 40 -> Math_floor (of_Z z / 60) = of_Z (z / 60).
Proof.
  intros Hz.
  destruct (Z.eq_dec z 0) as [-> | Hz0]; [reflexivity |].
  assert (Hex : exists ma ea,
             Zpos (digits2_pos ma) = 53 /\ -52 <= ea <= -13
             /\ Zpos ma = Z.abs z * 2 ^ (- ea)).
  { destruct z as [| zp | zp]; [congruence | |]; cbn [Z.abs] in *;
      destruct (canonical_exists zp ltac:(lia)) as (ma & ea & Hd & He & Hm & Hea);
      exists ma, ea; (split; [exact Hd |]); (split; [| exact Hm]);
      pose proof (digits2_pos_bounds zp) as [Dlo _];
      (assert (Zpos (digits2_pos zp) <= 40);
       [destruct (Z.leb_spec (Zpos (digits2_pos zp)) 40) as [| Hgt];
          [assumption |];
        assert (2 ^ 40 <= 2 ^ (Zpos (digits2_pos zp) - 1))
          by (apply Z.pow_le_mono_r; lia); lia
       | lia]). }
  destruct Hex as (ma & ea & Hd & He & Hm).
  assert (Hq : (of_Z z / 60)%float
               = SF2Prim (SFdiv prec emax (S754_finite (z <? 0) ma ea)
                            (S754_finite false 8444249301319680 (-47)))).
  { rewrite <- (SF2Prim_Prim2SF (of_Z z / 60)), div_spec, Prim2SF_of_Z,
      Prim2SF_60 by lia.
    rewrite (binary_normalize_int z ma ea) by (try assumption; lia).
    reflexivity. }
  rewrite Hq.
  destruct (SFdiv_60 (z <? 0) ma ea (Z.abs z) Hd He Hm ltac:(lia))
    as (m' & e' & -> & Hd' & He' & Hexact & Hstrict).
  rewrite Math_floor_finite by assumption. f_equal.
  rewrite Z.shiftr_div_pow2 by lia.
  assert (HP : 0 < 2 ^ (- e')) by (apply Z.pow_pos_nonneg; lia).
  set (P := 2 ^ (- e')) in *.
  set (a := Z.abs z) in *.
  pose proof (Z.div_mod a 60 ltac:(lia)) as Hdm.
  pose proof (Z.mod_pos_bound a 60 ltac:(lia)) as Hmb.
  set (k := a / 60) in *. set (r := a mod 60) in *.
  destruct (Z.ltb_spec z 0) as [Hneg | Hpos]; cbn [signedZ].
  - assert (Hza : z = - a) by (unfold a; lia).
    destruct (Z.eq_dec r 0) as [Hr | Hr].
    + replace (Z.neg m') with (- Zpos m') by reflexivity.
      rewrite (Hexact Hr), <- Z.mul_opp_l, Z.div_mul by lia.
      apply Z.div_unique with (r := 0); lia.
    + destruct (Hstrict Hr) as [Hlo Hhi].
      replace (Z.neg m') with (- Zpos m') by reflexivity.
      transitivity (- k - 1).
      * symmetry. apply Z.div_unique with (r := (k + 1) * P - Zpos m'); lia.
      * apply Z.div_unique with (r := 60 - r); lia.
  - assert (Hza : z = a) by (unfold a; lia).
    rewrite Hza. fold k.
    destruct (Z.eq_dec r 0) as [Hr | Hr].
    + rewrite (Hexact Hr). apply Z.div_mul. lia.
    + destruct (Hstrict Hr) as [Hlo Hhi].
      symmetry. apply Z.div_unique with (r := Zpos m' - k * P); lia.
Qed.

(** [Math.floor(z / 60) * 60] on such an integer is the largest
    multiple of 60 that is not above it. *)
Lemma floor_to_multiple_of_60 z :
  Z.abs z < 2 ^ 40 ->
  (Math_floor (of_Z z / 60) * 60)%float = of_Z (60 * (z / 60)).
Proof.
  intros Hz. rewrite Math_floor_div_60 by exact Hz.
  apply of_Z_mul_60.
  pose proof (Z.div_mod z 60 ltac:(lia)).
  pose proof (Z.mod_pos_bound z 60 ltac:(lia)).
  change (2 ^ 40) with 1099511627776 in *. lia.
Qed.







End Binary64.

(** ** The fallback decision *)

Section FallbackPolicy.
Import JsNumber Types Config LlmAnalyzer SimPool.





Lemma multiple_of_60_below z :
  (60 * (z / 60)) mod 60 = 0 /\ 60 * (z / 60) <= z < 60 * (z / 60) + 60.
Proof.
  split; [rewrite Z.mul_comm; apply Z.mod_mul; lia |].
  pose proof (Z.div_mod z 60 ltac:(lia)).
  pose proof (Z.mod_pos_bound z 60 ltac:(lia)). lia.
Qed.



(** The threshold is the binary64 product: [90 * 0.7] is
    62.999999999999993, so a CONSERVATIVE position [0, 180] is out of
    range at tick 153, at distance 63 from its center. *)
Example conservative_threshold_is_rounded :
  (90 * rebalanceThreshold (STRATEGY_CONFIG CONSERVATIVE) <? 63)%float = true
  /\ action (getFallbackDecision (scenarioPool 153) CONSERVATIVE
               [position 0 180]) = REBALANCE.
Proof. split; reflexivity. Qed.

End FallbackPolicy.

(** ** Liquidity math *)

Section LiquidityMath.
Import Effects TxExecutor.

Lemma sortBounds_sorted a b :
  sortBounds a b = (Z.min a b, Z.max a b).
Proof.
  unfold sortBounds. destruct (Z.gtb_spec a b).
  - rewrite Z.min_r, Z.max_l by lia. reflexivity.
  - rewrite Z.min_l, Z.max_r by lia. reflexivity.
Qed.

Lemma sortBounds_le a b : a <= b -> sortBounds a b = (a, b).
Proof.
  intros. unfold sortBounds. destruct (Z.gtb_spec a b); [lia | reflexivity].
Qed.

Lemma bigDiv_nonzero a b : b <> 0 -> bigDiv a b = Ok (a ÷ b).
Proof.
  intros. unfold bigDiv.
  destruct (Z.eqb_spec b 0); [contradiction | reflexivity].
Qed.

Lemma bigDiv_nonneg a b q : bigDiv a b = Ok q -> 0 <= a -> 0 <= b -> 0 <= q.
Proof.
  unfold bigDiv. destruct (Z.eqb_spec b 0); [discriminate |].
  intros [= <-] Ha Hb. apply Z.quot_pos; lia.
Qed.

Lemma Q96_pos : 0 < Q96.
Proof. reflexivity. Qed.

(** On sorted, distinct bounds the two single-token estimates are these
    quotients. *)
Lemma getLiquidityForAmount0_sorted a b x :
  a < b ->
  getLiquidityForAmount0 a b x = Ok ((x * ((a * b) ÷ Q96)) ÷ (b - a)).
Proof.
  intros. unfold getLiquidityForAmount0. rewrite sortBounds_le by lia.
  rewrite (bigDiv_nonzero _ Q96) by (pose proof Q96_pos; lia).
  apply bigDiv_nonzero. lia.
Qed.

Lemma getLiquidityForAmount1_sorted a b y :
  a < b -> getLiquidityForAmount1 a b y = Ok ((y * Q96) ÷ (b - a)).
Proof.
  intros. unfold getLiquidityForAmount1. rewrite sortBounds_le by lia.
  apply bigDiv_nonzero. lia.
Qed.

(** C2. [getLiquidityForAmounts] sorts its two price bounds; then, with
    sorted bounds A < B: at a current price <= A the result is the
    amount0 estimate over [A, B], whatever amount1 is; at a current price
    >= B it is the amount1 estimate over [A, B], whatever amount0 is;
    in between it is the minimum of the amount0 estimate over
    [current, B] and the amount1 estimate over [A, current]. *)
Theorem getLiquidityForAmounts_piecewise :
  forall sqrtPriceX96 a b amount0 amount1,
    a <> b ->
    let A := Z.min a b in
    let B := Z.max a b in
    getLiquidityForAmounts sqrtPriceX96 a b amount0 amount1
      = getLiquidityForAmounts sqrtPriceX96 A B amount0 amount1
    /\ (sqrtPriceX96 <= A ->
        getLiquidityForAmounts sqrtPriceX96 a b amount0 amount1
          = getLiquidityForAmount0 A B amount0
        /\ forall amount1',
             getLiquidityForAmounts sqrtPriceX96 a b amount0 amount1'
             = getLiquidityForAmounts sqrtPriceX96 a b amount0 amount1)
    /\ (B <= sqrtPriceX96 ->
        getLiquidityForAmounts sqrtPriceX96 a b amount0 amount1
          = getLiquidityForAmount1 A B amount1
        /\ forall amount0',
             getLiquidityForAmounts sqrtPriceX96 a b amount0' amount1
             = getLiquidityForAmounts sqrtPriceX96 a b amount0 amount1)
    /\ (A < sqrtPriceX96 < B ->
        exists liq0 liq1,
          getLiquidityForAmount0 sqrtPriceX96 B amount0 = Ok liq0
          /\ getLiquidityForAmount1 A sqrtPriceX96 amount1 = Ok liq1
          /\ getLiquidityForAmounts sqrtPriceX96 a b amount0 amount1
             = Ok (Z.min liq0 liq1)).
Proof.
  intros P a b x y Hne A B.
  assert (HAB : A < B) by (subst A B; lia).
  assert (Hsort : sortBounds a b = (A, B)) by apply sortBounds_sorted.
  assert (Hsort' : sortBounds A B = (A, B)) by (apply sortBounds_le; lia).
  unfold getLiquidityForAmounts. rewrite Hsort, Hsort'.
  split; [reflexivity |]. split; [| split].
  - intros Hle. destruct (Z.leb_spec P A); [| lia]. split; [reflexivity |].
    intros y'. reflexivity.
  - intros Hge. destruct (Z.leb_spec P A); [lia |].
    destruct (Z.ltb_spec P B); [lia |]. split; [reflexivity |].
    intros x'. reflexivity.
  - intros [HA HB]. destruct (Z.leb_spec P A); [lia |].
    destruct (Z.ltb_spec P B); [| lia].
    rewrite (getLiquidityForAmount0_sorted P B x HB).
    rewrite (getLiquidityForAmount1_sorted A P y HA).
    eexists _, _. split; [reflexivity |]. split; [reflexivity |].
    f_equal.
    destruct (Z.ltb_spec (x * (P * B ÷ Q96) ÷ (B - P)) (y * Q96 ÷ (P - A))).
    + rewrite Z.min_l by lia. reflexivity.
    + rewrite Z.min_r by lia. reflexivity.
Qed.

(** Below the range [100, 200] (given unsorted), amount1 does not
    matter. *)
Lemma getLiquidityForAmounts_piecewise_witness :
  getLiquidityForAmounts 50 200 100 7 1000
    = getLiquidityForAmounts 50 200 100 7 5.
Proof.
  destruct (getLiquidityForAmounts_piecewise 50 200 100 7 5 ltac:(lia))
    as [_ [Hbelow _]].
  destruct (Hbelow ltac:(simpl; lia)) as [_ Hind].
  exact (Hind 1000).
Defined.

(** C8. When the two price bounds coincide, the liquidity computation
    and both single-token estimates throw the RangeError of the division
    by the zero width, whatever the price and the amounts: no liquidity
    value is returned. *)
Theorem zero_width_range_throws :
  forall sqrtPriceX96 bound amount0 amount1,
    getLiquidityForAmounts sqrtPriceX96 bound bound amount0 amount1
      = Throw RangeError_DivisionByZero
    /\ getLiquidityForAmount0 bound bound amount0
       = Throw RangeError_DivisionByZero
    /\ getLiquidityForAmount1 bound bound amount1
       = Throw RangeError_DivisionByZero.
Proof.
  intros P c x y.
  assert (H0 : getLiquidityForAmount0 c c x = Throw RangeError_DivisionByZero).
  { unfold getLiquidityForAmount0. rewrite sortBounds_le by lia.
    rewrite (bigDiv_nonzero _ Q96) by (pose proof Q96_pos; lia).
    rewrite Z.sub_diag. reflexivity. }
  assert (H1 : getLiquidityForAmount1 c c y = Throw RangeError_DivisionByZero).
  { unfold getLiquidityForAmount1. rewrite sortBounds_le by lia.
    rewrite Z.sub_diag. reflexivity. }
  split; [| split; assumption].
  unfold getLiquidityForAmounts. rewrite sortBounds_le by lia.
  destruct (Z.leb_spec P c); [exact H0 |].
  destruct (Z.ltb_spec P c); [lia | exact H1].
Qed.

Lemma getLiquidityForAmount0_nonneg a b x L :
  getLiquidityForAmount0 a b x = Ok L ->
  0 <= a -> 0 <= b -> 0 <= x -> 0 <= L.
Proof.
  unfold getLiquidityForAmount0. rewrite sortBounds_sorted.
  rewrite (bigDiv_nonzero _ Q96) by (pose proof Q96_pos; lia).
  intros HL Ha Hb Hx. apply (bigDiv_nonneg _ _ _ HL); [| lia].
  apply Z.mul_nonneg_nonneg; [lia |]. apply Z.quot_pos; [| apply Q96_pos].
  apply Z.mul_nonneg_nonneg; lia.
Qed.

Lemma getLiquidityForAmount1_nonneg a b y L :
  getLiquidityForAmount1 a b y = Ok L -> 0 <= y -> 0 <= L.
Proof.
  unfold getLiquidityForAmount1. rewrite sortBounds_sorted.
  intros HL Hy. apply (bigDiv_nonneg _ _ _ HL); [| lia].
  pose proof Q96_pos. apply Z.mul_nonneg_nonneg; lia.
Qed.

Lemma getLiquidityForAmounts_nonneg P a b x y L :
  getLiquidityForAmounts P a b x y = Ok L ->
  0 <= P -> 0 <= a -> 0 <= b -> 0 <= x -> 0 <= y -> 0 <= L.
Proof.
  unfold getLiquidityForAmounts. rewrite sortBounds_sorted.
  intros HL HP Ha Hb Hx Hy.
  destruct (P <=? Z.min a b).
  - apply (getLiquidityForAmount0_nonneg _ _ _ _ HL); lia.
  - destruct (P <? Z.max a b).
    + destruct (getLiquidityForAmount0 P (Z.max a b) x) as [l0 |] eqn:H0;
        [| discriminate].
      destruct (getLiquidityForAmount1 (Z.min a b) P y) as [l1 |] eqn:H1;
        [| discriminate].
      apply getLiquidityForAmount0_nonneg in H0; [| lia ..].
      apply getLiquidityForAmount1_nonneg in H1; [| lia].
      injection HL as <-. destruct (l0 <? l1); lia.
    + apply (getLiquidityForAmount1_nonneg _ _ _ _ HL); lia.
Qed.

(** *** The tick to price conversion never divides by zero *)

Lemma tickRatio_fold tick :
  tickRatio tick
  = fold_left (ratioStep (Z.abs tick)) ratioSteps
      (if bitSet (Z.abs tick) 0x1
       then 0xfffcb933bd6fad37aa2d162d1a594001
       else 0x100000000000000000000000000000000).
Proof. reflexivity. Qed.

Lemma ratioStep_bounds absTick mc lb r :
  0 <= lb <= r -> r <= 2 ^ 128 -> 0 <= snd mc <= 2 ^ 128 ->
  0 <= ratioStepAlways lb mc <= ratioStep absTick r mc
  /\ ratioStep absTick r mc <= 2 ^ 128.
Proof.
  intros [Hlb Hr] Hub [Hc0 Hc1]. unfold ratioStepAlways, ratioStep, mulShift.
  rewrite !Z.shiftr_div_pow2 by lia.
  assert (Hlow : lb * snd mc / 2 ^ 128 <= lb).
  { apply Z.div_le_upper_bound; [lia |]. nia. }
  assert (Hmono : lb * snd mc / 2 ^ 128 <= r * snd mc / 2 ^ 128).
  { apply Z.div_le_mono; [lia | nia]. }
  assert (Hup : r * snd mc / 2 ^ 128 <= r).
  { apply Z.div_le_upper_bound; [lia |]. nia. }
  assert (0 <= lb * snd mc / 2 ^ 128) by (apply Z.div_pos; [nia | lia]).
  destruct (bitSet absTick (fst mc)); lia.
Qed.

Lemma ratio_fold_bounds absTick steps :
  Forall (fun mc => 0 <= snd mc <= 2 ^ 128) steps ->
  forall lb r, 0 <= lb <= r -> r <= 2 ^ 128 ->
    fold_left ratioStepAlways steps lb
      <= fold_left (ratioStep absTick) steps r <= 2 ^ 128.
Proof.
  induction 1 as [| mc steps Hmc _ IH]; intros lb r Hlb Hr; simpl.
  - lia.
  - destruct (ratioStep_bounds absTick mc lb r Hlb Hr Hmc) as [H1 H2].
    apply IH; assumption.
Qed.

Lemma tickRatio_bounds tick : 2 ^ 32 <= tickRatio tick <= 2 ^ 128.
Proof.
  rewrite tickRatio_fold.
  assert (Hsteps : Forall (fun mc => 0 <= snd mc <= 2 ^ 128) ratioSteps).
  { unfold ratioSteps.
    repeat (constructor; [split; vm_compute; discriminate |]). constructor. }
  pose proof (ratio_fold_bounds (Z.abs tick) ratioSteps Hsteps
                0xfffcb933bd6fad37aa2d162d1a594001) as Hb.
  assert (Hlb : 2 ^ 32 <= fold_left ratioStepAlways ratioSteps
                             0xfffcb933bd6fad37aa2d162d1a594001).
  { vm_compute. discriminate. }
  assert (H1 : 0 <= 0xfffcb933bd6fad37aa2d162d1a594001
               <= 0xfffcb933bd6fad37aa2d162d1a594001)
    by (split; vm_compute; discriminate).
  assert (H2 : 0xfffcb933bd6fad37aa2d162d1a594001 <= 2 ^ 128)
    by (vm_compute; discriminate).
  assert (H3 : 0 <= 0xfffcb933bd6fad37aa2d162d1a594001
               <= 0x100000000000000000000000000000000)
    by (split; vm_compute; discriminate).
  assert (H4 : 0x100000000000000000000000000000000 <= 2 ^ 128)
    by (vm_compute; discriminate).
  destruct (bitSet (Z.abs tick) 1).
  - specialize (Hb _ H1 H2). split; [| apply Hb].
    etransitivity; [exact Hlb | apply Hb].
  - specialize (Hb _ H3 H4). split; [| apply Hb].
    etransitivity; [exact Hlb | apply Hb].
Qed.

Lemma tickToSqrtPriceX96_total tick :
  exists p, tickToSqrtPriceX96 tick = Ok p /\ 0 < p.
Proof.
  pose proof (tickRatio_bounds tick) as [Hlo Hhi].
  unfold tickToSqrtPriceX96.
  assert (Hq : forall ratio, 2 ^ 32 <= ratio ->
            0 < Z.shiftr ratio 32
                + (if Z.rem ratio (Z.shiftl 1 32) >? 0 then 1 else 0)).
  { intros ratio Hr. rewrite Z.shiftr_div_pow2 by lia.
    assert (1 <= ratio / 2 ^ 32).
    { apply Z.div_le_lower_bound; lia. }
    destruct (_ >? 0); lia. }
  destruct (tick >? 0).
  - unfold bigDiv. destruct (Z.eqb_spec (tickRatio tick) 0); [lia |].
    eexists. split; [reflexivity |]. apply Hq.
    apply Z.quot_le_lower_bound; [lia |].
    assert (tickRatio tick * 2 ^ 32 <= 2 ^ 128 * 2 ^ 32) by nia.
    assert (2 ^ 128 * 2 ^ 32 <= 2 ^ 256 - 1) by (vm_compute; discriminate).
    lia.
  - eexists. split; [reflexivity |]. apply Hq. exact Hlo.
Qed.

(** The conversion agrees with the protocol's extreme ticks. *)
Example tickToSqrtPriceX96_extremes :
  tickToSqrtPriceX96 (-887272) = Ok 4295128739
  /\ tickToSqrtPriceX96 0 = Ok Q96
  /\ tickToSqrtPriceX96 887272
     = Ok 1461446703485210103287273052203988822378723970342.
Proof. repeat split; vm_compute; reflexivity. Qed.

End LiquidityMath.

(** ** The execution coordinator *)

Section ExecutorFacts.
Import Effects Types TxExecutor.
Context {World : Type} `{WorldOps World}.

(** What [executeMintPosition] does, by the outcome of the liquidity
    computation and of the ledger call. *)
Lemma executeMintPosition_run (s : State World) d lo hi a0 a1 :
  executeMintPosition d lo hi a0 a1 s =
  match candidateLiquidity (world s) lo hi a0 a1 with
  | Throw e => (Throw e, s)
  | Ok L =>
      let liquidity := L * 99 ÷ 100 in
      if liquidity =? 0 then (Ok None, s)
      else
        let deadline := dateNow (world s) / 1000 + 300 in
        let request := TxMint d lo hi liquidity a0 a1 deadline in
        match agentMintPosition (world s) d lo hi liquidity a0 a1 deadline with
        | (w', Throw e) =>
            (Throw e, {| world := w';
                         positionTickCache := positionTickCache s;
                         submitted := submitted s ++ [request] |})
        | (w', Ok receipt) =>
            let tokenId := findPositionCreated (logs receipt) in
            (Ok (Some {| mr_tokenId := tokenId;
                         mr_txHash := hash receipt;
                         mr_liquidity := liquidity;
                         mr_amount0 := a0;
                         mr_amount1 := a1 |}),
             {| world := w';
                positionTickCache :=
                  match tokenId with
                  | Some t => <[t := (lo, hi)]> (positionTickCache s)
                  | None => positionTickCache s
                  end;
                submitted := submitted s ++ [request] |})
        end
  end.
Proof.
  unfold executeMintPosition, candidateLiquidity, bind, lift, ret, now,
    getPoolState, sendMint, cacheSet. simpl.
  destruct (readPoolState (world s)) as [poolState |]; [| reflexivity].
  destruct (tickToSqrtPriceX96 lo) as [pa |]; [| reflexivity].
  destruct (tickToSqrtPriceX96 hi) as [pb |]; [| reflexivity].
  destruct (getLiquidityForAmounts _ _ _ _ _) as [L |]; [| reflexivity].
  try rewrite (bigDiv_nonzero _ 100) by lia. simpl.
  destruct (L * 99 ÷ 100 =? 0); [reflexivity |].
  destruct (agentMintPosition _ _ _ _ _ _ _ _) as [w' [receipt | e]];
    [| reflexivity].
  simpl. destruct (findPositionCreated (logs receipt)); reflexivity.
Qed.

Lemma executeClosePosition_run (s : State World) d tokenId :
  executeClosePosition d tokenId s =
  let deadline := dateNow (world s) / 1000 + 300 in
  let request := TxClose d tokenId 0 0 deadline in
  match agentClosePosition (world s) d tokenId 0 0 deadline with
  | (w', Throw e) =>
      (Throw e, {| world := w';
                   positionTickCache := positionTickCache s;
                   submitted := submitted s ++ [request] |})
  | (w', Ok receipt) =>
      (Ok {| cr_tokenId := tokenId; cr_txHash := hash receipt |},
       {| world := w';
          positionTickCache := delete tokenId (positionTickCache s);
          submitted := submitted s ++ [request] |})
  end.
Proof.
  unfold executeClosePosition, bind, ret, now, sendClose, cacheDelete. simpl.
  destruct (agentClosePosition _ _ _ _ _ _) as [w' [receipt | e]];
    reflexivity.
Qed.

Definition closesOf (d : Z) (reqs : list TxRequest) (ids : list Z) : Prop :=
  Forall2 (fun t tokenId => exists dl, t = TxClose d tokenId 0 0 dl) reqs ids.

Lemma closeEach_confirmed d ids : forall acc (s : State World) closes sc,
  closeEach d ids acc s = (Ok closes, sc) ->
  exists cl reqs,
    closes = acc ++ cl
    /\ map cr_tokenId cl = ids
    /\ submitted sc = submitted s ++ reqs
    /\ closesOf d reqs ids.
Proof.
  induction ids as [| tokenId rest IH]; intros acc s closes sc Hrun; simpl in Hrun.
  - injection Hrun as <- <-. exists [], []. rewrite !app_nil_r.
    repeat split; constructor.
  - unfold bind in Hrun. rewrite executeClosePosition_run in Hrun. simpl in Hrun.
    destruct (agentClosePosition _ _ _ _ _ _) as [w' [receipt | e]];
      [| discriminate].
    apply IH in Hrun as (cl & reqs & -> & Hids & Hsub & Hreqs). simpl in Hsub.
    eexists (_ :: cl), (_ :: reqs).
    split; [rewrite <- app_assoc; reflexivity |].
    split; [simpl; rewrite Hids; reflexivity |].
    split; [rewrite Hsub, <- app_assoc; reflexivity |].
    constructor; [eexists; reflexivity | exact Hreqs].
Qed.


Lemma executeRebalance_run (s : State World) d lo hi :
  executeRebalance d lo hi s =
  match readDeposit (world s) d with
  | Throw e => (Throw e, s)
  | Ok dep0 =>
      match closeEach d (positionTokenIds dep0) [] s with
      | (Throw e, sc) => (Throw e, sc)
      | (Ok closes, sc) =>
          match readDeposit (world sc) d with
          | Throw e => (Throw e, sc)
          | Ok dep1 =>
              if (amount0Remaining dep1 =? 0) && (amount1Remaining dep1 =? 0)
              then (Ok {| closeTxHashes := closes; mintResult := None;
                          newTokenId := None |}, sc)
              else
                match executeMintPosition d lo hi (amount0Remaining dep1)
                        (amount1Remaining dep1) sc with
                | (Throw e, s') => (Throw e, s')
                | (Ok m, s') =>
                    (Ok {| closeTxHashes := closes; mintResult := m;
                           newTokenId := match m with
                                         | Some r => mr_tokenId r
                                         | None => None
                                         end |}, s')
                end
          end
      end
  end.
Proof.
  unfold executeRebalance, bind, getDepositInfo.
  destruct (readDeposit (world s) d) as [dep0 |]; [| reflexivity].
  replace ((if (length (positionTokenIds dep0) =? 0)%nat
            then ret []
            else closeEach d (positionTokenIds dep0) []) s)
    with (closeEach d (positionTokenIds dep0) [] s)
    by (destruct (positionTokenIds dep0); reflexivity).
  destruct (closeEach d (positionTokenIds dep0) [] s) as [[closes | e] sc];
    [| reflexivity].
  destruct (readDeposit (world sc) d) as [dep1 |]; [| reflexivity].
  destruct ((amount0Remaining dep1 =? 0) && (amount1Remaining dep1 =? 0));
    [reflexivity |].
  destruct (executeMintPosition _ _ _ _ _ _) as [[m | e] s']; reflexivity.
Qed.

(** C3. [executeMintPosition] computes the candidate liquidity from the
    pool's current sqrt price and the two tick bounds converted by
    [tickToSqrtPriceX96], and takes 99/100 of it with truncating integer
    division.  With non-negative balances and pool price: if the
    computation throws, the call throws and leaves the state as it was;
    if the result is zero, it returns the no-op result and submits
    nothing; otherwise it submits one mint, whose liquidity is positive
    and at most 99% of the candidate. *)
Theorem executeMintPosition_safety_margin (s : State World) d lo hi a0 a1 :
  0 <= a0 -> 0 <= a1 ->
  (forall p, readPoolState (world s) = Ok p -> 0 <= sqrtPriceX96 p) ->
  match candidateLiquidity (world s) lo hi a0 a1 with
  | Throw e => executeMintPosition d lo hi a0 a1 s = (Throw e, s)
  | Ok L =>
      0 <= L /\
      let liquidity := L * 99 ÷ 100 in
      if liquidity =? 0
      then executeMintPosition d lo hi a0 a1 s = (Ok None, s)
      else
        0 < liquidity /\ 100 * liquidity <= 99 * L /\
        exists r s',
          executeMintPosition d lo hi a0 a1 s = (r, s')
          /\ submitted s' = submitted s ++
               [TxMint d lo hi liquidity a0 a1
                  (dateNow (world s) / 1000 + 300)]
  end.
Proof.
  intros Ha0 Ha1 Hpool. rewrite executeMintPosition_run.
  destruct (candidateLiquidity (world s) lo hi a0 a1) as [L |] eqn:Hcand;
    [| reflexivity].
  assert (HL : 0 <= L).
  { unfold candidateLiquidity in Hcand.
    destruct (readPoolState (world s)) as [p |] eqn:Hp; [| discriminate].
    destruct (tickToSqrtPriceX96_total lo) as (pa & Ea & Hpa).
    destruct (tickToSqrtPriceX96_total hi) as (pb & Eb & Hpb).
    rewrite Ea, Eb in Hcand.
    apply (getLiquidityForAmounts_nonneg _ _ _ _ _ _ Hcand);
      [apply Hpool; reflexivity | lia ..]. }
  split; [exact HL |]. cbv zeta.
  destruct (Z.eqb_spec (L * 99 ÷ 100) 0) as [| Hnz]; [reflexivity |].
  assert (0 <= L * 99 ÷ 100) by (apply Z.quot_pos; lia).
  assert (100 * (L * 99 ÷ 100) <= L * 99) by (apply Z.mul_quot_le; lia).
  split; [lia |]. split; [lia |].
  destruct (agentMintPosition _ _ _ _ _ _ _ _) as [w' [receipt | e]];
    eexists _, _; split; reflexivity.
Qed.

Lemma executeMintPosition_submits (s : State World) d lo hi a0 a1 r s' :
  executeMintPosition d lo hi a0 a1 s = (r, s') ->
  submitted s' = submitted s
  \/ exists liq dl, submitted s' = submitted s ++ [TxMint d lo hi liq a0 a1 dl].
Proof.
  rewrite executeMintPosition_run.
  destruct (candidateLiquidity _ _ _ _ _) as [L |].
  - cbv zeta. destruct (_ =? 0).
    + intros [= <- <-]. left; reflexivity.
    + destruct (agentMintPosition _ _ _ _ _ _ _ _) as [w' [receipt | e]];
        intros [= <- <-]; right; eexists _, _; reflexivity.
  - intros [= <- <-]. left; reflexivity.
Qed.

End ExecutorFacts.

Section ExecutorExamples.
Import Effects Types TxExecutor SimLedger.

(** A mint on the funded deposit submits liquidity 1424, 99% of 1439
    rounded down. *)
Lemma executeMintPosition_safety_margin_witness :
  candidateLiquidity fundedWorld (-202200) (-201000) 1000000
    500000000000000 = Ok 1439
  /\ submitted afterMint
     = [TxMint 1 (-202200) (-201000) 1424 1000000 500000000000000
          1700000300].
Proof.
  assert (Hpool : forall p,
            readPoolState (world (initialState fundedWorld)) = Ok p ->
            0 <= sqrtPriceX96 p).
  { intros p [= <-]. vm_compute. discriminate. }
  pose proof (executeMintPosition_safety_margin (initialState fundedWorld)
                1 (-202200) (-201000) 1000000 500000000000000
                ltac:(lia) ltac:(lia) Hpool) as Hmargin.
  assert (Hcand : candidateLiquidity (world (initialState fundedWorld))
                    (-202200) (-201000) 1000000 500000000000000 = Ok 1439)
    by (vm_compute; reflexivity).
  rewrite Hcand in Hmargin.
  destruct Hmargin as (_ & _ & _ & r & s' & Hrun & Hsub).
  split; [exact Hcand |].
  unfold afterMint. rewrite Hrun. exact Hsub.
Defined.


End ExecutorExamples.

(** ** The position-bounds cache *)

Section CacheFacts.
Import Effects Types TxExecutor.
Context {World : Type} `{LedgerLaws World}.








End CacheFacts.

Section SimLaws.
Import Effects Types TxExecutor SimLedger.

Lemma memId_elem_of tokenId ids :
  memId tokenId ids = true <-> tokenId ∈ (list_to_set ids : gset Z).
Proof.
  unfold memId. rewrite existsb_exists, elem_of_list_to_set. split.
  - intros (i & Hin & Heq). apply Z.eqb_eq in Heq. subst.
    apply list_elem_of_In. exact Hin.
  - intros Hin. exists tokenId. split; [apply list_elem_of_In; exact Hin |].
    apply Z.eqb_refl.
Qed.

Lemma removeId_set tokenId ids :
  (list_to_set (removeId tokenId ids) : gset Z)
  = list_to_set ids ∖ {[tokenId]}.
Proof.
  apply set_eq. intros i. unfold removeId.
  rewrite elem_of_difference, !elem_of_list_to_set, elem_of_singleton.
  rewrite !list_elem_of_In, filter_In, negb_true_iff, Z.eqb_neq.
  reflexivity.
Qed.

Lemma sim_mint_confirmed w d lo hi liq a0 a1 dl w' r :
  simMint w d lo hi liq a0 a1 dl = (w', Ok r) ->
  exists tokenId,
    (tokenId ∉ simOpenPositions w) /\
    (simOpenPositions w' = {[tokenId]} ∪ simOpenPositions w) /\
    (positionCreatedArg (logs r) = Some tokenId) /\
    (0 <= tokenId < 2 ^ 53).
Proof.
  unfold simMint, simOpenPositions.
  destruct (lookupDeposit d (sim_deposits w)); [| discriminate].
  destruct (memId (sim_nextTokenId w) (sim_open w)) eqn:Hmem; [discriminate |].
  destruct ((0 <=? sim_nextTokenId w) && (sim_nextTokenId w <? 2 ^ 53))
    eqn:Hrange; [| discriminate].
  intros [= <- <-]. exists (sim_nextTokenId w). simpl.
  apply andb_true_iff in Hrange as [Hlo Hhi].
  apply Z.leb_le in Hlo. apply Z.ltb_lt in Hhi.
  split; [| split; [reflexivity | split; [reflexivity | lia]]].
  rewrite <- memId_elem_of, Hmem. discriminate.
Qed.

Lemma sim_mint_failed w d lo hi liq a0 a1 dl w' e :
  simMint w d lo hi liq a0 a1 dl = (w', Throw e) ->
  simOpenPositions w' = simOpenPositions w.
Proof.
  unfold simMint.
  destruct (lookupDeposit d (sim_deposits w)); [| intros [= <- _]; reflexivity].
  destruct (memId _ _); [intros [= <- _]; reflexivity |].
  destruct (_ && _); [discriminate | intros [= <- _]; reflexivity].
Qed.

Lemma sim_close_confirmed w d tokenId m0 m1 dl w' r :
  simClose w d tokenId m0 m1 dl = (w', Ok r) ->
  (tokenId ∈ simOpenPositions w) /\
  (simOpenPositions w' = simOpenPositions w ∖ {[tokenId]}).
Proof.
  unfold simClose, simOpenPositions.
  destruct (memId tokenId (sim_open w)) eqn:Hmem; [| discriminate].
  intros [= <- _]. simpl. split; [apply memId_elem_of; exact Hmem |].
  apply removeId_set.
Qed.

Lemma sim_close_failed w d tokenId m0 m1 dl w' e :
  simClose w d tokenId m0 m1 dl = (w', Throw e) ->
  simOpenPositions w' = simOpenPositions w.
Proof.
  unfold simClose. destruct (memId _ _); [discriminate |].
  intros [= <- _]. reflexivity.
Qed.

#[export] Instance simLaws : LedgerLaws Sim := {|
  openPositions := simOpenPositions;
  mint_confirmed := sim_mint_confirmed;
  mint_failed := sim_mint_failed;
  close_confirmed := sim_close_confirmed;
  close_failed := sim_close_failed
|}.



Lemma afterMint_reachable :
  reachable (initialState fundedWorld) [Minted 100 (-202200) (-201000)]
    afterMint.
Proof.
  pose (run := executeMintPosition 1 (-202200) (-201000) 1000000
                 500000000000000 (initialState fundedWorld)).
  assert (Hstep : step (initialState fundedWorld)
                    (mintEvents (fst run) (-202200) (-201000)) (snd run))
    by (eapply step_mint; apply surjective_pairing).
  assert (Hev : mintEvents (fst run) (-202200) (-201000)
                = [Minted 100 (-202200) (-201000)])
    by (vm_compute; reflexivity).
  rewrite Hev in Hstep.
  exact (reachable_step _ [] _ _ _ (reachable_start _) Hstep).
Qed.

(** The other half fails on a shared ledger: this process minted
    position 100, another writer closed it; the entry stays. *)
Example cached_position_closed_elsewhere :
  let s := withWorld afterMint fundedWorld in
  reachable (initialState fundedWorld)
    [Minted 100 (-202200) (-201000); LedgerChanged] s
  /\ getCachedPositionTicks 100 s = Some (-202200, -201000)
  /\ 100 ∉ openPositions (world s).
Proof.
  cbv zeta. split.
  - exact (reachable_step _ _ _ _ _ afterMint_reachable
             (step_ledger afterMint fundedWorld)).
  - split; [vm_compute; reflexivity |].
    simpl. unfold simOpenPositions. simpl. set_solver.
Qed.

(** The cache is keyed by [Number(tokenId)]: above [2^53] the key is
    not the token id. *)
Example token_id_above_2_53_is_rounded :
  findPositionCreated
    [ParsedLog "PositionCreated" 1 9007199254740993]
  = Some 9007199254740992.
Proof. vm_compute. reflexivity. Qed.


End SimLaws.

(** ** The reconciliation poll *)

Section Watermark.
Import Effects Types EventListener.
Context {World : Type} `{ListenerOps World}.

(** What the two event loops leave untouched. *)
Lemma forEach_onDepositCreated depositLogs : forall s : State World,
  exists s',
    forEach onDepositCreated depositLogs s = (Ok tt, s')
    /\ world s' = world s /\ lastBlock s' = lastBlock s
    /\ queries s' = queries s /\ processed s' = processed s
    /\ errors s' = errors s.
Proof.
  induction depositLogs as [| el rest IH]; intros s; simpl.
  - exists s. repeat split.
  - unfold bind. destruct el as [args |]; simpl.
    + destruct (IH (snd (onDepositCreated (Some args) s)))
        as (s' & Hrun & Hw & Hlb & Hq & Hp & He).
      exists s'. simpl in *. repeat split; assumption.
    + exact (IH s).
Qed.

Lemma processImmediately_keeps depositId (s : State World) :
  exists s',
    processImmediately depositId s = (Ok tt, s')
    /\ lastBlock s' = lastBlock s /\ queries s' = queries s.
Proof.
  unfold processImmediately.
  destruct (processDeposit (world s) depositId) as [w' [[] | e]];
    eexists; repeat split.
Qed.

Lemma forEach_onAgentAssigned assignLogs : forall s : State World,
  exists s',
    forEach onAgentAssigned assignLogs s = (Ok tt, s')
    /\ lastBlock s' = lastBlock s /\ queries s' = queries s.
Proof.
  induction assignLogs as [| el rest IH]; intros s; simpl.
  - exists s. repeat split.
  - unfold bind. destruct el as [args |]; simpl; [| exact (IH s)].
    destruct (String.eqb _ _).
    + destruct (processImmediately_keeps (aa_depositId args) s)
        as (s1 & -> & Hlb & Hq).
      destruct (IH s1) as (s' & Hrun & Hlb' & Hq').
      exists s'. repeat split; congruence.
    + exact (IH s).
Qed.

(** C6, amended.  A poll never throws.  If the head cannot be read, the
    error is logged and the watermark stays.  Otherwise the watermark is
    first initialized to [max(0, currentHeight - 100)] while it is 0; if
    [currentHeight <= watermark] nothing else happens; otherwise the
    deposit-creation events are queried over [watermark + 1,
    currentHeight], and, when that query answers, the assignment events
    over the same window.  When both queries answer, the watermark
    advances to the head, whatever the immediate processing of assigned
    deposits did; when a query fails, the error is caught and logged and
    the watermark stays, so that the window is read again. *)
Theorem poll_watermark (s : State World) :
  exists s',
    poll s = (Ok tt, s')
    /\ match getBlockNumber (world s) with
       | Throw _ =>
           lastBlock s' = lastBlock s /\ queries s' = queries s
           /\ errors s' = errors s ++ ["Event poller error"]
       | Ok currentBlock =>
           let watermark := watermarkAt s currentBlock in
           let fromBlock := watermark + 1 in
           if currentBlock <=? watermark then
             s' = (if lastBlock s =? 0 then withLastBlock s watermark else s)
           else
             match queryDepositCreated (world s) fromBlock currentBlock,
                   queryAgentAssigned (world s) fromBlock currentBlock with
             | Ok _, Ok _ =>
                 lastBlock s' = currentBlock
                 /\ queries s' = queries s ++
                      [QueryDepositCreated fromBlock currentBlock;
                       QueryAgentAssigned fromBlock currentBlock]
             | Ok _, Throw _ =>
                 lastBlock s' = watermark
                 /\ queries s' = queries s ++
                      [QueryDepositCreated fromBlock currentBlock;
                       QueryAgentAssigned fromBlock currentBlock]
                 /\ errors s' = errors s ++ ["Event poller error"]
             | Throw _, _ =>
                 lastBlock s' = watermark
                 /\ queries s' = queries s ++
                      [QueryDepositCreated fromBlock currentBlock]
                 /\ errors s' = errors s ++ ["Event poller error"]
             end
       end.
Proof.
  unfold poll, tryCatch, pollBody, bind, readWorld.
  destruct (getBlockNumber (world s)) as [currentBlock | e]; simpl.
  2: { eexists. split; [reflexivity |]. repeat split. }
  unfold watermarkAt.
  set (s1 := snd ((if lastBlock s =? 0
                   then setLastBlock (Z.max 0 (currentBlock - 100))
                   else ret tt) s)).
  assert (Hs1 : (if lastBlock s =? 0
                 then setLastBlock (Z.max 0 (currentBlock - 100))
                 else ret tt) s = (Ok tt, s1)).
  { subst s1. destruct (lastBlock s =? 0); reflexivity. }
  rewrite Hs1.
  assert (Hw1 : world s1 = world s)
    by (subst s1; destruct (lastBlock s =? 0); reflexivity).
  assert (Hq1 : queries s1 = queries s)
    by (subst s1; destruct (lastBlock s =? 0); reflexivity).
  assert (He1 : errors s1 = errors s)
    by (subst s1; destruct (lastBlock s =? 0); reflexivity).
  assert (Hlb1 : lastBlock s1 = if lastBlock s =? 0
                                then Z.max 0 (currentBlock - 100)
                                else lastBlock s)
    by (subst s1; destruct (lastBlock s =? 0); reflexivity).
  assert (Hs1' : s1 = if lastBlock s =? 0
                      then withLastBlock s (Z.max 0 (currentBlock - 100))
                      else s)
    by (subst s1; destruct (lastBlock s =? 0); reflexivity).
  rewrite <- Hlb1. cbv zeta.
  destruct (currentBlock <=? lastBlock s1).
  { exists s1. split; [reflexivity |]. clear.
    subst s1. destruct (lastBlock s =? 0); reflexivity. }
  simpl. rewrite Hw1.
  destruct (queryDepositCreated (world s) (lastBlock s1 + 1) currentBlock)
    as [depositLogs | e]; simpl.
  2: { eexists. split; [reflexivity |]. simpl. rewrite Hq1, He1.
       repeat split. }
  match goal with
  | |- context [forEach onDepositCreated depositLogs ?s2] =>
      destruct (forEach_onDepositCreated depositLogs s2)
        as (s3 & -> & Hw3 & Hlb3 & Hq3 & Hp3 & He3)
  end.
  simpl in Hw3, Hlb3, Hq3, He3. simpl.
  rewrite Hw3; try rewrite Hw1.
  destruct (queryAgentAssigned (world s) (lastBlock s1 + 1) currentBlock)
    as [assignLogs | e]; simpl.
  2: { eexists. split; [reflexivity |]. simpl.
       rewrite Hlb3, Hq3, He3, Hq1, He1, <- app_assoc. repeat split. }
  match goal with
  | |- context [forEach onAgentAssigned assignLogs ?s4] =>
      destruct (forEach_onAgentAssigned assignLogs s4)
        as (s5 & -> & Hlb5 & Hq5)
  end.
  simpl in Hlb5, Hq5. eexists. split; [reflexivity |]. simpl.
  rewrite Hq5, Hq3, Hq1, <- app_assoc. repeat split.
Qed.
End Watermark.

Section WatermarkExamples.
Import Effects Types EventListener SimListener.

(** C6, as stated, fails when a query fails: at head 300 with the
    watermark at 200 and the deposit query unavailable, the error is
    caught and logged, and the watermark stays at 200. *)
Lemma watermark_stays_when_query_fails :
  getBlockNumber (world (stateAt queryDown 200)) = Ok 300
  /\ fst (poll (stateAt queryDown 200)) = Ok tt
  /\ lastBlock (snd (poll (stateAt queryDown 200))) = 200
  /\ errors (snd (poll (stateAt queryDown 200))) = ["Event poller error"].
Proof. repeat split. Qed.

(** Both queries answer and the immediate processing fails: the
    watermark still advances to the head. *)
Example watermark_advances_when_processing_fails :
  lastBlock (snd (poll (stateAt processingDown 200))) = 300
  /\ errors (snd (poll (stateAt processingDown 200)))
     = ["Immediate processing failed"].
Proof. repeat split. Qed.
End WatermarkExamples.

(** ** The confidence gate *)

Section ConfidenceGate.
Import Effects Types Agent.
Context {World : Type} `{AgentOps World}.

Lemma collectPositions_reads_only tokenIds :
  forall acc (s : State World), snd (collectPositions tokenIds acc s) = s.
Proof.
  induction tokenIds as [| tokenId rest IH]; intros acc s; simpl.
  - reflexivity.
  - unfold bind, readWorld.
    destruct (readPosition (world s) tokenId); [apply IH | reflexivity].
Qed.

Lemma requestValidationBeforeExecuting_calls info depositId decision
    (s : State World) :
  (confidence decision <? 60)%float = false ->
  exists new,
    calls (snd (requestValidationBeforeExecuting info depositId decision s))
      = calls s ++ new
    /\ Forall gateRespected new.
Proof.
  intros Hconf. unfold requestValidationBeforeExecuting.
  destruct (negb (actionIsHold (action decision))).
  - unfold tryCatch, bind, readWorld, callWorld, ret. simpl.
    destruct (requestValidation _ _ _ _) as [w' [h | e]]; simpl;
      eexists [_]; (split; [reflexivity |]);
      repeat constructor; exact Hconf.
  - exists []. rewrite app_nil_r. split; [reflexivity | constructor].
Qed.

Lemma submitResponseAfterExecuting_calls dataHash decision (s : State World) :
  exists new,
    calls (snd (submitResponseAfterExecuting dataHash decision s))
      = calls s ++ new
    /\ Forall gateRespected new.
Proof.
  unfold submitResponseAfterExecuting.
  destruct dataHash as [h |];
    [| exists []; rewrite app_nil_r; split; [reflexivity | constructor]].
  destruct (String.eqb h "");
    [exists []; rewrite app_nil_r; split; [reflexivity | constructor] |].
  unfold tryCatch, callWorld, ret.
  destruct (submitValidationResponse _ _ _) as [w' [[] | e]]; simpl;
    eexists [_]; (split; [reflexivity |]); repeat constructor.
Qed.

(** C9, amended.  In [processDeposit] of [src/agent.ts] the confidence
    gate with threshold 60 stands before validation and execution: every
    validation request and every [executeDecision] call it makes carries
    a decision whose confidence is not below 60, so that a decision with
    confidence < 60 is neither validated nor executed.  (The variant of
    [processDeposit] built on [analyzePool] has no such gate.) *)
Theorem processDeposit_confidence_gate (depositId : Z) (s : State World) :
  exists new,
    calls (snd (processDeposit depositId s)) = calls s ++ new
    /\ Forall gateRespected new
    /\ (forall decision,
          In (CallExecuteDecision depositId decision) new
          \/ (exists t, In (CallRequestValidation
                              {| vp_depositId := depositId;
                                 vp_decision := decision;
                                 vp_timestamp := t |}) new) ->
          (confidence decision <? 60)%float = false).
Proof.
  assert (Hgoal : exists new,
    calls (snd (processDeposit depositId s)) = calls s ++ new
    /\ Forall gateRespected new).
  { assert (Hnone : forall s0 : State World,
              calls s0 = calls s ->
              exists new, calls s0 = calls s ++ new /\ Forall gateRespected new).
    { intros s0 Hs0. exists []. rewrite app_nil_r.
      split; [exact Hs0 | constructor]. }
    unfold processDeposit, bind, readWorld, ret. simpl.
    destruct (agentInfo s) as [info |]; [| apply Hnone; reflexivity].
    destruct (readDeposit (world s) depositId) as [deposit |];
      [| apply Hnone; reflexivity].
    destruct (negb (String.eqb _ _)); [apply Hnone; reflexivity |].
    destruct (negb (status deposit =? 0)); [apply Hnone; reflexivity |].
    pose proof (collectPositions_reads_only (positionTokenIds deposit) [] s)
      as Hcp.
    destruct (collectPositions (positionTokenIds deposit) [] s)
      as [[existingPositions | e] s1]; simpl in Hcp; subst s1;
      [| apply Hnone; reflexivity].
    destruct (readPoolState (world s)) as [poolState |];
      [| apply Hnone; reflexivity].
    destruct ((0 <? length existingPositions)%nat
              && hasUnknownPositions existingPositions);
      [apply Hnone; reflexivity |].
    unfold askBackend.
    destruct (STRATEGY_MAP (strategy deposit)) as [st |];
      [| apply Hnone; reflexivity].
    unfold callWorld at 1.
    destruct (llmAnalyze _ _ _ _) as [w1 [decision | e]]; simpl;
      [| exists [CallAnalyze]; split; [reflexivity | repeat constructor]].
    destruct (confidence decision <? 60)%float eqn:Hconf; simpl;
      [exists [CallAnalyze]; split; [reflexivity | repeat constructor] |].
    match goal with
    | |- context [requestValidationBeforeExecuting info depositId decision ?s2] =>
        destruct (requestValidationBeforeExecuting_calls info depositId
                    decision s2 Hconf) as (new1 & Hc1 & Hf1);
        destruct (requestValidationBeforeExecuting info depositId decision s2)
          as [[dataHash | e] s3]; simpl in Hc1
    end.
    2: { exists (CallAnalyze :: new1). simpl. rewrite Hc1, <- app_assoc.
         split; [reflexivity | constructor; [exact I | exact Hf1]]. }
    unfold callWorld.
    destruct (executeDecision (world s3) depositId decision)
      as [w4 [res | e]]; simpl.
    2: { exists (CallAnalyze :: new1 ++ [CallExecuteDecision depositId decision]).
         rewrite Hc1, <- !app_assoc. split; [reflexivity |].
         constructor; [exact I |]. apply Forall_app. split; [exact Hf1 |].
         repeat constructor. exact Hconf. }
    match goal with
    | |- context [submitResponseAfterExecuting dataHash decision ?s5] =>
        destruct (submitResponseAfterExecuting_calls dataHash decision s5)
          as (new2 & Hc2 & Hf2)
    end.
    simpl in Hc2.
    exists (CallAnalyze :: new1 ++ [CallExecuteDecision depositId decision]
              ++ new2).
    rewrite Hc2, Hc1, <- !app_assoc. split; [reflexivity |].
    constructor; [exact I |]. apply Forall_app. split; [exact Hf1 |].
    constructor; [exact Hconf | exact Hf2]. }
  destruct Hgoal as (new & Hcalls & Hall). exists new.
  split; [exact Hcalls |]. split; [exact Hall |].
  intros decision [Hin | [t Hin]];
    rewrite Forall_forall in Hall;
    apply list_elem_of_In in Hin; exact (Hall _ Hin).
Qed.
End ConfidenceGate.

Section ConfidenceGateExamples.
Import Effects Types Agent SimAgent.

(** C9, as stated, fails for the variant of [processDeposit] built on
    [analyzePool]: a backend decision of confidence 30 that is not a
    parse failure is validated and executed. *)
Lemma fallback_variant_executes_low_confidence :
  (confidence hesitantMint <? 60)%float = true
  /\ calls (snd (AgentWithFallback.processDeposit 1 (ready hesitantWorld)))
     = [ CallAnalyze;
         CallRequestValidation {| vp_depositId := 1;
                                  vp_decision := hesitantMint;
                                  vp_timestamp := 1700000000000 |};
         CallExecuteDecision 1 hesitantMint;
         CallSubmitValidationResponse "0xhash" 30 ].
Proof. split; reflexivity. Qed.

Example gated_variant_skips_low_confidence :
  Agent.processDeposit 1 (ready hesitantWorld)
  = (Ok tt, {| world := hesitantWorld;
               agentInfo := agentInfo (ready hesitantWorld);
               calls := [CallAnalyze] |}).
Proof. reflexivity. Qed.
End ConfidenceGateExamples.

(** ** The reputation score *)

Section FloatFacts.
Lemma SFmul_comm x y : SFmul prec emax x y = SFmul prec emax y x.
Proof.
  destruct x as [sx | sx | | sx mx ex], y as [sy | sy | | sy my ey]; simpl;
    try reflexivity; try (rewrite xorb_comm; reflexivity).
  rewrite xorb_comm, Pos.mul_comm, Z.add_comm. reflexivity.
Qed.

Lemma float_mul_comm (x y : float) : (x * y = y * x)%float.
Proof.
  apply Prim2SF_inj. rewrite !mul_spec. apply SFmul_comm.
Qed.
End FloatFacts.

Section Reputation.
Import Effects Types JsNumber Erc8004.
Context {Chain Payload : Type} `{RegistryOps Chain Payload}.

Lemma collectFeedbackAuthorizations_run candidates a :
  forall acc (s : State Chain),
    collectFeedbackAuthorizations candidates a acc s
    = (Ok (acc ++ inboundAuthorizations (chain s) candidates a), s).
Proof.
  induction candidates as [| i rest IH]; intros acc s; simpl.
  - rewrite app_nil_r. reflexivity.
  - destruct (i =? a); [apply IH |].
    unfold bind, tryCatch, isFeedbackAuthorized, readChain, ret.
    destruct (reputationIsFeedbackAuthorized (chain s) i a)
      as [[[|] authId] | e]; simpl; rewrite IH; try reflexivity.
    rewrite <- app_assoc. reflexivity.
Qed.

Lemma mergeRequestLogs_appends knownHashes responseMap requestLogs :
  forall store,
    exists added,
      mergeRequestLogs knownHashes responseMap requestLogs store
      = store ++ added
      /\ Forall (mergedRecord knownHashes responseMap) added.
Proof.
  unfold mergeRequestLogs.
  induction requestLogs as [| el rest IH]; intros store; simpl.
  - exists []. rewrite app_nil_r. split; [reflexivity | constructor].
  - destruct el as [args |]; [| apply IH].
    destruct (decide (req_dataHash args ∈ knownHashes)) as [| Hnew];
      [apply IH |].
    match goal with
    | |- context [fold_left _ rest (store ++ [?r])] =>
        destruct (IH (store ++ [r])) as (added & -> & Hadded);
        exists (r :: added)
    end.
    rewrite <- app_assoc. split; [reflexivity |].
    constructor; [| exact Hadded].
    split; [exact Hnew |]. split; reflexivity.
Qed.

(** Merging a request log without repeated hash into a store without
    repeated hash leaves no repeated hash. *)
Lemma mergeRequestLogs_NoDup knownHashes responseMap requestLogs :
  forall store,
    NoDup (map dataHash store) ->
    NoDup (requestHashes requestLogs) ->
    (forall h, h ∈ map dataHash store ->
               h ∈ knownHashes \/ h ∉ requestHashes requestLogs) ->
    NoDup (map dataHash
             (mergeRequestLogs knownHashes responseMap requestLogs store)).
Proof.
  unfold mergeRequestLogs.
  induction requestLogs as [| el rest IH]; intros store Hstore Hlogs Hsep;
    simpl; [exact Hstore |].
  destruct el as [args |]; simpl in Hlogs, Hsep; [| apply IH; assumption].
  apply NoDup_cons in Hlogs as [Hfresh Hrest].
  assert (Hsep' : forall h, h ∈ map dataHash store ->
                    h ∈ knownHashes \/ h ∉ requestHashes rest).
  { intros h Hh. destruct (Hsep h Hh) as [Hk | Hn]; [left; exact Hk |].
    right. intros Hin. apply Hn. right. exact Hin. }
  destruct (decide (req_dataHash args ∈ knownHashes)) as [Hknown | Hnew];
    [apply IH; assumption |].
  apply IH; [| exact Hrest |].
  - rewrite map_app. apply NoDup_app. split; [exact Hstore |].
    split; [| apply NoDup_singleton].
    intros h Hh Hin. apply list_elem_of_singleton in Hin. subst h.
    destruct (Hsep _ Hh) as [Hk | Hn]; [contradiction |].
    apply Hn. left.
  - intros h Hh. rewrite map_app in Hh. apply elem_of_app in Hh as [Hh | Hh];
      [exact (Hsep' h Hh) |].
    apply list_elem_of_singleton in Hh. subst h. right. exact Hfresh.
Qed.

Lemma mergeOnChainEvents_guarded a (s : State Chain) :
  exists added,
    tryCatch (mergeOnChainEvents a) (fun _ => ret tt) s
    = (Ok tt, {| chain := chain s;
                 validationStore := validationStore s ++ added |})
    /\ (exists responseMap,
          Forall (mergedRecord (list_to_set (map dataHash (validationStore s)))
                    responseMap) added)
    /\ (NoDup (map dataHash (validationStore s)) ->
        (forall requestLogs,
           queryValidationRequestEvents (chain s) a = Ok requestLogs ->
           NoDup (requestHashes requestLogs)) ->
        NoDup (map dataHash (validationStore s ++ added))).
Proof.
  unfold tryCatch, mergeOnChainEvents, bind, readChain, modifyStore, ret.
  assert (Hnone : exists added,
    (Ok tt, s) = (Ok tt, {| chain := chain s;
                           validationStore := validationStore s ++ added |})
    /\ (exists responseMap : gmap string float,
          Forall (mergedRecord (list_to_set (map dataHash (validationStore s)))
                    responseMap) added)
    /\ (NoDup (map dataHash (validationStore s)) ->
        (forall requestLogs,
           queryValidationRequestEvents (chain s) a = Ok requestLogs ->
           NoDup (requestHashes requestLogs)) ->
        NoDup (map dataHash (validationStore s ++ added)))).
  { exists []. rewrite app_nil_r. destruct s; simpl.
    split; [reflexivity |]. split; [exists ∅; constructor |].
    intros Hstore _. exact Hstore. }
  destruct (queryValidationRequestEvents (chain s) a) as [requestLogs |] eqn:Hq;
    [| exact Hnone].
  destruct (queryValidationResponseEvents (chain s) a) as [responseLogs |];
    [| exact Hnone].
  destruct (mergeRequestLogs_appends
              (list_to_set (map dataHash (validationStore s)))
              (buildResponseMap responseLogs) requestLogs (validationStore s))
    as (added & Hmerge & Hadded).
  exists added. rewrite Hmerge. split; [reflexivity |].
  split; [exists (buildResponseMap responseLogs); exact Hadded |].
  intros Hstore Hlogs. rewrite <- Hmerge.
  apply mergeRequestLogs_NoDup;
    [exact Hstore | apply Hlogs; reflexivity |].
  intros h Hh. left. apply elem_of_list_to_set. exact Hh.
Qed.

Lemma mergeRequestLogs_pushes knownHashes responseMap requestLogs :
  forall store,
    mergeRequestLogs knownHashes responseMap requestLogs store
    = store ++ pushedRecords knownHashes responseMap requestLogs.
Proof.
  unfold mergeRequestLogs, pushedRecords.
  induction requestLogs as [| [args |] rest IH]; intros store; simpl.
  - rewrite app_nil_r. reflexivity.
  - destruct (decide (req_dataHash args ∈ knownHashes)); [apply IH |].
    rewrite IH, <- app_assoc. reflexivity.
  - apply IH.
Qed.

Lemma mergeOnChainEvents_pushes a (s : State Chain) :
  tryCatch (mergeOnChainEvents a) (fun _ => ret tt) s
  = (Ok tt,
     {| chain := chain s;
        validationStore :=
          validationStore s
          ++ match queryValidationRequestEvents (chain s) a,
                   queryValidationResponseEvents (chain s) a with
             | Ok requestLogs, Ok responseLogs =>
                 pushedRecords (list_to_set (map dataHash (validationStore s)))
                   (buildResponseMap responseLogs) requestLogs
             | _, _ => []
             end |}).
Proof.
  unfold tryCatch, mergeOnChainEvents, bind, readChain, modifyStore, ret.
  destruct (queryValidationRequestEvents (chain s) a) as [requestLogs |];
    [| rewrite app_nil_r; destruct s; reflexivity].
  destruct (queryValidationResponseEvents (chain s) a) as [responseLogs |];
    [| rewrite app_nil_r; destruct s; reflexivity].
  rewrite mergeRequestLogs_pushes. reflexivity.
Qed.

Lemma meanOrZero_spec records :
  meanOrZero (omap score records) = ReputationSpec.averageScore records.
Proof.
  unfold meanOrZero, ReputationSpec.averageScore.
  destruct (omap score records); reflexivity.
Qed.

Lemma filter_responded_length (records : list ValidationRecord) :
  length (filter (fun v => responded v = true) records)
  = length (List.filter responded records).
Proof.
  induction records as [| r rest IH]; [reflexivity |]. simpl.
  rewrite filter_cons. destruct (responded r) eqn:Hr.
  - rewrite decide_True by reflexivity. simpl. rewrite IH. reflexivity.
  - rewrite decide_False by discriminate. exact IH.
Qed.

(** The score formula.  When the agent's identity and the agent count
    can be read, [getAgentReputation] returns, and its [reputationScore]
    is 50 for an agent with no validation record and no feedback
    authorization, and otherwise [round(0.6*averageScore +
    0.2*responseRatePercent + 0.2*trustRatioPercent)], where
    [averageScore] is the mean of the non-null scores of the records,
    [responseRatePercent] is responded over total times 100 (0 without
    records) and [trustRatioPercent] is the number of inbound feedback
    authorizations over [max(totalAgents - 1, 1)] times 100.  The
    records are those of the agent in the store after the merge.  The
    merge pushes one record for each on-chain request event whose hash
    was not in the store before the merge, so a hash that the request
    log repeats is pushed once per event, and the records the store
    already had stay, repeated hashes included.  Only when the store
    had no repeated hash and the request log has none does the store
    have none after the merge. *)
Theorem getAgentReputation_score (s : State Chain) (a : Z) info totalAgents :
  getAgent (chain s) a = Ok info ->
  getAgentCount (chain s) = Ok totalAgents ->
  exists rep s',
    getAgentReputation a s = (Ok rep, s')
    /\ chain s' = chain s
    /\ validationStore s'
       = validationStore s
         ++ match queryValidationRequestEvents (chain s) a,
                  queryValidationResponseEvents (chain s) a with
            | Ok requestLogs, Ok responseLogs =>
                pushedRecords (list_to_set (map dataHash (validationStore s)))
                  (buildResponseMap responseLogs) requestLogs
            | _, _ => []
            end
    /\ (exists added responseMap,
          validationStore s' = validationStore s ++ added
          /\ Forall (mergedRecord
                       (list_to_set (map dataHash (validationStore s)))
                       responseMap) added)
    /\ (NoDup (map dataHash (validationStore s)) ->
        (forall requestLogs,
           queryValidationRequestEvents (chain s) a = Ok requestLogs ->
           NoDup (requestHashes requestLogs)) ->
        NoDup (map dataHash (validationStore s')))
    /\ let records := filter (fun r => agentId r = a) (validationStore s') in
       let authorizations :=
         inboundAuthorizations (chain s) (seqZ 1 totalAgents) a in
       feedbackAuthorizations rep = authorizations
       /\ totalValidations rep = length records
       /\ reputationScore rep
          = ReputationSpec.reputationScore records (length authorizations)
              totalAgents
       /\ (records = [] -> authorizations = [] ->
           reputationScore rep = 50%float).
Proof.
  intros Hinfo Hcount.
  destruct (mergeOnChainEvents_guarded a s)
    as (added & Hmerge & (rm & Hadded) & Hnodup).
  pose proof (mergeOnChainEvents_pushes a s) as Hpushes.
  rewrite Hmerge in Hpushes. injection Hpushes as Hpushes.
  unfold getAgentReputation, bind, getTotalAgents.
  unfold readChain at 1 2. rewrite Hinfo, Hcount, Hmerge.
  cbv beta iota. rewrite collectFeedbackAuthorizations_run. simpl.
  eexists _, _. split; [reflexivity |]. simpl.
  split; [reflexivity |].
  split; [exact Hpushes |].
  split; [exists added, rm; split; [reflexivity | exact Hadded] |].
  split; [exact Hnodup |].
  set (records := filter (fun r => agentId r = a) (validationStore s ++ added)).
  set (auths := inboundAuthorizations (chain s) (seqZ 1 totalAgents) a).
  split; [reflexivity |]. split; [reflexivity |].
  split.
  - unfold ReputationSpec.reputationScore.
    rewrite meanOrZero_spec.
    unfold ReputationSpec.trustRatioPercent.
    destruct records as [| r rest] eqn:Hrec; [destruct auths |];
      [reflexivity | |];
      cbn [length Nat.eqb andb Nat.ltb Nat.leb];
      unfold ReputationSpec.responseRatePercent;
      rewrite ?filter_responded_length;
      rewrite (float_mul_comm 0.6), !(float_mul_comm 0.2);
      reflexivity.
  - intros Hr Ha. rewrite Hr, Ha. reflexivity.
Qed.
End Reputation.

Section ReputationExamples.
Import Effects Types JsNumber Erc8004 SimRegistry.

(** C7.  The reputation score is to be computed from the agent's
    validation records deduplicated by hash, and the merge of the
    on-chain events is commented "dedup by dataHash"; the code does not
    do so on a request log that repeats a hash.  With an empty store,
    the request event for "0xaa" (answered 90) twice in the log and the
    one for "0xbb" (answered 40) once, the store gets three records,
    "0xaa" twice, and the score is round(0.6 * 220/3 + 20) = 64, where
    the records deduplicated by hash, "0xaa" and "0xbb", give
    round(0.6 * 65 + 20) = 59. *)
Lemma repeated_hash_is_counted_twice :
  map dataHash
      (recordsOf 2 (snd (getAgentReputation 2 (initialState repeatingChain))))
  = ["0xaa"; "0xaa"; "0xbb"]
  /\ scoreOf (fst (getAgentReputation 2 (initialState repeatingChain)))
     = Some 64%float
  /\ map dataHash
         (ReputationSpec.dedupByHash
            (recordsOf 2
               (snd (getAgentReputation 2 (initialState repeatingChain)))))
     = ["0xaa"; "0xbb"]
  /\ ReputationSpec.reputationScore
       (ReputationSpec.dedupByHash
          (recordsOf 2
             (snd (getAgentReputation 2 (initialState repeatingChain)))))
       0 3
     = 59%float.
Proof. repeat split; vm_compute; reflexivity. Qed.

(** The store's own records can repeat a hash as well: two requests
    with one payload push two records, the answer marks the first only, and
    the score is round(0.6 * 80 + 0.2 * 50) = 58, where the records
    deduplicated by hash give round(0.6 * 80 + 0.2 * 100) = 68. *)
Example repeated_request_is_counted_twice :
  map dataHash (recordsOf 2 afterRepeatedRequest) = ["p1"; "p1"]
  /\ map responded (recordsOf 2 afterRepeatedRequest) = [true; false]
  /\ scoreOf (fst (getAgentReputation 2 afterRepeatedRequest))
     = Some 58%float
  /\ ReputationSpec.reputationScore
       (ReputationSpec.dedupByHash (recordsOf 2 afterRepeatedRequest)) 0 3
     = 68%float.
Proof. repeat split; vm_compute; reflexivity. Qed.

(** One record scored 90 and responded, one authorization among three
    agents: 54 + 20 + 10 = 84; and Scenario D: no validation record and
    no authorization, 50. *)
Lemma getAgentReputation_score_witness :
  (exists rep,
     fst (getAgentReputation 2 (initialState busyChain)) = Ok rep
     /\ map dataHash (validationStore
                        (snd (getAgentReputation 2 (initialState busyChain))))
        = ["0xaa"]
     /\ totalValidations rep = 1%nat
     /\ reputationScore rep = 84%float)
  /\ (exists rep,
        fst (getAgentReputation 2 (initialState quietChain)) = Ok rep
        /\ reputationScore rep = 50%float).
Proof.
  pose (info := {| ai_agentId := 2; ai_domain := "balanced.liqu";
                   ai_address :=
                     "0x6c52aAD1Cbb66C0f666b62b36261d2f2205A8607" |}).
  split.
  - assert (Hinfo : getAgent (chain (initialState busyChain)) 2 = Ok info)
      by reflexivity.
    assert (Hcount : getAgentCount (chain (initialState busyChain)) = Ok 3)
      by reflexivity.
    destruct (getAgentReputation_score (initialState busyChain) 2 info 3
                Hinfo Hcount)
      as (rep & s' & Hrun & _ & Hstore & _ & _ & _ & Htotal & Hscore & _).
    exists rep. rewrite Hrun. split; [reflexivity |].
    cbn [snd]. rewrite Htotal, Hscore, Hstore.
    split; [| split]; vm_compute; reflexivity.
  - assert (Hinfo : getAgent (chain (initialState quietChain)) 2 = Ok info)
      by reflexivity.
    assert (Hcount : getAgentCount (chain (initialState quietChain)) = Ok 3)
      by reflexivity.
    destruct (getAgentReputation_score (initialState quietChain) 2 info 3
                Hinfo Hcount)
      as (rep & s' & Hrun & _ & Hstore & _ & _ & _ & _ & _ & Hfifty).
    exists rep. rewrite Hrun. split; [reflexivity |].
    apply Hfifty; [rewrite Hstore |]; reflexivity.
Defined.

(** One record scored 90 and responded, one authorization among three
    agents: 54 + 20 + 10. *)
Example getAgentReputation_busy :
  exists rep s',
    getAgentReputation 2 (initialState busyChain) = (Ok rep, s')
    /\ reputationScore rep = 84%float.
Proof. eexists _, _. split; reflexivity. Qed.

End ReputationExamples.

(** ** The validation record store *)

Section StoreInvariant.
Import Effects Types JsNumber Erc8004.
Context {Chain Payload : Type} `{RegistryOps Chain Payload}.

Lemma firstWith_app h store added :
  firstWith h (store ++ added)
  = match firstWith h store with
    | Some r => Some r
    | None => firstWith h added
    end.
Proof.
  unfold firstWith. induction store as [| r rest IH]; simpl; [reflexivity |].
  destruct (String.eqb (dataHash r) h); [reflexivity | exact IH].
Qed.

Lemma firstWith_hash h store r :
  firstWith h store = Some r -> dataHash r = h /\ In r store.
Proof.
  unfold firstWith. intros Hf. apply find_some in Hf as [Hin Heq].
  apply String.eqb_eq in Heq. split; assumption.
Qed.

Lemma firstWith_none h store :
  firstWith h store = None -> forall r, In r store -> dataHash r <> h.
Proof.
  unfold firstWith. intros Hf r Hin Heq.
  pose proof (find_none _ _ Hf r Hin) as Hn. simpl in Hn.
  rewrite Heq, String.eqb_refl in Hn. discriminate.
Qed.

Lemma storeInv_nil : storeInv [].
Proof. split; [constructor | intros r []]. Qed.

(** [requestValidation] appends a record with no score, not responded. *)
Lemma storeInv_request store r :
  storeInv store -> score r = None -> responded r = false ->
  storeInv (store ++ [r]).
Proof.
  intros [Hsc Hfirst] Hscore Hresp. split.
  - apply Forall_app. split; [exact Hsc |]. repeat constructor.
    unfold scored. rewrite Hscore, Hresp. reflexivity.
  - intros r' Hin Hr'. apply in_app_or in Hin as [Hin | [<- | []]];
      [| congruence].
    destruct (Hfirst r' Hin Hr') as (r1 & Hf & Hr1).
    exists r1. rewrite firstWith_app, Hf. split; [reflexivity | exact Hr1].
Qed.

Lemma recordResponse_In h sc store r :
  In r (recordResponse h sc store) ->
  In r store \/ (dataHash r = h /\ score r = Some sc /\ responded r = true).
Proof.
  induction store as [| r0 rest IH]; simpl; [intros [] |].
  destruct (String.eqb (dataHash r0) h) eqn:Heq.
  - intros [<- | Hin]; [| left; right; exact Hin].
    right. simpl. apply String.eqb_eq in Heq. repeat split; assumption.
  - intros [<- | Hin]; [left; left; reflexivity |].
    destruct (IH Hin) as [Hin' | Hnew]; [left; right; exact Hin' |].
    right; exact Hnew.
Qed.

Lemma firstWith_recordResponse h sc store h' :
  firstWith h' (recordResponse h sc store)
  = match firstWith h' store with
    | Some r =>
        if String.eqb h' h
        then Some {| dataHash := dataHash r; agentId := agentId r;
                     validatorId := validatorId r; score := Some sc;
                     responded := true; timestamp := timestamp r |}
        else Some r
    | None => None
    end.
Proof.
  unfold firstWith. induction store as [| r0 rest IH]; simpl; [reflexivity |].
  destruct (String.eqb (dataHash r0) h) eqn:Hh; simpl.
  - apply String.eqb_eq in Hh.
    destruct (String.eqb (dataHash r0) h') eqn:Hh'.
    + apply String.eqb_eq in Hh'.
      assert (E : String.eqb h' h = true)
        by (apply String.eqb_eq; congruence).
      rewrite E. reflexivity.
    + assert (E : String.eqb h' h = false).
      { apply String.eqb_neq. apply String.eqb_neq in Hh'. congruence. }
      rewrite E. destruct (List.find _ rest); reflexivity.
  - destruct (String.eqb (dataHash r0) h') eqn:Hh'.
    + apply String.eqb_eq in Hh'.
      assert (E : String.eqb h' h = false).
      { apply String.eqb_neq. apply String.eqb_neq in Hh. congruence. }
      rewrite E. reflexivity.
    + exact IH.
Qed.

Lemma recordResponse_absent h sc store :
  firstWith h store = None -> recordResponse h sc store = store.
Proof.
  unfold firstWith. induction store as [| r0 rest IH]; simpl; [reflexivity |].
  destruct (String.eqb (dataHash r0) h); [discriminate |].
  intros Hf. rewrite (IH Hf). reflexivity.
Qed.

(** [submitValidationResponse] sets the score and the flag together. *)
Lemma storeInv_response h sc store :
  storeInv store -> storeInv (recordResponse h sc store).
Proof.
  intros [Hsc Hfirst]. split.
  - rewrite Forall_forall in *. intros r Hin.
    apply list_elem_of_In, recordResponse_In in Hin as [Hin | (_ & Hs & Hr)].
    + apply Hsc, list_elem_of_In, Hin.
    + unfold scored. rewrite Hs, Hr. reflexivity.
  - intros r Hin Hr. rewrite firstWith_recordResponse.
    pose proof Hin as Hin0.
    destruct (firstWith (dataHash r) store) as [r0 |] eqn:Hf.
    + destruct (String.eqb (dataHash r) h) eqn:Heq;
        [eexists; split; reflexivity |].
      exists r0. split; [reflexivity |].
      apply recordResponse_In in Hin as [Hin | (Hh & _ & _)].
      * destruct (Hfirst r Hin Hr) as (r1 & Hf1 & Hr1). congruence.
      * apply String.eqb_neq in Heq. contradiction.
    + exfalso.
      apply recordResponse_In in Hin as [Hin | (Hh & _ & _)].
      * exact (firstWith_none _ _ Hf r Hin eq_refl).
      * assert (Hsame : recordResponse h sc store = store)
          by (apply recordResponse_absent; rewrite <- Hh; exact Hf).
        rewrite Hsame in Hin0.
        exact (firstWith_none _ _ Hf r Hin0 eq_refl).
Qed.

Lemma firstWith_found h store r :
  In r store -> dataHash r = h -> exists r1, firstWith h store = Some r1.
Proof.
  intros Hin Hh. destruct (firstWith h store) as [r1 |] eqn:Hf;
    [exists r1; reflexivity |].
  exfalso. exact (firstWith_none _ _ Hf r Hin Hh).
Qed.

(** The merge of on-chain events marks a record responded exactly when a
    response score was found for its hash. *)
Lemma storeInv_merge store responseMap added :
  storeInv store ->
  Forall (mergedRecord (list_to_set (map dataHash store)) responseMap) added ->
  storeInv (store ++ added).
Proof.
  intros [Hsc Hfirst] Hadded. split.
  - apply Forall_app. split; [exact Hsc |].
    eapply Forall_impl; [exact Hadded |]. intros r (_ & _ & Hr). exact Hr.
  - intros r Hin Hr. rewrite firstWith_app.
    apply in_app_or in Hin as [Hin | Hin].
    + destruct (Hfirst r Hin Hr) as (r1 & -> & Hr1). exists r1.
      split; [reflexivity | exact Hr1].
    + rewrite Forall_forall in Hadded.
      destruct (Hadded r (proj2 (list_elem_of_In _ _) Hin))
        as (Hnew & Hscore & Hresp).
      destruct (firstWith (dataHash r) store) as [r0 |] eqn:Hf0.
      { exfalso. apply Hnew. apply firstWith_hash in Hf0 as [Hh0 Hin0].
        apply elem_of_list_to_set, list_elem_of_In, in_map_iff.
        exists r0. split; assumption. }
      destruct (firstWith_found (dataHash r) added r Hin eq_refl)
        as (r1 & Hf1).
      exists r1. split; [exact Hf1 |].
      apply firstWith_hash in Hf1 as [Hh1 Hin1].
      destruct (Hadded r1 (proj2 (list_elem_of_In _ _) Hin1))
        as (_ & Hscore1 & Hresp1).
      rewrite Hresp1, Hscore1, Hh1, <- Hscore, <- Hresp. exact Hr.
Qed.

Lemma requestValidation_store v a payload (s : State Chain) r s' :
  requestValidation v a payload s = (r, s') ->
  match r with
  | Ok h =>
      exists rec,
        validationStore s' = validationStore s ++ [rec]
        /\ dataHash rec = h /\ score rec = None /\ responded rec = false
  | Throw _ => validationStore s' = validationStore s
  end.
Proof.
  unfold requestValidation, bind, sendValidationRequest, readChain,
    modifyStore, ret.
  destruct (validationRequest _ _ _ _) as [c' [[] | e]]; simpl;
    intros [= <- <-]; simpl; [| reflexivity].
  eexists. split; [reflexivity |]. repeat split.
Qed.

Lemma submitValidationResponse_store h sc (s : State Chain) r s' :
  submitValidationResponse h sc s = (r, s') ->
  validationStore s' =
    match r with
    | Ok _ => recordResponse h sc (validationStore s)
    | Throw _ => validationStore s
    end.
Proof.
  unfold submitValidationResponse, bind, sendValidationResponse, modifyStore.
  destruct (validationResponse _ _ _) as [c' [[] | e]]; simpl;
    intros [= <- <-]; reflexivity.
Qed.

Lemma getAgentReputation_store a (s : State Chain) r s' :
  getAgentReputation a s = (r, s') ->
  exists added responseMap,
    validationStore s' = validationStore s ++ added
    /\ Forall (mergedRecord (list_to_set (map dataHash (validationStore s)))
                 responseMap) added.
Proof.
  assert (Hnone : exists added (responseMap : gmap string float),
            validationStore s = validationStore s ++ added
            /\ Forall (mergedRecord
                         (list_to_set (map dataHash (validationStore s)))
                         responseMap) added).
  { exists [], ∅. rewrite app_nil_r. split; [reflexivity | constructor]. }
  destruct (mergeOnChainEvents_guarded a s)
    as (added & Hmerge & (rm & Hadded) & _).
  unfold getAgentReputation, bind, getTotalAgents.
  unfold readChain at 1 2.
  destruct (getAgent (chain s) a) as [info |];
    [| intros [= <- <-]; exact Hnone].
  destruct (getAgentCount (chain s)) as [totalAgents |];
    [| intros [= <- <-]; exact Hnone].
  rewrite Hmerge. cbv beta iota.
  rewrite collectFeedbackAuthorizations_run. simpl.
  intros [= <- <-]. simpl. exists added, rm. split; [reflexivity | exact Hadded].
Qed.

Lemma getValidationStatus_reads_only h (s : State Chain) :
  snd (getValidationStatus h s) = s.
Proof.
  unfold getValidationStatus.
  destruct (List.find _ (validationStore s)) as [record |].
  - destruct (responded record); reflexivity.
  - unfold bind, readChain, ret.
    destruct (isValidationPending (chain s) h) as [[[|] [|]] | e];
      simpl; try reflexivity.
    destruct (getValidationResponse (chain s) h); reflexivity.
Qed.

Lemma storeInv_step (s s' : State Chain) :
  storeInv (validationStore s) -> step s s' -> storeInv (validationStore s').
Proof.
  intros Hinv Hstep.
  destruct Hstep as [v a p s r s' Hrun | h sc s r s' Hrun | a s r s' Hrun
                     | h s r s' Hrun].
  - apply requestValidation_store in Hrun. destruct r as [h |].
    + destruct Hrun as (rec & -> & _ & Hs & Hr).
      apply storeInv_request; assumption.
    + rewrite Hrun. exact Hinv.
  - apply submitValidationResponse_store in Hrun. rewrite Hrun.
    destruct r; [apply storeInv_response |]; exact Hinv.
  - apply getAgentReputation_store in Hrun as (added & rm & -> & Hadded).
    eapply storeInv_merge; eassumption.
  - pose proof (getValidationStatus_reads_only h s) as Hs.
    rewrite Hrun in Hs. simpl in Hs. subst s'. exact Hinv.
Qed.

Lemma storeInv_reachable c0 (s : State Chain) :
  reachable (initialState c0) s -> storeInv (validationStore s).
Proof.
  induction 1 as [| s s' _ IH Hstep]; [apply storeInv_nil |].
  exact (storeInv_step _ _ IH Hstep).
Qed.

(** C10. At every state reached from module load, every record of the
    validation store with [responded = true] has a score and every
    record with [responded = false] has none.  The invariant is
    established by [requestValidation], which appends a record without
    score and not responded, and preserved by
    [submitValidationResponse], which sets score and flag together, and
    by the merge of on-chain events in [getAgentReputation], which marks
    a record responded exactly when a response score was found.
    Consequently [getValidationStatus] on the hash of a responded
    in-memory record returns RESPONDED with a score. *)
Theorem validation_store_invariant (c0 : Chain) (s : State Chain) :
  reachable (initialState c0) s ->
  (forall r, In r (validationStore s) ->
     (responded r = true -> exists sc, score r = Some sc)
     /\ (responded r = false -> score r = None))
  /\ (forall r, In r (validationStore s) -> responded r = true ->
        exists sc,
          getValidationStatus (dataHash r) s
          = (Ok {| vs_status := "RESPONDED"; vs_score := Some sc |}, s))
  /\ (forall v a payload h s',
        requestValidation v a payload s = (Ok h, s') ->
        exists rec,
          validationStore s' = validationStore s ++ [rec]
          /\ dataHash rec = h /\ score rec = None /\ responded rec = false)
  /\ (forall h sc s',
        submitValidationResponse h sc s = (Ok tt, s') ->
        validationStore s' = recordResponse h sc (validationStore s))
  /\ (forall a r s',
        getAgentReputation a s = (r, s') ->
        exists added,
          validationStore s' = validationStore s ++ added
          /\ Forall (fun rec =>
                       responded rec = match score rec with
                                       | Some _ => true
                                       | None => false
                                       end) added).
Proof.
  intros Hreach. destruct (storeInv_reachable _ _ Hreach) as [Hsc Hfirst].
  split; [| split; [| split; [| split]]].
  - intros r Hin. rewrite Forall_forall in Hsc.
    specialize (Hsc r (proj2 (list_elem_of_In _ _) Hin)). unfold scored in Hsc.
    destruct (score r) as [sc |]; split; intros Hr;
      try congruence; try (exists sc; reflexivity).
  - intros r Hin Hr. destruct (Hfirst r Hin Hr) as (r1 & Hf & Hr1).
    pose proof (firstWith_hash _ _ _ Hf) as [_ Hin1].
    rewrite Forall_forall in Hsc.
    specialize (Hsc r1 (proj2 (list_elem_of_In _ _) Hin1)).
    unfold scored in Hsc. rewrite Hr1 in Hsc.
    destruct (score r1) as [sc |] eqn:Hscore; [| discriminate].
    exists sc. unfold getValidationStatus. unfold firstWith in Hf.
    rewrite Hf, Hr1, Hscore. reflexivity.
  - intros v a payload h s' Hrun.
    exact (requestValidation_store _ _ _ _ _ _ Hrun).
  - intros h sc s' Hrun.
    exact (submitValidationResponse_store _ _ _ _ _ Hrun).
  - intros a r s' Hrun.
    destruct (getAgentReputation_store _ _ _ _ Hrun) as (added & rm & Hst & Hadded).
    exists added. split; [exact Hst |].
    eapply Forall_impl; [exact Hadded |]. intros rec (_ & _ & Hr). exact Hr.
Qed.
End StoreInvariant.

Section StoreExamples.
Import Effects Types JsNumber Erc8004 SimRegistry.

(** After a request answered with 80, the status of its hash is
    RESPONDED with a score. *)
Lemma validation_store_invariant_witness :
  exists sc,
    getValidationStatus "p1" afterResponse
    = (Ok {| vs_status := "RESPONDED"; vs_score := Some sc |}, afterResponse).
Proof.
  assert (Hreach : reachable (initialState quietChain) afterResponse).
  { eapply reachable_step;
      [eapply reachable_step; [apply reachable_start |] |].
    - eapply step_request. apply surjective_pairing.
    - eapply step_response. apply surjective_pairing. }
  destruct (validation_store_invariant quietChain afterResponse Hreach)
    as (_ & Hstatus & _).
  apply (Hstatus {| dataHash := "p1"; agentId := 2; validatorId := 2;
                    score := Some 80%float; responded := true;
                    timestamp := 1700000000000 |}).
  - left. reflexivity.
  - reflexivity.
Defined.

End StoreExamples.

(* ===================================================================== *)
(** * Further properties of the code *)
(* ===================================================================== *)

(** ** The price of a tick and the liquidity of two balances *)

Section PriceAndLiquidity.
Import Effects Types TxExecutor.

(** The conversion from Q128 to Q96 rounds up. *)
Lemma q128_to_q96_bounds ratio lo hi :
  1 <= lo -> lo * 2 ^ 32 - (2 ^ 32 - 1) <= ratio <= hi * 2 ^ 32 ->
  lo <= Z.shiftr ratio 32
        + (if Z.rem ratio (Z.shiftl 1 32) >? 0 then 1 else 0) <= hi.
Proof.
  intros Hlo [H1 H2]. rewrite Z.shiftr_div_pow2 by lia.
  change (Z.shiftl 1 32) with (2 ^ 32).
  rewrite Z.rem_mod_nonneg by lia.
  pose proof (Z.div_mod ratio (2 ^ 32) ltac:(lia)) as Hdm.
  pose proof (Z.mod_pos_bound ratio (2 ^ 32) ltac:(lia)) as Hm.
  destruct (Z.gtb_spec (ratio mod 2 ^ 32) 0); lia.
Qed.

(** X1. [tickToSqrtPriceX96] always returns.  For a tick that is not
    positive the price is between 1 and 2^96 (the Q96 value of 1.0); for
    a positive tick it is between 2^96 and 2^192. *)
Theorem tickToSqrtPriceX96_range (tick : Z) :
  exists p,
    tickToSqrtPriceX96 tick = Ok p
    /\ (tick <= 0 -> 1 <= p <= Q96)
    /\ (0 < tick -> Q96 <= p <= 2 ^ 192).
Proof.
  pose proof (tickRatio_bounds tick) as [Hlo Hhi].
  unfold tickToSqrtPriceX96, Q96. change (Z.shiftl 1 96) with (2 ^ 96).
  destruct (Z.gtb_spec tick 0) as [Hpos | Hneg].
  - unfold bigDiv. destruct (Z.eqb_spec (tickRatio tick) 0); [lia |].
    eexists. split; [reflexivity |]. split; [lia |]. intros _.
    apply q128_to_q96_bounds; [lia |].
    assert (H256 : 2 ^ 256 - 1 = (2 ^ 128 - 1) * 2 ^ 128 + (2 ^ 128 - 1))
      by (vm_compute; reflexivity).
    split.
    + etransitivity; [| apply Z.quot_le_lower_bound with (q := 2 ^ 128 - 1)];
        [vm_compute; discriminate | lia |].
      rewrite H256. nia.
    + apply Z.quot_le_upper_bound; [lia |].
      assert (2 ^ 256 - 1 <= 2 ^ 192 * 2 ^ 32 * 2 ^ 32)
        by (vm_compute; discriminate).
      nia.
  - eexists. split; [reflexivity |]. split; [| lia]. intros _.
    apply q128_to_q96_bounds; [lia |].
    split; [| exact Hhi]. etransitivity; [| exact Hlo].
    vm_compute; discriminate.
Qed.

Lemma quot_mul_le_mono x x' c d :
  0 <= x <= x' -> 0 <= c -> 0 < d -> x * c ÷ d <= x' * c ÷ d.
Proof.
  intros [Hx Hxx] Hc Hd. apply Z.quot_le_mono; [lia | nia].
Qed.

Lemma getLiquidityForAmount0_mono a b x x' L :
  0 <= a -> 0 <= b -> 0 <= x <= x' ->
  getLiquidityForAmount0 a b x = Ok L ->
  exists L', getLiquidityForAmount0 a b x' = Ok L' /\ L <= L'.
Proof.
  intros Ha Hb Hx. unfold getLiquidityForAmount0. rewrite sortBounds_sorted.
  rewrite (bigDiv_nonzero _ Q96) by (pose proof Q96_pos; lia).
  unfold bigDiv. destruct (Z.eqb_spec (Z.max a b - Z.min a b) 0);
    [discriminate |].
  intros [= <-]. eexists. split; [reflexivity |].
  apply quot_mul_le_mono; [exact Hx | | lia].
  apply Z.quot_pos; [| apply Q96_pos]. apply Z.mul_nonneg_nonneg; lia.
Qed.

Lemma getLiquidityForAmount1_mono a b y y' L :
  0 <= y <= y' ->
  getLiquidityForAmount1 a b y = Ok L ->
  exists L', getLiquidityForAmount1 a b y' = Ok L' /\ L <= L'.
Proof.
  intros Hy. unfold getLiquidityForAmount1. rewrite sortBounds_sorted.
  unfold bigDiv. destruct (Z.eqb_spec (Z.max a b - Z.min a b) 0);
    [discriminate |].
  intros [= <-]. eexists. split; [reflexivity |].
  apply quot_mul_le_mono; [exact Hy | pose proof Q96_pos; lia | lia].
Qed.

(** X2. More of either token never gives less liquidity: with
    non-negative prices, if [getLiquidityForAmounts] returns [L] for the
    balances [amount0], [amount1], it returns some [L' >= L] for any
    balances that are at least as large. *)
Theorem getLiquidityForAmounts_monotone
    (sqrtPriceX96 a b amount0 amount1 amount0' amount1' L : Z) :
  0 <= sqrtPriceX96 -> 0 <= a -> 0 <= b ->
  0 <= amount0 <= amount0' -> 0 <= amount1 <= amount1' ->
  getLiquidityForAmounts sqrtPriceX96 a b amount0 amount1 = Ok L ->
  exists L',
    getLiquidityForAmounts sqrtPriceX96 a b amount0' amount1' = Ok L'
    /\ L <= L'.
Proof.
  intros HP Ha Hb Hx Hy. unfold getLiquidityForAmounts.
  rewrite sortBounds_sorted.
  destruct (sqrtPriceX96 <=? Z.min a b).
  - apply getLiquidityForAmount0_mono; lia.
  - destruct (sqrtPriceX96 <? Z.max a b).
    + destruct (getLiquidityForAmount0 sqrtPriceX96 (Z.max a b) amount0)
        as [l0 |] eqn:H0; [| discriminate].
      destruct (getLiquidityForAmount1 (Z.min a b) sqrtPriceX96 amount1)
        as [l1 |] eqn:H1; [| discriminate].
      apply (getLiquidityForAmount0_mono _ _ _ amount0') in H0
        as (l0' & -> & Hl0); [| lia ..].
      apply (getLiquidityForAmount1_mono _ _ _ amount1') in H1
        as (l1' & -> & Hl1); [| lia].
      intros [= <-]. eexists. split; [reflexivity |].
      destruct (Z.ltb_spec l0 l1), (Z.ltb_spec l0' l1'); lia.
    + apply getLiquidityForAmount1_mono; lia.
Qed.

(** At the sample pool price inside [-202200, -201000]: doubling token0
    and adding to token1 takes the liquidity from 1439 to at least as
    much. *)
Lemma getLiquidityForAmounts_monotone_witness :
  exists L',
    getLiquidityForAmounts 3323502368798229010155612
      3223902454699589507672865 3423247179824975857681740
      2000000 600000000000000 = Ok L'
    /\ 1439 <= L'.
Proof.
  apply (getLiquidityForAmounts_monotone 3323502368798229010155612
           3223902454699589507672865 3423247179824975857681740
           1000000 500000000000000 2000000 600000000000000 1439);
    try lia.
  vm_compute. reflexivity.
Defined.

(** The candidate liquidity when the side the price calls for is
    empty. *)
Lemma getLiquidityForAmounts_empty_side P a b x y :
  a <> b -> 0 <= P -> 0 <= a -> 0 <= b -> 0 <= x -> 0 <= y ->
  (P <= Z.min a b -> x = 0)
  /\ (Z.max a b <= P -> y = 0)
  /\ (Z.min a b < P < Z.max a b -> x = 0 \/ y = 0) ->
  getLiquidityForAmounts P a b x y = Ok 0.
Proof.
  intros Hne HP Ha Hb Hx Hy (Hbelow & Habove & Hin).
  unfold getLiquidityForAmounts. rewrite sortBounds_sorted.
  destruct (Z.leb_spec P (Z.min a b)) as [Hle |].
  - rewrite (Hbelow Hle).
    rewrite getLiquidityForAmount0_sorted by lia. reflexivity.
  - destruct (Z.ltb_spec P (Z.max a b)) as [Hlt | Hge].
    + rewrite getLiquidityForAmount0_sorted by lia.
      rewrite getLiquidityForAmount1_sorted by lia.
      assert (H0 : 0 <= x * (P * Z.max a b ÷ Q96) ÷ (Z.max a b - P)).
      { apply Z.quot_pos; [| lia]. apply Z.mul_nonneg_nonneg; [lia |].
        apply Z.quot_pos; [nia | apply Q96_pos]. }
      assert (H1 : 0 <= y * Q96 ÷ (P - Z.min a b)).
      { apply Z.quot_pos; [| lia]. pose proof Q96_pos. nia. }
      destruct (Hin ltac:(lia)) as [-> | ->].
      * rewrite Z.mul_0_l, Z.quot_0_l by lia.
        destruct (Z.ltb_spec 0 (y * Q96 ÷ (P - Z.min a b)));
          [reflexivity | f_equal; lia].
      * rewrite Z.mul_0_l, Z.quot_0_l by lia.
        rewrite Z.mul_0_l, Z.quot_0_l in H1 by lia.
        destruct (Z.ltb_spec (x * (P * Z.max a b ÷ Q96) ÷ (Z.max a b - P)) 0);
          [lia | reflexivity].
    + rewrite (Habove Hge).
      rewrite getLiquidityForAmount1_sorted by lia. reflexivity.
Qed.
End PriceAndLiquidity.

(** ** Mints that are never sent *)

Section SkippedMints.
Import Effects Types TxExecutor.
Context {World : Type} `{WorldOps World}.

(** X3. A mint for which the side of the range the pool price calls for
    is empty is not sent: with the pool price at or below the range and
    no token0, at or above the range and no token1, or inside the range
    and either balance empty, the computed liquidity is 0 and
    [executeMintPosition] returns [undefined], leaving ledger, cache and
    submissions as they were. *)
Theorem executeMintPosition_empty_side (s : State World)
    (depositId tickLower tickUpper amount0Max amount1Max : Z)
    (poolState : PoolState) (sqrtPriceA sqrtPriceB : Z) :
  readPoolState (world s) = Ok poolState ->
  0 <= sqrtPriceX96 poolState ->
  tickToSqrtPriceX96 tickLower = Ok sqrtPriceA ->
  tickToSqrtPriceX96 tickUpper = Ok sqrtPriceB ->
  sqrtPriceA <> sqrtPriceB ->
  0 <= amount0Max -> 0 <= amount1Max ->
  (sqrtPriceX96 poolState <= Z.min sqrtPriceA sqrtPriceB -> amount0Max = 0)
  /\ (Z.max sqrtPriceA sqrtPriceB <= sqrtPriceX96 poolState -> amount1Max = 0)
  /\ (Z.min sqrtPriceA sqrtPriceB < sqrtPriceX96 poolState
        < Z.max sqrtPriceA sqrtPriceB ->
      amount0Max = 0 \/ amount1Max = 0) ->
  executeMintPosition depositId tickLower tickUpper amount0Max amount1Max s
  = (Ok None, s).
Proof.
  intros Hpool HP HA HB Hne H0 H1 Hside.
  rewrite executeMintPosition_run. unfold candidateLiquidity.
  rewrite Hpool, HA, HB.
  destruct (tickToSqrtPriceX96_total tickLower) as (pa & Ea & Hpa).
  destruct (tickToSqrtPriceX96_total tickUpper) as (pb & Eb & Hpb).
  assert (pa = sqrtPriceA) by congruence.
  assert (pb = sqrtPriceB) by congruence. subst pa pb.
  rewrite getLiquidityForAmounts_empty_side by (try assumption; lia).
  reflexivity.
Qed.


End SkippedMints.

Section SkippedMintsExamples.
Import Effects Types TxExecutor SimLedger.

(** The sample pool is inside [-202200, -201000]; a deposit holding
    token1 only is not minted. *)
Lemma executeMintPosition_empty_side_witness :
  executeMintPosition 1 (-202200) (-201000) 0 500000000000000
    (initialState fundedWorld)
  = (Ok None, initialState fundedWorld).
Proof.
  apply (executeMintPosition_empty_side (initialState fundedWorld)
           1 (-202200) (-201000) 0 500000000000000 samplePool
           3223902454699589507672865 3423247179824975857681740).
  - reflexivity.
  - vm_compute. discriminate.
  - vm_compute. reflexivity.
  - vm_compute. reflexivity.
  - vm_compute. discriminate.
  - lia.
  - lia.
  - split; [| split].
    + intros Hle. vm_compute in Hle. exfalso. apply Hle. reflexivity.
    + intros Hle. vm_compute in Hle. exfalso. apply Hle. reflexivity.
    + intros _. left. reflexivity.
Defined.
End SkippedMintsExamples.

(** ** Decisions handed to the executor *)

Section DecisionFacts.
Import Effects Types TxExecutor TxDecision.
Context {World : Type} `{WorldOps World}.

Lemma uncached_nil (s : State World) : uncached [] s s.
Proof.
  intros t. destruct (decide (t ∈ [])) as [Hin |]; [| reflexivity].
  apply elem_of_nil in Hin. contradiction.
Qed.

Lemma uncached_cons tokenId ids (s s1 s2 : State World) :
  positionTickCache s1 = delete tokenId (positionTickCache s) ->
  uncached ids s1 s2 -> uncached (tokenId :: ids) s s2.
Proof.
  intros H1 H2 t. rewrite (H2 t). unfold getCachedPositionTicks. rewrite H1.
  destruct (decide (t ∈ ids)) as [Hin | Hnin].
  - rewrite decide_True by (right; exact Hin). reflexivity.
  - destruct (decide (t = tokenId)) as [-> | Hne].
    + rewrite decide_True by left. apply lookup_delete_eq.
    + rewrite decide_False.
      * apply lookup_delete_ne. congruence.
      * intros Hin. apply elem_of_cons in Hin as [? | ?]; contradiction.
Qed.

Lemma closesOf_length d reqs ids :
  TxExecutor.closesOf d reqs ids -> length reqs = length ids.
Proof. apply Forall2_length. Qed.

(** The CLOSE loop, by its outcome. *)
Lemma closeEachHash_run d ids : forall acc (s : State World),
  match closeEachHash d ids acc s with
  | (Ok txHashes, sc) =>
      exists hs reqs,
        txHashes = acc ++ hs /\ length hs = length ids
        /\ submitted sc = submitted s ++ reqs
        /\ TxExecutor.closesOf d reqs ids
        /\ uncached ids s sc
  | (Throw e, sc) =>
      exists closed failing rest reqs,
        ids = closed ++ failing :: rest
        /\ submitted sc = submitted s ++ reqs
        /\ TxExecutor.closesOf d reqs (closed ++ [failing])
        /\ uncached closed s sc
  end.
Proof.
  induction ids as [| tokenId ids IH]; intros acc s; simpl.
  - exists [], []. rewrite !app_nil_r.
    split; [reflexivity |]. split; [reflexivity |]. split; [reflexivity |].
    split; [constructor | apply uncached_nil].
  - unfold bind. rewrite executeClosePosition_run. cbv zeta.
    destruct (agentClosePosition _ _ _ _ _ _) as [w' [receipt | e]].
    + match goal with
      | |- context [closeEachHash d ids ?acc' ?s1] =>
          specialize (IH acc' s1);
          destruct (closeEachHash d ids acc' s1) as [[txHashes | e] sc];
          simpl in IH
      end.
      * destruct IH as (hs & reqs & -> & Hlen & Hsub & Hreqs & Hun).
        eexists (_ :: hs), (_ :: reqs).
        split; [rewrite <- app_assoc; reflexivity |].
        split; [simpl; rewrite Hlen; reflexivity |].
        split; [rewrite Hsub, <- app_assoc; reflexivity |].
        split; [constructor; [eexists; reflexivity | exact Hreqs] |].
        eapply uncached_cons; [| exact Hun]. reflexivity.
      * destruct IH as (closed & failing & rest & reqs & -> & Hsub & Hreqs & Hun).
        exists (tokenId :: closed), failing, rest. eexists (_ :: reqs).
        split; [reflexivity |].
        split; [rewrite Hsub, <- app_assoc; reflexivity |].
        split; [constructor; [eexists; reflexivity | exact Hreqs] |].
        eapply uncached_cons; [| exact Hun]. reflexivity.
    + exists [], tokenId, ids. eexists [_].
      split; [reflexivity |]. split; [reflexivity |].
      split; [repeat constructor; eexists; reflexivity |].
      intros t. simpl. destruct (decide (t ∈ [])) as [Hin |]; [| reflexivity].
      apply elem_of_nil in Hin. contradiction.
Qed.

(** What a mint that returned tells about the submissions. *)
Lemma executeMintPosition_returned (s : State World) d lo hi a0 a1 m s' :
  executeMintPosition d lo hi a0 a1 s = (Ok m, s') ->
  match m with
  | Some _ => exists req, submitted s' = submitted s ++ [req]
  | None => s' = s
  end.
Proof.
  rewrite executeMintPosition_run.
  destruct (candidateLiquidity _ _ _ _ _) as [L |]; [| discriminate].
  cbv zeta. destruct (_ =? 0); [intros [= <- <-]; reflexivity |].
  destruct (agentMintPosition _ _ _ _ _ _ _ _) as [w' [receipt | e]];
    [| discriminate].
  intros [= <- <-]. eexists. reflexivity.
Qed.

(** X4. Whenever [executeDecision] returns, its result lists one
    transaction hash for each request the call submitted to the ledger;
    a result with action SKIP or HOLD comes with no submission at
    all. *)
Theorem executeDecision_hashes_account (s : State World)
    (depositId : Z) (decision : Decision) (res : ExecutionResult)
    (s' : State World) :
  executeDecision depositId decision s = (Ok res, s') ->
  exists reqs,
    submitted s' = submitted s ++ reqs
    /\ length (x_txHashes res) = length reqs
    /\ (x_action res = "SKIP" \/ x_action res = "HOLD" -> reqs = []).
Proof.
  assert (Hnone : forall (st : State World), exists reqs : list TxRequest,
            submitted st = submitted st ++ reqs
            /\ length (@nil string) = length reqs
            /\ (True -> reqs = [])).
  { intros st. exists []. rewrite app_nil_r. repeat split. }
  unfold executeDecision, bind, getDepositInfo.
  destruct (readDeposit (world s) depositId) as [deposit |]; [| discriminate].
  destruct decision as [a lo hi rsn conf]; simpl.
  destruct a.
  - (* MINT *)
    destruct lo as [lo |], hi as [hi |];
      try (intros [= <- <-]; simpl; destruct (Hnone s) as (r & ? & ? & ?);
           exists r; repeat split; auto; fail).
    destruct ((amount0Remaining deposit =? 0) && (amount1Remaining deposit =? 0)).
    { intros [= <- <-]; simpl. destruct (Hnone s) as (r & ? & ? & ?).
      exists r; repeat split; auto. }
    destruct (executeMintPosition _ _ _ _ _ _) as [[m | e] s1] eqn:Hmint;
      [| discriminate].
    apply executeMintPosition_returned in Hmint.
    destruct m as [m |]; intros [= <- <-]; simpl.
    + destruct Hmint as (req & Hsub). exists [req].
      split; [exact Hsub |]. split; [reflexivity |].
      intros [? | ?]; discriminate.
    + subst s1. destruct (Hnone s) as (r & ? & ? & ?).
      exists r; repeat split; auto.
  - (* CLOSE *)
    pose proof (closeEachHash_run depositId (positionTokenIds deposit) [] s)
      as Hrun.
    destruct (closeEachHash _ _ _ s) as [[txHashes | e] sc]; [| discriminate].
    destruct Hrun as (hs & reqs & -> & Hlen & Hsub & Hreqs & _).
    intros [= <- <-]; simpl. exists reqs.
    split; [exact Hsub |].
    split; [rewrite Hlen; symmetry; exact (closesOf_length _ _ _ Hreqs) |].
    intros [? | ?]; discriminate.
  - (* HOLD *)
    intros [= <- <-]; simpl. destruct (Hnone s) as (r & ? & ? & ?).
    exists r; repeat split; auto.
  - (* REBALANCE *)
    destruct lo as [lo |], hi as [hi |];
      try (intros [= <- <-]; simpl; destruct (Hnone s) as (r & ? & ? & ?);
           exists r; repeat split; auto; fail).
    rewrite executeRebalance_run.
    destruct (readDeposit (world s) depositId) as [dep0 |]; [| discriminate].
    destruct (closeEach depositId (positionTokenIds dep0) [] s)
      as [[closes | e] sc] eqn:Hclose; [| discriminate].
    apply closeEach_confirmed in Hclose
      as (cl & reqs & Hcl & Hids & Hsub & Hreqs).
    simpl in Hcl. subst cl.
    assert (Hlen : length (map cr_txHash closes) = length reqs).
    { rewrite length_map, <- (length_map cr_tokenId), Hids.
      symmetry. exact (Forall2_length _ _ _ Hreqs). }
    destruct (readDeposit (world sc) depositId) as [dep1 |]; [| discriminate].
    destruct ((amount0Remaining dep1 =? 0) && (amount1Remaining dep1 =? 0)).
    { intros [= <- <-]; simpl. exists reqs.
      split; [exact Hsub |]. split; [exact Hlen |].
      intros [? | ?]; discriminate. }
    destruct (executeMintPosition _ _ _ _ _ _) as [[m | e] s1] eqn:Hmint;
      [| discriminate].
    apply executeMintPosition_returned in Hmint.
    destruct m as [m |]; intros [= <- <-]; simpl.
    + destruct Hmint as (req & Hsub1). exists (reqs ++ [req]).
      split; [rewrite Hsub1, Hsub, <- app_assoc; reflexivity |].
      split; [rewrite !length_app, Hlen; reflexivity |].
      intros [? | ?]; discriminate.
    + subst s1. exists reqs.
      split; [exact Hsub |]. split; [exact Hlen |].
      intros [? | ?]; discriminate.
Qed.

(** X5. [executeDecision] sends nothing to the ledger for a HOLD
    decision, nor for a MINT or REBALANCE decision that lacks one of its
    two ticks: once the deposit has been read, it returns the decision's
    own action with no transaction hash, and leaves ledger, cache and
    submissions as they were.  (When the deposit cannot be read, the
    read's error is thrown, also for HOLD.) *)
Theorem executeDecision_without_ticks (s : State World)
    (depositId : Z) (decision : Decision) :
  d_action decision = HOLD
  \/ (d_action decision <> CLOSE
      /\ (d_tickLower decision = None \/ d_tickUpper decision = None)) ->
  executeDecision depositId decision s
  = (match readDeposit (world s) depositId with
     | Ok _ =>
         Ok {| x_action := actionName (d_action decision);
               x_txHashes := [];
               x_newTokenId := None;
               x_tickLower := None;
               x_tickUpper := None |}
     | Throw e => Throw e
     end, s).
Proof.
  intros Hcase. unfold executeDecision, bind, getDepositInfo.
  destruct (readDeposit (world s) depositId) as [deposit |]; [| reflexivity].
  destruct decision as [a lo hi rsn conf]; simpl in *.
  destruct Hcase as [-> | [Hnc [-> | ->]]]; [reflexivity | |].
  - destruct a; try reflexivity. contradiction.
  - destruct a, lo; try reflexivity; contradiction.
Qed.


End DecisionFacts.

Section DecisionExamples.
Import Effects Types TxExecutor TxDecision SimLedger SimDecision.

(** A MINT decision on the funded deposit: one submission, one hash. *)
Lemma executeDecision_hashes_account_witness :
  exists reqs,
    submitted (snd (executeDecision 1
                      (decide MINT (Some (-202200)) (Some (-201000)))
                      (initialState fundedWorld)))
    = submitted (initialState fundedWorld) ++ reqs
    /\ length ["0xmint"] = length reqs
    /\ ("MINT" = "SKIP" \/ "MINT" = "HOLD" -> reqs = []).
Proof.
  apply (executeDecision_hashes_account (initialState fundedWorld) 1
           (decide MINT (Some (-202200)) (Some (-201000)))
           {| x_action := "MINT"; x_txHashes := ["0xmint"];
              x_newTokenId := Some 100;
              x_tickLower := Some (-202200);
              x_tickUpper := Some (-201000) |}).
  vm_compute. reflexivity.
Defined.

(** A MINT decision without its upper tick is answered with action MINT
    and no transaction. *)
Lemma executeDecision_without_ticks_witness :
  executeDecision 1 (decide MINT (Some (-202200)) None)
    (initialState fundedWorld)
  = (Ok {| x_action := "MINT"; x_txHashes := []; x_newTokenId := None;
           x_tickLower := None; x_tickUpper := None |},
     initialState fundedWorld).
Proof.
  rewrite (executeDecision_without_ticks (initialState fundedWorld) 1
             (decide MINT (Some (-202200)) None)).
  - reflexivity.
  - right. split; [discriminate | right; reflexivity].
Defined.


End DecisionExamples.

(** ** The reply of the advisory backend *)

Section FloatOrder.

Lemma SFcompare_antisym x y :
  SFcompare y x = option_map CompOpp (SFcompare x y).
Proof.
  destruct x as [sx | sx | | sx mx ex], y as [sy | sy | | sy my ey]; simpl;
    try reflexivity;
    try (destruct sx; reflexivity);
    try (destruct sy; reflexivity);
    try (destruct sx, sy; reflexivity).
  change (PosDef.Pos.compare_cont Eq my mx) with (Pos.compare my mx).
  change (PosDef.Pos.compare_cont Eq mx my) with (Pos.compare mx my).
  rewrite (Z.compare_antisym ex ey), (Pos.compare_antisym mx my).
  destruct sx, sy; try reflexivity;
    destruct (ex ?= ey)%Z; simpl; try reflexivity;
    destruct (mx ?= my)%positive; reflexivity.
Qed.

(** [x <= y] excludes [y < x]. *)
Lemma float_leb_not_gt (x y : float) :
  (x <=? y)%float = true -> (y <? x)%float = false.
Proof.
  rewrite FloatAxioms.leb_spec, FloatAxioms.ltb_spec. unfold SFleb, SFltb.
  rewrite (SFcompare_antisym (Prim2SF x) (Prim2SF y)).
  destruct (SFcompare (Prim2SF x) (Prim2SF y)) as [[| |] |]; simpl;
    congruence.
Qed.

(** When [x <= y] fails, so does [x < y]. *)
Lemma float_not_leb_not_lt (x y : float) :
  (x <=? y)%float = false -> (x <? y)%float = false.
Proof.
  rewrite FloatAxioms.leb_spec, FloatAxioms.ltb_spec. unfold SFleb, SFltb.
  destruct (SFcompare (Prim2SF x) (Prim2SF y)) as [[| |] |]; congruence.
Qed.

Lemma SFcompare_defined x y :
  SFcompare x x <> None -> SFcompare y y <> None -> SFcompare x y <> None.
Proof.
  destruct x as [sx | sx | | sx mx ex], y as [sy | sy | | sy my ey]; simpl;
    congruence.
Qed.

(** Two numbers that are not NaN are comparable. *)
Lemma float_total (x y : float) :
  is_nan x = false -> is_nan y = false ->
  (x <=? y)%float = false -> (y <=? x)%float = true.
Proof.
  unfold is_nan. rewrite !FloatAxioms.eqb_spec, !FloatAxioms.leb_spec. unfold SFeqb, SFleb.
  intros Hx Hy.
  assert (Hxy : SFcompare (Prim2SF x) (Prim2SF y) <> None).
  { apply SFcompare_defined.
    - destruct (SFcompare (Prim2SF x) (Prim2SF x)); [congruence | discriminate].
    - destruct (SFcompare (Prim2SF y) (Prim2SF y)); [congruence | discriminate]. }
  rewrite (SFcompare_antisym (Prim2SF x) (Prim2SF y)).
  destruct (SFcompare (Prim2SF x) (Prim2SF y)) as [[| |] |]; simpl;
    congruence.
Qed.
End FloatOrder.

Section ReplyFacts.
Import Effects JsNumber Types GeminiAnalyzer.

Lemma orderTicks_ordered (decision : PositionDecision) lo hi :
  tickLower (orderTicks decision) = Some lo ->
  tickUpper (orderTicks decision) = Some hi ->
  (hi <? lo)%float = false
  /\ (is_nan lo = false -> is_nan hi = false -> (lo <=? hi)%float = true).
Proof.
  unfold orderTicks.
  destruct (tickLower decision) as [l |] eqn:Hl;
    [| intros Hlo; rewrite Hl in Hlo; discriminate].
  destruct (tickUpper decision) as [u |] eqn:Hu;
    [| intros _ Hhi; rewrite Hu in Hhi; discriminate].
  destruct (u <=? l)%float eqn:Hul; simpl.
  - intros [= <-] [= <-]. split.
    + apply float_leb_not_gt. exact Hul.
    + intros _ _. exact Hul.
  - rewrite Hl, Hu. intros [= <-] [= <-]. split.
    + apply float_not_leb_not_lt. exact Hul.
    + intros Hn1 Hn2. apply float_total; assumption.
Qed.

(** X8. What [analyzePoolWithGemini] returns never has its lower tick
    above its upper tick: if both ticks are present, [tickLower >
    tickUpper] is false, and [tickLower <= tickUpper] holds unless a tick
    is NaN; the two may be equal.  The ticks of a parsed reply are
    [Math.floor(t / 60) * 60] of the reply's ticks, exchanged when the
    first was not below the second; its action, reason and confidence
    are returned as they came.  For integer ticks below [2^40] in
    magnitude the returned ticks are multiples of 60: the largest ones
    not above the ticks of the reply.  That does not hold for every
    number the parse accepts: [10^21] comes back as it is, and it is no
    multiple of 60; NaN stays NaN.  When the request or the parse
    throws, the result is HOLD with confidence 0 and the reason "Failed
    to parse LLM response".  [analyzePoolWithKimi] treats its reply in
    the same way. *)
Theorem analyzePoolWithGemini_ticks_ordered (reply : Result PositionDecision) :
  let d := analyzePoolWithGemini reply in
  (forall lo hi,
     tickLower d = Some lo -> tickUpper d = Some hi ->
     (hi <? lo)%float = false
     /\ (is_nan lo = false -> is_nan hi = false -> (lo <=? hi)%float = true))
  /\ (forall raw,
        reply = Ok raw ->
        let lo := option_map (fun t => alignTick t 60) (tickLower raw) in
        let hi := option_map (fun t => alignTick t 60) (tickUpper raw) in
        action d = action raw /\ reason d = reason raw
        /\ confidence d = confidence raw
        /\ ((tickLower d = lo /\ tickUpper d = hi)
            \/ (tickLower d = hi /\ tickUpper d = lo
                /\ exists l u, lo = Some l /\ hi = Some u
                               /\ (u <=? l)%float = true)))
  /\ (forall raw zl zu,
        reply = Ok raw ->
        tickLower raw = Some (of_Z zl) -> tickUpper raw = Some (of_Z zu) ->
        Z.abs zl < 2 ^ 40 -> Z.abs zu < 2 ^ 40 ->
        exists lo hi : Z,
          tickLower d = Some (of_Z lo) /\ tickUpper d = Some (of_Z hi)
          /\ lo mod 60 = 0 /\ hi mod 60 = 0
          /\ ((lo = 60 * (zl / 60) /\ hi = 60 * (zu / 60))
              \/ (lo = 60 * (zu / 60) /\ hi = 60 * (zl / 60))))
  /\ (forall z, Z.abs z < 2 ^ 40 ->
        alignTick (of_Z z) 60 = of_Z (60 * (z / 60)))
  /\ (alignTick (of_Z (10 ^ 21)) 60 = of_Z (10 ^ 21)
      /\ (10 ^ 21) mod 60 = 40
      /\ is_nan (alignTick nan 60) = true)
  /\ (forall e,
        reply = Throw e ->
        action d = HOLD /\ tickLower d = None /\ tickUpper d = None
        /\ confidence d = 0%float
        /\ reason d = "Failed to parse LLM response")
  /\ analyzePoolWithKimi reply = d.
Proof.
  assert (Halign : forall z, Z.abs z < 2 ^ 40 ->
            alignTick (of_Z z) 60 = of_Z (60 * (z / 60))).
  { intros z Hz. unfold alignTick. apply floor_to_multiple_of_60. exact Hz. }
  intros d. split; [| split; [| split; [| split; [| split; [| split]]]]].
  - subst d. destruct reply as [raw | e]; simpl.
    + apply orderTicks_ordered.
    + discriminate.
  - intros raw -> lo hi. subst d lo hi.
    destruct raw as [a [l |] [u |] r c]; simpl; unfold orderTicks; simpl;
      try (repeat split; left; split; reflexivity).
    destruct (alignTick u 60 <=? alignTick l 60)%float eqn:Hul; simpl.
    + repeat split. right. repeat split. eexists _, _.
      repeat split. exact Hul.
    + repeat split. left. split; reflexivity.
  - intros raw zl zu -> Hl Hu Hzl Hzu. subst d.
    destruct raw as [a l u r c]. cbn [tickLower tickUpper] in Hl, Hu.
    subst l u. unfold analyzePoolWithGemini, alignTicks, orderTicks.
    cbn [tickLower tickUpper withTicks option_map].
    rewrite !Halign by assumption.
    pose proof (multiple_of_60_below zl) as [Hml _].
    pose proof (multiple_of_60_below zu) as [Hmu _].
    destruct (of_Z (60 * (zu / 60)) <=? of_Z (60 * (zl / 60)))%float;
      cbn [tickLower tickUpper withTicks].
    + exists (60 * (zu / 60)), (60 * (zl / 60)).
      repeat split; try assumption. right. split; reflexivity.
    + exists (60 * (zl / 60)), (60 * (zu / 60)).
      repeat split; try assumption. left. split; reflexivity.
  - exact Halign.
  - split; [vm_compute; reflexivity |]. split; reflexivity.
  - intros e ->. subst d. simpl. repeat split.
  - reflexivity.
Qed.
End ReplyFacts.

Section ReplyExamples.
Import Effects JsNumber Types GeminiAnalyzer SimReply.

(** Ticks 630 and -610 come back as [-660, 600]; ticks 100 and 110 come
    back as the zero-width range [60, 60]. *)
Lemma analyzePoolWithGemini_ticks_ordered_witness :
  (tickLower (analyzePoolWithGemini (Ok invertedReply)) = Some (-660)%float
   /\ tickUpper (analyzePoolWithGemini (Ok invertedReply)) = Some 600%float
   /\ (600 <? -660)%float = false)
  /\ (tickLower (analyzePoolWithGemini (Ok narrowReply)) = Some 60%float
      /\ tickUpper (analyzePoolWithGemini (Ok narrowReply)) = Some 60%float
      /\ (60 <=? 60)%float = true).
Proof.
  split.
  - destruct (analyzePoolWithGemini_ticks_ordered (Ok invertedReply))
      as [Hord _].
    destruct (Hord (-660)%float 600%float eq_refl eq_refl) as [Hgt _].
    split; [reflexivity |]. split; [reflexivity | exact Hgt].
  - destruct (analyzePoolWithGemini_ticks_ordered (Ok narrowReply))
      as [Hord _].
    destruct (Hord 60%float 60%float eq_refl eq_refl) as [_ Hle].
    split; [reflexivity |]. split; [reflexivity |].
    apply Hle; reflexivity.
Defined.
End ReplyExamples.

(** ** The provider switch and its fallback *)

Section ProviderFallback.
Import Effects JsNumber JsString Types Config LlmAnalyzer Agent
  AgentWithFallback.
Context {World : Type} `{AgentOps World}.

(** The fallback decision is neither of confidence 0 nor marked as a
    parse failure. *)
Lemma getFallbackDecision_acceptable poolState strategy existingPositions :
  let d := getFallbackDecision poolState strategy existingPositions in
  (confidence d =? 0)%float = false
  /\ includes "Failed to parse" (reason d) = false.
Proof.
  unfold getFallbackDecision.
  destruct (length existingPositions =? 0)%nat; [split; reflexivity |].
  destruct (existsb _ existingPositions); split; reflexivity.
Qed.

(** X9. For a strategy of the table, [analyzePool] always returns a
    decision, after exactly one request to the configured provider: the
    provider's decision when the provider returned one whose confidence
    is not 0 and whose reason does not contain "Failed to parse", and
    the fallback decision in every other case (such a reply, or a
    provider that throws).  So the decision it returns never has
    confidence 0 and never carries the parse-failure reason; in
    particular the HOLD of confidence 0 by which [analyzePoolWithGemini]
    reports a failed parse is always replaced by the fallback. *)
Theorem analyzePool_replaces_failures (poolState : PoolAnalysis)
    (strategy : StrategyName) (existingPositions : list ExistingPosition)
    (s : State World) :
  let fallback := getFallbackDecision poolState strategy existingPositions in
  let answer := llmAnalyze (world s) poolState strategy existingPositions in
  exists d,
    analyzePool poolState (Some strategy) existingPositions s
    = (Ok d, {| world := fst answer; agentInfo := agentInfo s;
                calls := calls s ++ [CallAnalyze] |})
    /\ (confidence d =? 0)%float = false
    /\ includes "Failed to parse" (reason d) = false
    /\ d = match snd answer with
           | Ok decision =>
               if (confidence decision =? 0)%float
                  || includes "Failed to parse" (reason decision)
               then fallback else decision
           | Throw _ => fallback
           end
    /\ (snd answer = Ok GeminiAnalyzer.parseFailure -> d = fallback).
Proof.
  intros fallback answer.
  pose proof (getFallbackDecision_acceptable poolState strategy
                existingPositions) as [Hc Hr].
  fold fallback in Hc, Hr.
  unfold analyzePool, tryCatch, bind, askBackend, callWorld, ret.
  subst answer.
  destruct (llmAnalyze (world s) poolState strategy existingPositions)
    as [w' [decision | e]]; simpl.
  - destruct ((confidence decision =? 0)%float
              || includes "Failed to parse" (reason decision)) eqn:Hbad.
    + exists fallback. repeat split; try assumption.
    + apply orb_false_elim in Hbad as [Hc' Hr'].
      exists decision. repeat split; try assumption.
      intros [= ->]. discriminate.
  - exists fallback. repeat split; assumption.
Qed.
End ProviderFallback.

(** ** The scan for the deposits of an agent *)

Section ScanFacts.
Import Effects Types JsString PoolReader.

Lemma scanDeposits_filter getDeposit agentAddress ids : forall myDeposits,
  scanDeposits getDeposit agentAddress ids myDeposits
  = myDeposits ++ List.filter (selected getDeposit agentAddress) ids.
Proof.
  induction ids as [| i rest IH]; intros acc; simpl.
  - rewrite app_nil_r. reflexivity.
  - unfold selected at 1.
    destruct (getDeposit i) as [dep |]; [| apply IH].
    destruct (isActiveFor agentAddress dep); [| apply IH].
    rewrite IH, <- app_assoc. reflexivity.
Qed.

Lemma StronglySorted_seqZ_nat (n : nat) : forall m,
  StronglySorted Z.lt (seqZ m (Z.of_nat n)).
Proof.
  induction n as [| n IH]; intros m.
  - rewrite seqZ_nil by lia. constructor.
  - rewrite seqZ_cons by lia.
    replace (Z.pred (Z.of_nat (S n))) with (Z.of_nat n) by lia.
    constructor; [apply IH |].
    apply Forall_forall. intros k Hk. apply elem_of_seqZ in Hk. lia.
Qed.

Lemma StronglySorted_seqZ m n : StronglySorted Z.lt (seqZ m n).
Proof.
  destruct (Z.le_gt_cases n 0) as [Hn | Hn].
  - rewrite seqZ_nil by lia. constructor.
  - rewrite <- (Z2Nat.id n) by lia. apply StronglySorted_seqZ_nat.
Qed.

Lemma StronglySorted_List_filter {A} (R : A -> A -> Prop) (f : A -> bool) l :
  StronglySorted R l -> StronglySorted R (List.filter f l).
Proof.
  induction 1 as [| a l Hl IH Ha]; simpl; [constructor |].
  destruct (f a); [| exact IH]. constructor; [exact IH |].
  rewrite Forall_forall in Ha |- *. intros x Hx.
  apply list_elem_of_In, filter_In in Hx as [Hx _].
  apply Ha, list_elem_of_In, Hx.
Qed.

(** X10. [getMyAssignedDeposits] throws only when [nextDepositId] cannot
    be read.  Otherwise it returns, in ascending order and without
    repetition, exactly the ids [i] with [1 <= i < nextDepositId] whose
    deposit can be read, has status 0 and is assigned to the given
    address, the comparison of addresses ignoring letter case; deposits
    that fail to load are left out and do not stop the scan. *)
Theorem getMyAssignedDeposits_exact (nextDepositId : Result Z)
    (getDeposit : Z -> Result DepositInfo) (agentAddress : string) :
  match nextDepositId with
  | Throw e =>
      getMyAssignedDeposits nextDepositId getDeposit agentAddress = Throw e
  | Ok nextId =>
      exists myDeposits,
        getMyAssignedDeposits nextDepositId getDeposit agentAddress
        = Ok myDeposits
        /\ (forall i,
              In i myDeposits <->
              1 <= i < nextId
              /\ exists dep,
                   getDeposit i = Ok dep
                   /\ toLowerCase (assignedAgent dep) = toLowerCase agentAddress
                   /\ status dep = 0)
        /\ StronglySorted Z.lt myDeposits
        /\ (forall other,
              toLowerCase other = toLowerCase agentAddress ->
              getMyAssignedDeposits nextDepositId getDeposit other
              = Ok myDeposits)
  end.
Proof.
  destruct nextDepositId as [nextId | e]; [| reflexivity].
  unfold getMyAssignedDeposits. rewrite scanDeposits_filter. simpl.
  eexists. split; [reflexivity |]. split; [| split].
  - intros i. rewrite filter_In, <- list_elem_of_In, elem_of_seqZ.
    unfold selected, isActiveFor. split.
    + intros [Hi Hsel]. split; [lia |].
      destruct (getDeposit i) as [dep |]; [| discriminate].
      apply andb_true_iff in Hsel as [Ha Hs].
      exists dep. split; [reflexivity |].
      split; [apply String.eqb_eq, Ha | apply Z.eqb_eq, Hs].
    + intros [Hi (dep & -> & Ha & Hs)]. split; [lia |].
      rewrite Ha, String.eqb_refl, Hs. reflexivity.
  - apply StronglySorted_List_filter, StronglySorted_seqZ.
  - intros other Hother. rewrite scanDeposits_filter. simpl. f_equal.
    apply filter_ext. intros i. unfold selected, isActiveFor.
    rewrite Hother. reflexivity.
Qed.
End ScanFacts.

(** ** The validation store: round trips and failures *)

Section StoreRoundTrip.
Import Effects Types JsNumber Erc8004.
Context {Chain Payload : Type} `{RegistryOps Chain Payload}.

Lemma getValidationStatus_found h (s : State Chain) r :
  firstWith h (validationStore s) = Some r ->
  getValidationStatus h s
  = (Ok (if responded r
         then {| vs_status := "RESPONDED"; vs_score := score r |}
         else {| vs_status := "PENDING"; vs_score := None |}), s).
Proof.
  unfold getValidationStatus, firstWith. intros ->.
  destruct (responded r); reflexivity.
Qed.

(** X11. A validation request followed by its response reads back:
    after [requestValidation] returned the hash [h], the status of [h]
    is answered from the store without consulting the registry; it is
    PENDING when no record had that hash before; and once
    [submitValidationResponse h score] has returned, it is RESPONDED
    with exactly that score. *)
Theorem validation_round_trip (s : State Chain)
    (validatorAgentId myAgentId : Z) (decisionData : Payload)
    (h : string) (s1 : State Chain) :
  requestValidation validatorAgentId myAgentId decisionData s = (Ok h, s1) ->
  h = keccakOfJson decisionData
  /\ (firstWith h (validationStore s) = None ->
      getValidationStatus h s1
      = (Ok {| vs_status := "PENDING"; vs_score := None |}, s1))
  /\ (forall sc s2,
        submitValidationResponse h sc s1 = (Ok tt, s2) ->
        getValidationStatus h s2
        = (Ok {| vs_status := "RESPONDED"; vs_score := Some sc |}, s2)).
Proof.
  intros Hreq.
  assert (Hh : h = keccakOfJson decisionData).
  { revert Hreq.
    unfold requestValidation, bind, sendValidationRequest, readChain,
      modifyStore, ret.
    destruct (validationRequest _ _ _ _) as [c' [[] | e]]; simpl;
      [intros [= <- _]; reflexivity | discriminate]. }
  apply requestValidation_store in Hreq as (rec & Hstore & Hhash & Hscore & Hresp).
  split; [exact Hh |]. split.
  - intros Hfresh.
    rewrite (getValidationStatus_found h s1 rec).
    + rewrite Hresp. reflexivity.
    + rewrite Hstore, firstWith_app, Hfresh. unfold firstWith. simpl.
      rewrite Hhash, String.eqb_refl. reflexivity.
  - intros sc s2 Hsub.
    apply submitValidationResponse_store in Hsub.
    assert (Hsome : exists r1, firstWith h (validationStore s1) = Some r1).
    { apply (firstWith_found h _ rec); [| exact Hhash].
      rewrite Hstore. apply in_or_app. right. left. reflexivity. }
    destruct Hsome as (r1 & Hr1).
    erewrite getValidationStatus_found.
    2: { rewrite Hsub, firstWith_recordResponse, Hr1, String.eqb_refl.
         reflexivity. }
    reflexivity.
Qed.

End StoreRoundTrip.

Section StoreRoundTripExamples.
Import Effects Types JsNumber Erc8004 SimRegistry.

(** The request for payload "p1" on the quiet chain, answered with 80. *)
Lemma validation_round_trip_witness :
  getValidationStatus "p1"
    (snd (requestValidation 2 2 "p1" (initialState quietChain)))
  = (Ok {| vs_status := "PENDING"; vs_score := None |},
     snd (requestValidation 2 2 "p1" (initialState quietChain)))
  /\ getValidationStatus "p1" afterResponse
     = (Ok {| vs_status := "RESPONDED"; vs_score := Some 80%float |},
        afterResponse).
Proof.
  assert (Hreq : requestValidation 2 2 "p1" (initialState quietChain)
                 = (Ok "p1", snd (requestValidation 2 2 "p1"
                                    (initialState quietChain))))
    by reflexivity.
  destruct (validation_round_trip (initialState quietChain) 2 2 "p1" "p1"
              _ Hreq) as (_ & Hpending & Hresponded).
  split.
  - apply Hpending. reflexivity.
  - apply (Hresponded 80%float afterResponse). reflexivity.
Defined.
End StoreRoundTripExamples.

(** ** The reputation report *)

Section ReputationReport.
Import Effects Types JsNumber Erc8004.
Context {Chain Payload : Type} `{RegistryOps Chain Payload}.

(** Every request event with arguments has its hash in the merged
    store. *)
Lemma mergeRequestLogs_covers responseMap requestLogs :
  forall store (known : gset string),
    known ⊆ list_to_set (map dataHash store) ->
    (forall r, r ∈ store ->
       r ∈ mergeRequestLogs known responseMap requestLogs store)
    /\ Forall (fun h => h ∈ map dataHash
                           (mergeRequestLogs known responseMap requestLogs
                              store))
         (requestHashes requestLogs).
Proof.
  unfold mergeRequestLogs.
  induction requestLogs as [| el rest IH]; intros store known Hknown; simpl.
  - split; [auto | constructor].
  - destruct el as [args |]; simpl; [| apply IH; assumption].
    destruct (decide (req_dataHash args ∈ known)) as [Hin | Hnew].
    + destruct (IH store known Hknown) as [Hkeep Hall].
      split; [exact Hkeep |]. constructor; [| exact Hall].
      apply Hknown, elem_of_list_to_set, list_elem_of_fmap in Hin
        as (r & Hh & Hr).
      apply list_elem_of_fmap. exists r. split; [exact Hh |].
      apply Hkeep, Hr.
    + match goal with
      | |- context [fold_left _ rest (store ++ [?r])] =>
          destruct (IH (store ++ [r]) known) as [Hkeep Hall]
      end.
      { rewrite map_app, list_to_set_app_L. set_solver. }
      split.
      * intros r Hr. apply Hkeep, elem_of_app. left. exact Hr.
      * constructor; [| exact Hall].
        apply list_elem_of_fmap. eexists. split; [| apply Hkeep].
        2: { apply elem_of_app. right. apply list_elem_of_singleton.
             reflexivity. }
        reflexivity.
Qed.

(** Nothing is merged from a log all of whose hashes are known. *)
Lemma mergeRequestLogs_known (known : gset string) responseMap requestLogs :
  forall store,
    Forall (fun h => h ∈ known) (requestHashes requestLogs) ->
    mergeRequestLogs known responseMap requestLogs store = store.
Proof.
  unfold mergeRequestLogs.
  induction requestLogs as [| el rest IH]; intros store Hall; simpl;
    [reflexivity |].
  destruct el as [args |]; simpl in Hall; [| apply IH; exact Hall].
  apply Forall_cons in Hall as [Hin Hall].
  rewrite decide_True by exact Hin. apply IH. exact Hall.
Qed.

Lemma mergeOnChainEvents_again a (s : State Chain) :
  let s1 := snd (tryCatch (mergeOnChainEvents a) (fun _ => ret tt) s) in
  tryCatch (mergeOnChainEvents a) (fun _ => ret tt) s1 = (Ok tt, s1)
  /\ chain s1 = chain s.
Proof.
  unfold tryCatch, mergeOnChainEvents, bind, readChain, modifyStore, ret.
  destruct (queryValidationRequestEvents (chain s) a) as [requestLogs |] eqn:Hreq;
    simpl; [| rewrite Hreq; split; reflexivity].
  destruct (queryValidationResponseEvents (chain s) a) as [responseLogs |] eqn:Hres;
    simpl; [| rewrite Hreq, Hres; split; reflexivity].
  rewrite Hreq, Hres. simpl. split; [| reflexivity].
  rewrite mergeRequestLogs_known; [reflexivity |].
  destruct (mergeRequestLogs_covers (buildResponseMap responseLogs) requestLogs
              (validationStore s)
              (list_to_set (map dataHash (validationStore s)))
              ltac:(reflexivity)) as [_ Hall].
  eapply Forall_impl; [exact Hall |]. intros h Hh.
  apply elem_of_list_to_set. exact Hh.
Qed.

(** X13. [getAgentReputation] is idempotent: on the state a call left,
    the same call gives the same outcome and leaves that state.  The
    merge of the registry's request events adds a record at most once
    per call sequence: after one call every hash of the request log is
    in the store, so the next call merges nothing. *)
Theorem getAgentReputation_idempotent (a : Z) (s : State Chain) :
  getAgentReputation a (snd (getAgentReputation a s))
  = getAgentReputation a s.
Proof.
  destruct (getAgentReputation a s) as [r s1] eqn:Hrun. simpl.
  revert Hrun. unfold getAgentReputation, bind, getTotalAgents, readChain.
  destruct (getAgent (chain s) a) as [info |] eqn:Hinfo.
  2: { intros [= <- <-]. rewrite Hinfo. reflexivity. }
  destruct (getAgentCount (chain s)) as [totalAgents |] eqn:Hcount.
  2: { intros [= <- <-]. rewrite Hinfo, Hcount. reflexivity. }
  pose proof (mergeOnChainEvents_again a s) as [Hagain Hchain].
  destruct (mergeOnChainEvents_guarded a s) as (added & Hmerge & _).
  rewrite Hmerge in Hagain, Hchain. simpl in Hagain, Hchain.
  unfold readChain in Hmerge, Hagain. rewrite Hmerge. cbv beta iota.
  rewrite collectFeedbackAuthorizations_run.
  intros [= <- <-]. cbn [chain validationStore].
  rewrite Hinfo, Hcount. unfold readChain in *. rewrite Hagain. cbv beta iota.
  rewrite collectFeedbackAuthorizations_run. reflexivity.
Qed.

(** The clients listed are the candidates other than [a] whose
    authorization query answers "authorized". *)
Lemma inboundAuthorizations_clients (c : Chain) candidates a :
  map clientAgentId (inboundAuthorizations c candidates a)
  = List.filter
      (fun i => negb (i =? a)
                && match reputationIsFeedbackAuthorized c i a with
                   | Ok (authorized, _) => authorized
                   | Throw _ => false
                   end)
      candidates.
Proof.
  unfold inboundAuthorizations.
  induction candidates as [| i rest IH]; [reflexivity |].
  cbn [omap list_omap List.filter].
  destruct (i =? a); cbn [negb andb]; [exact IH |].
  destruct (reputationIsFeedbackAuthorized c i a) as [[[|] authId] |];
    cbn [map]; rewrite ?IH; reflexivity.
Qed.

Lemma inboundAuthorizations_count (c : Chain) candidates a :
  NoDup candidates ->
  (length (inboundAuthorizations c candidates a) <= length candidates)%nat
  /\ (a ∈ candidates ->
      (S (length (inboundAuthorizations c candidates a))
       <= length candidates)%nat).
Proof.
  unfold inboundAuthorizations, omap.
  induction candidates as [| i rest IH]; intros Hnd.
  - split; [reflexivity |]. intros Hin. apply elem_of_nil in Hin.
    contradiction.
  - apply NoDup_cons in Hnd as [Hi Hnd].
    destruct (IH Hnd) as [IHle IHin].
    cbn [list_omap length].
    destruct (Z.eqb_spec i a) as [-> | Hne].
    + split; [lia |]. intros _. lia.
    + destruct (reputationIsFeedbackAuthorized c i a) as [[[|] authId] |];
        cbn [length];
        (split; [lia |]; intros Hin;
         apply elem_of_cons in Hin as [? | Hin]; [congruence |];
         specialize (IHin Hin); lia).
Qed.

(** X14. The report of [getAgentReputation] is consistent with itself:
    [totalValidations] is the length of [validationHistory], whose
    entries are the agent's records in store order;
    [respondedValidations] counts the responded ones among them, so it
    is at most [totalValidations]; [totalFeedbackAuths] is the length of
    [feedbackAuthorizations]; the listed clients are registered agent
    ids between 1 and [totalAgents], in ascending order, each once, and
    never the agent itself, so that an agent whose id is in that range
    has at most [totalAgents - 1] of them. *)
Theorem getAgentReputation_report_consistent (a : Z) (s : State Chain)
    (rep : AgentReputation) (s' : State Chain) :
  getAgentReputation a s = (Ok rep, s') ->
  let records := filter (fun r => agentId r = a) (validationStore s') in
  exists totalAgents,
    getAgentCount (chain s) = Ok totalAgents
    /\ map h_dataHash (validationHistory rep) = map dataHash records
    /\ totalValidations rep = length (validationHistory rep)
    /\ respondedValidations rep
       = length (List.filter h_responded (validationHistory rep))
    /\ (respondedValidations rep <= totalValidations rep)%nat
    /\ totalFeedbackAuths rep = length (feedbackAuthorizations rep)
    /\ Forall (fun f => clientAgentId f <> a
                        /\ 1 <= clientAgentId f <= totalAgents)
              (feedbackAuthorizations rep)
    /\ StronglySorted Z.lt (map clientAgentId (feedbackAuthorizations rep))
    /\ (1 <= a <= totalAgents ->
        Z.of_nat (totalFeedbackAuths rep) <= totalAgents - 1).
Proof.
  unfold getAgentReputation, bind, getTotalAgents.
  unfold readChain at 1 2.
  destruct (getAgent (chain s) a) as [info |]; [| discriminate].
  destruct (getAgentCount (chain s)) as [totalAgents |]; [| discriminate].
  destruct (mergeOnChainEvents_guarded a s) as (added & Hmerge & _).
  rewrite Hmerge. cbv beta iota.
  rewrite collectFeedbackAuthorizations_run. simpl.
  intros [= <- <-]. simpl. exists totalAgents.
  set (records := filter (fun r => agentId r = a) (validationStore s ++ added)).
  pose proof (inboundAuthorizations_clients (chain s) (seqZ 1 totalAgents) a)
    as Hclients.
  split; [reflexivity |].
  split; [rewrite map_map; reflexivity |].
  split; [rewrite length_map; reflexivity |].
  split.
  { rewrite filter_responded_length. clear.
    induction records as [| r rest IH]; simpl; [reflexivity |].
    destruct (responded r); simpl; rewrite IH; reflexivity. }
  split.
  { rewrite filter_responded_length. apply List.filter_length_le. }
  split; [reflexivity |].
  split.
  { apply Forall_forall. intros f Hf.
    assert (Hin : In (clientAgentId f)
                    (map clientAgentId
                       (inboundAuthorizations (chain s) (seqZ 1 totalAgents) a)))
      by (apply in_map, list_elem_of_In, Hf).
    rewrite Hclients in Hin. apply filter_In in Hin as [Hin Hsel].
    apply list_elem_of_In, elem_of_seqZ in Hin.
    apply andb_true_iff in Hsel as [Hne _].
    apply negb_true_iff, Z.eqb_neq in Hne. split; [exact Hne | lia]. }
  split.
  { rewrite Hclients.
    apply StronglySorted_List_filter, StronglySorted_seqZ. }
  intros Ha.
  destruct (inboundAuthorizations_count (chain s) (seqZ 1 totalAgents) a
              (NoDup_seqZ _ _)) as [_ Hcount].
  specialize (Hcount ltac:(apply elem_of_seqZ; lia)).
  rewrite length_seqZ in Hcount. lia.
Qed.
End ReputationReport.

(** ** The poller: recent deposits and immediate processing *)

Section PollerFacts.
Import Effects Types JsString EventListener ListenerRuns.
Context {World : Type} `{ListenerOps World}.

Lemma onDepositCreated_run args (s : State World) :
  onDepositCreated (Some args) s
  = (Ok tt,
     {| world := world s; lastBlock := lastBlock s;
        recentDeposits :=
          (let unshifted := depositEvent (world s) args :: recentDeposits s in
           if (MAX_RECENT <? length unshifted)%nat
           then removelast unshifted else unshifted);
        queries := queries s; processed := processed s;
        errors := errors s |}).
Proof. reflexivity. Qed.

(** Within the bound, an unshift followed by the conditional pop keeps
    the first [MAX_RECENT] entries. *)
Lemma unshift_pop {A} (x : A) (l : list A) :
  (length l <= MAX_RECENT)%nat ->
  (if (MAX_RECENT <? length (x :: l))%nat
   then removelast (x :: l) else x :: l)
  = take MAX_RECENT (x :: l).
Proof.
  intros Hlen. destruct (Nat.ltb_spec MAX_RECENT (length (x :: l))) as [Hlt | Hge].
  - rewrite removelast_firstn_len.
    replace (Nat.pred (length (x :: l))) with MAX_RECENT
      by (simpl in *; lia).
    reflexivity.
  - symmetry. apply firstn_all2. exact Hge.
Qed.

Lemma forEach_onDepositCreated_bound depositLogs : forall s : State World,
  (length (recentDeposits s) <= MAX_RECENT)%nat ->
  (length (recentDeposits (snd (forEach onDepositCreated depositLogs s)))
   <= MAX_RECENT)%nat.
Proof.
  induction depositLogs as [| el rest IH]; intros s Hs; simpl; [exact Hs |].
  unfold bind. destruct el as [args |]; [| exact (IH s Hs)].
  rewrite onDepositCreated_run. apply IH. cbn [recentDeposits].
  rewrite unshift_pop by exact Hs. rewrite length_take. lia.
Qed.

Lemma forEach_onAgentAssigned_recent assignLogs : forall s : State World,
  recentDeposits (snd (forEach onAgentAssigned assignLogs s))
  = recentDeposits s.
Proof.
  induction assignLogs as [| el rest IH]; intros s; simpl; [reflexivity |].
  unfold bind. destruct el as [args |]; simpl; [| exact (IH s)].
  destruct (String.eqb _ _); [| exact (IH s)].
  unfold processImmediately.
  destruct (processDeposit (world s) (aa_depositId args)) as [w' [[] | e]];
    simpl; rewrite IH; reflexivity.
Qed.

Lemma poll_recent_bound (s : State World) :
  (length (recentDeposits s) <= MAX_RECENT)%nat ->
  (length (recentDeposits (snd (poll s))) <= MAX_RECENT)%nat.
Proof.
  intros Hs. unfold poll, tryCatch, pollBody, bind, readWorld.
  destruct (getBlockNumber (world s)) as [currentBlock | e]; simpl;
    [| exact Hs].
  set (s1 := snd ((if lastBlock s =? 0
                   then setLastBlock (Z.max 0 (currentBlock - 100))
                   else ret tt) s)).
  assert (Hs1 : (if lastBlock s =? 0
                 then setLastBlock (Z.max 0 (currentBlock - 100))
                 else ret tt) s = (Ok tt, s1))
    by (subst s1; destruct (lastBlock s =? 0); reflexivity).
  assert (Hr1 : recentDeposits s1 = recentDeposits s)
    by (subst s1; destruct (lastBlock s =? 0); reflexivity).
  rewrite Hs1. cbv beta iota.
  destruct (currentBlock <=? lastBlock s1); simpl; [rewrite Hr1; exact Hs |].
  destruct (queryDepositCreated (world s1) (lastBlock s1 + 1) currentBlock)
    as [depositLogs | e]; simpl; [| rewrite Hr1; exact Hs].
  match goal with
  | |- context [forEach onDepositCreated depositLogs ?s2] =>
      pose proof (forEach_onDepositCreated_bound depositLogs s2) as Hb;
      destruct (forEach_onDepositCreated depositLogs s2)
        as (s3 & Hrun & Hw3 & _);
      rewrite Hrun in Hb |- *
  end.
  simpl in Hb. specialize (Hb ltac:(rewrite Hr1; exact Hs)). simpl.
  destruct (queryAgentAssigned (world s3) (lastBlock s1 + 1) currentBlock)
    as [assignLogs | e]; simpl; [| exact Hb].
  match goal with
  | |- context [forEach onAgentAssigned assignLogs ?s4] =>
      pose proof (forEach_onAgentAssigned_recent assignLogs s4) as Hr5;
      destruct (forEach_onAgentAssigned assignLogs s4) as (s5 & Hrun5 & _);
      rewrite Hrun5 in Hr5 |- *
  end.
  simpl in Hr5 |- *. rewrite Hr5. exact Hb.
Qed.

Lemma recent_bound_reachable w0 (s : State World) :
  reachable (initialState w0) s ->
  (length (recentDeposits s) <= MAX_RECENT)%nat.
Proof.
  induction 1 as [| s s' _ IH Hstep].
  - simpl. unfold MAX_RECENT. lia.
  - destruct Hstep as [s r s' Hpoll | s w].
    + pose proof (poll_recent_bound s IH) as Hb. rewrite Hpoll in Hb.
      exact Hb.
    + exact IH.
Qed.

(** X15. The list of recent deposits never holds more than [MAX_RECENT]
    = 50 events, at any state the poller reaches from its start,
    however the chain moves between polls; and at such a state the
    handling of one more deposit-creation event leaves the new event at
    the head, followed by the previous events, cut to 50: the events
    are kept newest first and the oldest is dropped. *)
Theorem recentDeposits_bounded (w0 : World) (s : State World) :
  reachable (initialState w0) s ->
  (length (getRecentDeposits s) <= MAX_RECENT)%nat
  /\ (forall args,
        exists s',
          onDepositCreated (Some args) s = (Ok tt, s')
          /\ getRecentDeposits s'
             = take MAX_RECENT
                 (depositEvent (world s) args :: getRecentDeposits s)).
Proof.
  intros Hreach. pose proof (recent_bound_reachable w0 s Hreach) as Hb.
  split; [exact Hb |]. intros args. eexists. split; [reflexivity |].
  unfold getRecentDeposits. cbn [recentDeposits]. apply unshift_pop, Hb.
Qed.

Lemma forEach_onAgentAssigned_processed
    (Hwallet : forall w d,
       agentWalletAddress (fst (processDeposit w d)) = agentWalletAddress w)
    assignLogs : forall s : State World,
  exists s',
    forEach onAgentAssigned assignLogs s = (Ok tt, s')
    /\ processed s'
       = processed s ++
         map aa_depositId
           (List.filter (assignedTo (agentWalletAddress (world s)))
              (omap id assignLogs)).
Proof.
  induction assignLogs as [| el rest IH]; intros s.
  - exists s. rewrite app_nil_r. split; reflexivity.
  - cbn [forEach]. unfold bind.
    destruct el as [args |]; cbn [onAgentAssigned omap list_omap id];
      [| exact (IH s)].
    cbn [List.filter]. unfold assignedTo at 1.
    destruct (String.eqb _ _); [| exact (IH s)].
    unfold processImmediately.
    pose proof (Hwallet (world s) (aa_depositId args)) as Hw.
    destruct (processDeposit (world s) (aa_depositId args)) as [w' [[] | e]];
      simpl in Hw |- *.
    + match goal with
      | |- context [forEach onAgentAssigned rest ?s1] =>
          destruct (IH s1) as (s' & -> & Hp)
      end.
      exists s'. split; [reflexivity |]. rewrite Hp. simpl.
      rewrite Hw, <- app_assoc. reflexivity.
    + match goal with
      | |- context [forEach onAgentAssigned rest ?s1] =>
          destruct (IH s1) as (s' & -> & Hp)
      end.
      exists s'. split; [reflexivity |]. rewrite Hp. simpl.
      rewrite Hw, <- app_assoc. reflexivity.
Qed.

(** X16. A poll hands to [processDeposit] exactly the deposits of the
    assignment events of its window whose agent is the wallet's address,
    letter case aside, once each and in event order: a deposit assigned
    to another agent is never processed by the poller.  When the head
    cannot be read, the window is empty or one of the two event queries
    fails, nothing is handed over.  (The wallet's address is the same
    before and after a [processDeposit].) *)
Theorem poll_hands_over_own_deposits
    (Hwallet : forall w d,
       agentWalletAddress (fst (processDeposit w d)) = agentWalletAddress w)
    (s : State World) :
  processed (snd (poll s)) = processed s ++ handedOver s.
Proof.
  unfold handedOver, poll, tryCatch, pollBody, bind, readWorld.
  destruct (getBlockNumber (world s)) as [currentBlock | e]; simpl;
    [| rewrite app_nil_r; reflexivity].
  unfold watermarkAt.
  set (s1 := snd ((if lastBlock s =? 0
                   then setLastBlock (Z.max 0 (currentBlock - 100))
                   else ret tt) s)).
  assert (Hs1 : (if lastBlock s =? 0
                 then setLastBlock (Z.max 0 (currentBlock - 100))
                 else ret tt) s = (Ok tt, s1))
    by (subst s1; destruct (lastBlock s =? 0); reflexivity).
  assert (Hw1 : world s1 = world s)
    by (subst s1; destruct (lastBlock s =? 0); reflexivity).
  assert (Hp1 : processed s1 = processed s)
    by (subst s1; destruct (lastBlock s =? 0); reflexivity).
  assert (Hlb1 : lastBlock s1 = if lastBlock s =? 0
                                then Z.max 0 (currentBlock - 100)
                                else lastBlock s)
    by (subst s1; destruct (lastBlock s =? 0); reflexivity).
  rewrite Hs1, <- Hlb1. cbv beta iota zeta.
  destruct (currentBlock <=? lastBlock s1); simpl;
    [rewrite Hp1, app_nil_r; reflexivity |].
  try rewrite Hw1.
  destruct (queryDepositCreated (world s) (lastBlock s1 + 1) currentBlock)
    as [depositLogs | e]; simpl; [| rewrite Hp1, app_nil_r; reflexivity].
  match goal with
  | |- context [forEach onDepositCreated depositLogs ?s2] =>
      destruct (forEach_onDepositCreated depositLogs s2)
        as (s3 & -> & Hw3 & _ & _ & Hp3 & _)
  end.
  simpl in Hw3, Hp3. simpl. rewrite Hw3; try rewrite Hw1.
  destruct (queryAgentAssigned (world s) (lastBlock s1 + 1) currentBlock)
    as [assignLogs | e]; simpl;
    [| rewrite Hp3, Hp1, app_nil_r; reflexivity].
  match goal with
  | |- context [forEach onAgentAssigned assignLogs ?s4] =>
      destruct (forEach_onAgentAssigned_processed Hwallet assignLogs s4)
        as (s5 & -> & Hp5)
  end.
  simpl in Hp5 |- *. rewrite Hp5, Hp3, Hp1; try rewrite Hw3;
    try rewrite Hw1.
  reflexivity.
Qed.
End PollerFacts.

Section PollerExamples.
Import Effects Types EventListener ListenerRuns SimListener SimPolls.

(** After the first poll at head 300 the list holds the one deposit
    seen. *)
Lemma recentDeposits_bounded_witness :
  (length (getRecentDeposits (snd (poll (initialState busyHead))))
   <= MAX_RECENT)%nat
  /\ map ev_depositId (getRecentDeposits (snd (poll (initialState busyHead))))
     = [5].
Proof.
  split; [| reflexivity].
  apply (recentDeposits_bounded busyHead).
  eapply reachable_step; [apply reachable_start |].
  eapply step_poll. apply surjective_pairing.
Defined.

(** Deposit 5, assigned to our wallet in another letter case, is handed
    over; deposit 6, assigned to another agent, is not. *)
Lemma poll_hands_over_own_deposits_witness :
  processed (snd (poll (stateAt busyHead 200))) = [5].
Proof.
  rewrite (poll_hands_over_own_deposits (World := Sim)).
  - reflexivity.
  - intros w d. simpl. destruct (processFails w); reflexivity.
Defined.
End PollerExamples.

(** ** Per-deposit processing *)

Section ProcessingFacts.
Import Effects JsNumber JsString Types Agent AgentProtocol.
Context {World : Type} `{AgentOps World}.

(** X17. [processDeposit] acts only on its own active deposits.  When
    the agent is not initialized, or the deposit is assigned to another
    address (letter case aside), or its status is not 0, both variants of
    [processDeposit] return at once (the later one with [null]): no
    position and no pool state is read, the advisory backend is not
    consulted, nothing is validated or executed, and the state is left
    as it was. *)
Theorem processDeposit_ineligible (depositId : Z) (s : State World) :
  agentInfo s = None
  \/ (exists deposit,
        readDeposit (world s) depositId = Ok deposit
        /\ ~ eligible (world s) deposit) ->
  Agent.processDeposit depositId s = (Ok tt, s)
  /\ AgentWithFallback.processDeposit depositId s = (Ok None, s).
Proof.
  unfold Agent.processDeposit, AgentWithFallback.processDeposit, bind,
    readWorld, ret, eligible.
  intros [Hinfo | (deposit & Hdep & Hnot)]; simpl.
  - rewrite Hinfo. split; reflexivity.
  - destruct (agentInfo s) as [info |]; [| split; reflexivity].
    rewrite Hdep.
    destruct (String.eqb_spec (toLowerCase (assignedAgent deposit))
                (toLowerCase (agentWalletAddress (world s)))) as [Ha | Ha];
      simpl; [| split; reflexivity].
    destruct (Z.eqb_spec (status deposit) 0) as [Hs | Hs]; simpl;
      [| split; reflexivity].
    exfalso. apply Hnot. split; assumption.
Qed.

Lemma collectPositions_run tokenIds : forall acc (s : State World),
  Forall (fun tokenId => exists pos, readPosition (world s) tokenId = Ok pos)
         tokenIds ->
  exists entries,
    collectPositions tokenIds acc s = (Ok (acc ++ entries), s)
    /\ Forall2 (fun tokenId entry =>
                  exists pos, readPosition (world s) tokenId = Ok pos
                              /\ entry = positionEntry (world s) tokenId pos)
               tokenIds entries.
Proof.
  induction tokenIds as [| tokenId rest IH]; intros acc s Hall.
  - exists []. rewrite app_nil_r. split; [reflexivity | constructor].
  - apply Forall_cons in Hall as [(pos & Hpos) Hrest].
    cbn [collectPositions]. unfold bind, readWorld. rewrite Hpos.
    cbv beta iota.
    match goal with
    | |- context [collectPositions rest ?acc' s] =>
        destruct (IH acc' s Hrest) as (entries & -> & Hentries)
    end.
    eexists (_ :: entries). rewrite <- app_assoc.
    split; [reflexivity |].
    constructor; [| exact Hentries].
    exists pos. split; [exact Hpos | reflexivity].
Qed.

Lemma hasUnknownPositions_entry (w : World) tokenId pos :
  getCachedPositionTicks w tokenId = None ->
  pi_tickLower pos = 0 -> pi_tickUpper pos = 0 -> pi_liquidity pos <> 0 ->
  hasUnknownPositions [positionEntry w tokenId pos] = true.
Proof.
  intros Hc Hlo Hhi Hliq. unfold hasUnknownPositions, positionEntry.
  rewrite Hc, Hlo, Hhi. simpl.
  assert (Hp : String.eqb (pretty (pi_liquidity pos)) "0" = false).
  { apply String.eqb_neq. intros Heq. apply Hliq.
    apply (inj pretty). exact Heq. }
  rewrite Hp. reflexivity.
Qed.

Lemma hasUnknownPositions_app l1 l2 :
  hasUnknownPositions (l1 ++ l2)
  = hasUnknownPositions l1 || hasUnknownPositions l2.
Proof. unfold hasUnknownPositions. apply existsb_app. Qed.

(** X18. A position of unknown range freezes its deposit.  When every
    listed position of an eligible deposit can be read and one of them
    is reported by the router with liquidity and with ticks (0, 0)
    while the cache holds no ticks for it, [processDeposit] holds: the
    advisory backend is not consulted, nothing is validated or
    executed, and the state is left as it was; the later variant
    answers HOLD with confidence 100 and no transaction. *)
Theorem processDeposit_unknown_range (depositId : Z) (s : State World)
    (info : Erc8004.AgentInfo) (deposit : DepositInfo)
    (poolState : PoolState) :
  agentInfo s = Some info ->
  readDeposit (world s) depositId = Ok deposit ->
  eligible (world s) deposit ->
  Forall (fun tokenId => exists pos, readPosition (world s) tokenId = Ok pos)
         (positionTokenIds deposit) ->
  Exists (unknownRange (world s)) (positionTokenIds deposit) ->
  readPoolState (world s) = Ok poolState ->
  Agent.processDeposit depositId s = (Ok tt, s)
  /\ AgentWithFallback.processDeposit depositId s
     = (Ok (Some {| AgentWithFallback.pr_action := "HOLD";
                    AgentWithFallback.pr_tickLower := None;
                    AgentWithFallback.pr_tickUpper := None;
                    AgentWithFallback.pr_newTokenId := None;
                    AgentWithFallback.pr_reason :=
                      "Position has unknown tick range";
                    AgentWithFallback.pr_confidence := 100;
                    AgentWithFallback.pr_txHashes := [];
                    AgentWithFallback.pr_validationHash := None |}), s).
Proof.
  intros Hinfo Hdep [Ha Hs] Hall Hex Hpool.
  destruct (collectPositions_run (positionTokenIds deposit) [] s Hall)
    as (entries & Hrun & Hentries). simpl in Hrun.
  assert (Hunknown : (0 <? length entries)%nat
                     && hasUnknownPositions entries = true).
  { clear Hrun. revert entries Hentries.
    induction Hex as [tokenId rest Hu | tokenId rest _ IH];
      intros entries Hentries;
      inversion Hentries as [| ? entry ? entries' (pos & Hpos & ->) Hrest];
      subst.
    - destruct Hu as (pos' & Hpos' & Hc & Hlo & Hhi & Hliq).
      assert (pos' = pos) by congruence. subst pos'.
      change (positionEntry (world s) tokenId pos :: entries')
        with ([positionEntry (world s) tokenId pos] ++ entries').
      rewrite hasUnknownPositions_app, hasUnknownPositions_entry;
        try assumption. reflexivity.
    - apply Forall_cons in Hall as [_ Hall].
      specialize (IH Hall entries' Hrest).
      apply andb_true_iff in IH as [_ IH].
      change (positionEntry (world s) tokenId pos :: entries')
        with ([positionEntry (world s) tokenId pos] ++ entries').
      rewrite hasUnknownPositions_app, IH, orb_true_r. reflexivity. }
  unfold Agent.processDeposit, AgentWithFallback.processDeposit, bind,
    readWorld, ret. simpl.
  rewrite Hinfo, Hdep, Ha, String.eqb_refl, Hs. simpl.
  rewrite Hrun, Hpool, Hunknown. split; reflexivity.
Qed.

Lemma requestValidationBeforeExecuting_shape info depositId decision
    (s : State World) :
  exists dataHash s' pre,
    requestValidationBeforeExecuting info depositId decision s
    = (Ok dataHash, s')
    /\ calls s' = calls s ++ pre
    /\ (if actionIsHold (action decision) then pre = []
        else exists t,
               pre = [CallRequestValidation
                        {| vp_depositId := depositId;
                           vp_decision := decision;
                           vp_timestamp := t |}])
    /\ (dataHash <> None -> pre <> []).
Proof.
  unfold requestValidationBeforeExecuting.
  destruct (actionIsHold (action decision)); simpl.
  - exists None, s, []. rewrite app_nil_r. repeat split. congruence.
  - unfold tryCatch, bind, readWorld, callWorld, ret. simpl.
    destruct (requestValidation _ _ _ _) as [w' [h | e]]; simpl;
      eexists _, _, [_]; (split; [reflexivity |]);
      (split; [reflexivity |]);
      (split; [eexists; reflexivity |]); intros _; discriminate.
Qed.

Lemma submitResponseAfterExecuting_shape dataHash decision
    (s : State World) :
  exists s' post,
    submitResponseAfterExecuting dataHash decision s = (Ok tt, s')
    /\ calls s' = calls s ++ post
    /\ (post = []
        \/ (dataHash <> None
            /\ exists h,
                 h <> ""
                 /\ post = [CallSubmitValidationResponse h
                              (Math_min (confidence decision) 100)])).
Proof.
  unfold submitResponseAfterExecuting.
  destruct dataHash as [h |].
  2: { exists s, []. rewrite app_nil_r. repeat split. left. reflexivity. }
  destruct (String.eqb_spec h "") as [| Hne].
  { exists s, []. rewrite app_nil_r. repeat split. left. reflexivity. }
  unfold tryCatch, callWorld, ret.
  destruct (submitValidationResponse _ _ _) as [w' [[] | e]]; simpl;
    eexists _, [_]; (split; [reflexivity |]); (split; [reflexivity |]);
    right; (split; [discriminate |]); exists h; split;
    [exact Hne | reflexivity | exact Hne | reflexivity].
Qed.

(** The calls of a run that reached [executeDecision]. *)
Lemma wellFormedRun_acted depositId decision pre post
    (dataHash : option string) :
  (if actionIsHold (action decision) then pre = []
   else exists t,
          pre = [CallRequestValidation
                   {| vp_depositId := depositId;
                      vp_decision := decision;
                      vp_timestamp := t |}]) ->
  (dataHash <> None -> pre <> []) ->
  (post = []
   \/ (dataHash <> None
       /\ exists h,
            h <> ""
            /\ post = [CallSubmitValidationResponse h
                         (Math_min (confidence decision) 100)])) ->
  wellFormedRun depositId
    (CallAnalyze :: pre ++ [CallExecuteDecision depositId decision] ++ post)
  /\ (post = [] ->
      existsb isSubmitResponse
        (CallAnalyze :: pre ++ [CallExecuteDecision depositId decision]
           ++ post) = false).
Proof.
  intros Hpre Hsome Hpost. split.
  - right. right. exists decision, pre, post.
    split; [reflexivity |]. split; [exact Hpre |].
    destruct Hpost as [-> | (Hd & h & Hne & ->)]; [left; reflexivity |].
    right. split; [apply Hsome, Hd |]. exists h.
    split; [exact Hne | reflexivity].
  - intros ->. rewrite app_nil_r. simpl. rewrite existsb_app. simpl.
    destruct (actionIsHold (action decision)).
    + subst pre. reflexivity.
    + destruct Hpre as (t & ->). reflexivity.
Qed.

(** X19. The calls of one [processDeposit], in both variants, follow
    one protocol: none at all; or the request to the advisory backend
    alone; or that request, then a validation request exactly when the
    decision is not HOLD, then [executeDecision] for the decision, then
    at most one validation response.  The decision is executed whether
    or not the validation request succeeded; a response is submitted
    only after a request, with a hash that is not empty and the score
    [Math.min(confidence, 100)]; and when [processDeposit] throws, no
    response has been submitted. *)
Theorem processDeposit_protocol (depositId : Z) (s : State World) :
  (exists new,
     calls (snd (Agent.processDeposit depositId s)) = calls s ++ new
     /\ wellFormedRun depositId new
     /\ (isThrow (fst (Agent.processDeposit depositId s)) = true ->
         existsb isSubmitResponse new = false))
  /\ (exists new,
        calls (snd (AgentWithFallback.processDeposit depositId s))
        = calls s ++ new
        /\ wellFormedRun depositId new
        /\ (isThrow (fst (AgentWithFallback.processDeposit depositId s))
            = true ->
            existsb isSubmitResponse new = false)).
Proof.
  assert (Hnone : exists new,
            calls s = calls s ++ new
            /\ wellFormedRun depositId new
            /\ (true = true -> existsb isSubmitResponse new = false)
            /\ (false = true -> existsb isSubmitResponse new = false)).
  { exists []. rewrite app_nil_r.
    split; [reflexivity |]. split; [left; reflexivity |].
    split; reflexivity. }
  assert (Hone : exists new,
            calls s ++ [CallAnalyze] = calls s ++ new
            /\ wellFormedRun depositId new
            /\ (true = true -> existsb isSubmitResponse new = false)
            /\ (false = true -> existsb isSubmitResponse new = false)).
  { exists [CallAnalyze].
    split; [reflexivity |]. split; [right; left; reflexivity |].
    split; reflexivity. }
  assert (Hact : forall info decision (s1 : State World) (A : Type)
                   (k : option string -> ExecutionResult -> A) r s',
            calls s1 = calls s ++ [CallAnalyze] ->
            (let* dataHash :=
               requestValidationBeforeExecuting info depositId decision in
             let* execResult :=
               callWorld (CallExecuteDecision depositId decision)
                 (fun w => executeDecision w depositId decision) in
             let* _ := submitResponseAfterExecuting dataHash decision in
             ret (k dataHash execResult)) s1 = (r, s') ->
            exists new,
              calls s' = calls s ++ new
              /\ wellFormedRun depositId new
              /\ (isThrow r = true -> existsb isSubmitResponse new = false)).
  { intros info decision s1 A k r s' Hs1. unfold bind, ret.
    destruct (requestValidationBeforeExecuting_shape info depositId
                decision s1)
      as (dataHash & s2 & pre & -> & Hc1 & Hpre & Hsome).
    rewrite Hs1 in Hc1. unfold callWorld.
    destruct (executeDecision (world s2) depositId decision)
      as [w3 [res | e]]; simpl.
    - match goal with
      | |- context [submitResponseAfterExecuting dataHash decision ?s3] =>
          destruct (submitResponseAfterExecuting_shape dataHash decision s3)
            as (s4 & post & -> & Hc3 & Hpost)
      end.
      simpl in Hc3. intros [= <- <-].
      destruct (wellFormedRun_acted depositId decision pre post dataHash
                  Hpre Hsome Hpost) as [Hwf _].
      eexists. split; [| split; [exact Hwf | discriminate]].
      rewrite Hc3, Hc1, <- !app_assoc. reflexivity.
    - intros [= <- <-]. simpl.
      destruct (wellFormedRun_acted depositId decision pre [] dataHash
                  Hpre Hsome ltac:(left; reflexivity)) as [Hwf Hno].
      eexists. split; [| split; [exact Hwf | intros _; apply Hno; reflexivity]].
      rewrite Hc1, <- !app_assoc. reflexivity. }
  assert (Hpick : forall (b : bool) (s0 : State World),
            (exists new,
               calls s0 = calls s ++ new
               /\ wellFormedRun depositId new
               /\ (true = true -> existsb isSubmitResponse new = false)
               /\ (false = true -> existsb isSubmitResponse new = false)) ->
            exists new,
              calls s0 = calls s ++ new
              /\ wellFormedRun depositId new
              /\ (b = true -> existsb isSubmitResponse new = false)).
  { intros b s0 (new & H1 & H2 & H3 & H4). exists new.
    split; [exact H1 |]. split; [exact H2 |]. destruct b; assumption. }
  split.
  - destruct (Agent.processDeposit depositId s) as [r s'] eqn:E. simpl.
    revert E. unfold Agent.processDeposit, bind, readWorld, ret. simpl.
    destruct (agentInfo s) as [info |];
      [| intros [= <- <-]; apply Hpick, Hnone].
    destruct (readDeposit (world s) depositId) as [deposit |];
      [| intros [= <- <-]; apply Hpick, Hnone].
    destruct (negb (String.eqb _ _));
      [intros [= <- <-]; apply Hpick, Hnone |].
    destruct (negb (status deposit =? 0));
      [intros [= <- <-]; apply Hpick, Hnone |].
    pose proof (collectPositions_reads_only (positionTokenIds deposit) [] s)
      as Hcp.
    destruct (collectPositions (positionTokenIds deposit) [] s)
      as [[existingPositions | e] s1]; simpl in Hcp; subst s1;
      [| intros [= <- <-]; apply Hpick, Hnone].
    destruct (readPoolState (world s)) as [poolState |];
      [| intros [= <- <-]; apply Hpick, Hnone].
    destruct ((0 <? length existingPositions)%nat
              && hasUnknownPositions existingPositions);
      [intros [= <- <-]; apply Hpick, Hnone |].
    unfold askBackend.
    destruct (STRATEGY_MAP (strategy deposit)) as [st |];
      [| intros [= <- <-]; apply Hpick, Hnone].
    unfold callWorld at 1.
    destruct (llmAnalyze _ _ _ _) as [w1 [decision | e]]; simpl;
      [| intros [= <- <-]; apply Hpick, Hone].
    destruct (confidence decision <? 60)%float;
      [intros [= <- <-]; apply Hpick, Hone |].
    intros E. unfold bind in E.
    match type of E with
    | context [requestValidationBeforeExecuting info depositId decision ?s1] =>
        apply (Hact info decision s1 unit (fun _ _ => tt) r s' eq_refl)
    end.
    unfold bind, ret.
    destruct (requestValidationBeforeExecuting info depositId decision _)
      as [[dataHash | e] s2]; [| exact E].
    destruct (callWorld _ _ s2) as [[execResult | e] s3]; [| exact E].
    destruct (submitResponseAfterExecuting dataHash decision s3)
      as [[[] | e] s4]; exact E.
  - destruct (AgentWithFallback.processDeposit depositId s) as [r s'] eqn:E.
    simpl. revert E.
    unfold AgentWithFallback.processDeposit, bind, readWorld, ret. simpl.
    destruct (agentInfo s) as [info |];
      [| intros [= <- <-]; apply Hpick, Hnone].
    destruct (readDeposit (world s) depositId) as [deposit |];
      [| intros [= <- <-]; apply Hpick, Hnone].
    destruct (negb (String.eqb _ _));
      [intros [= <- <-]; apply Hpick, Hnone |].
    destruct (negb (status deposit =? 0));
      [intros [= <- <-]; apply Hpick, Hnone |].
    pose proof (collectPositions_reads_only (positionTokenIds deposit) [] s)
      as Hcp.
    destruct (collectPositions (positionTokenIds deposit) [] s)
      as [[existingPositions | e] s1]; simpl in Hcp; subst s1;
      [| intros [= <- <-]; apply Hpick, Hnone].
    destruct (readPoolState (world s)) as [poolState |];
      [| intros [= <- <-]; apply Hpick, Hnone].
    destruct ((0 <? length existingPositions)%nat
              && hasUnknownPositions existingPositions);
      [intros [= <- <-]; apply Hpick, Hnone |].
    unfold AgentWithFallback.analyzePool.
    destruct (STRATEGY_MAP (strategy deposit)) as [st |];
      [| intros [= <- <-]; apply Hpick, Hnone].
    unfold tryCatch, bind, askBackend, callWorld at 1, ret.
    assert (Hgo : forall decision w1,
      match requestValidationBeforeExecuting info depositId decision
              {| world := w1; agentInfo := agentInfo s;
                 calls := calls s ++ [CallAnalyze] |} with
      | (Ok dataHash, s2) =>
          match callWorld (CallExecuteDecision depositId decision)
                  (fun w => executeDecision w depositId decision) s2 with
          | (Ok execResult, s3) =>
              match submitResponseAfterExecuting dataHash decision s3 with
              | (Ok _, s4) =>
                  (Ok (Some
                     {| AgentWithFallback.pr_action := er_action execResult;
                        AgentWithFallback.pr_tickLower := er_tickLower execResult;
                        AgentWithFallback.pr_tickUpper := er_tickUpper execResult;
                        AgentWithFallback.pr_newTokenId := er_newTokenId execResult;
                        AgentWithFallback.pr_reason := reason decision;
                        AgentWithFallback.pr_confidence := confidence decision;
                        AgentWithFallback.pr_txHashes := er_txHashes execResult;
                        AgentWithFallback.pr_validationHash := dataHash |}), s4)
              | (Throw e, s4) => (Throw e, s4)
              end
          | (Throw e, s3) => (Throw e, s3)
          end
      | (Throw e, s2) => (Throw e, s2)
      end = (r, s') ->
      exists new,
        calls s' = calls s ++ new
        /\ wellFormedRun depositId new
        /\ (isThrow r = true -> existsb isSubmitResponse new = false)).
    { intros decision w1 E.
      match type of E with
      | context [requestValidationBeforeExecuting info depositId decision ?s1] =>
      apply (Hact info decision s1 _
               (fun dataHash execResult =>
                  Some
                    {| AgentWithFallback.pr_action := er_action execResult;
                       AgentWithFallback.pr_tickLower := er_tickLower execResult;
                       AgentWithFallback.pr_tickUpper := er_tickUpper execResult;
                       AgentWithFallback.pr_newTokenId := er_newTokenId execResult;
                       AgentWithFallback.pr_reason := reason decision;
                       AgentWithFallback.pr_confidence := confidence decision;
                       AgentWithFallback.pr_txHashes := er_txHashes execResult;
                       AgentWithFallback.pr_validationHash := dataHash |})
               r s' eq_refl)
      end.
      unfold bind, ret.
      destruct (requestValidationBeforeExecuting info depositId decision _)
        as [[dataHash | e] s2]; [| exact E].
      destruct (callWorld _ _ s2) as [[execResult | e] s3]; [| exact E].
      destruct (submitResponseAfterExecuting dataHash decision s3)
        as [[[] | e] s4]; exact E. }
    destruct (llmAnalyze _ _ _ _) as [w1 [decision | e]]; simpl.
    + destruct ((confidence decision =? 0)%float
                || includes "Failed to parse" (reason decision));
        apply Hgo.
    + apply Hgo.
Qed.
End ProcessingFacts.

(** ** One run over the assigned deposits *)

Section RunnerFacts.
Import Effects JsNumber JsString Types Agent AgentRunner.
Context {World : Type} `{AgentOps World} `{RunnerOps World}.

Lemma includesId_In myDeposits depositId :
  includesId myDeposits depositId = true <-> In depositId myDeposits.
Proof.
  unfold includesId. rewrite List.existsb_exists. split.
  - intros (i & Hin & Heq). apply Z.eqb_eq in Heq. subst i. exact Hin.
  - intros Hin. exists depositId. split; [exact Hin | apply Z.eqb_refl].
Qed.

Lemma processEach_run {A} (process : Z -> M (State World) A) myDeposits :
  forall depositResults (s : State World),
  exists entries,
    processEach process myDeposits depositResults s
    = (Ok (depositResults ++ entries), afterEach process myDeposits s)
    /\ map dr_depositId entries = myDeposits
    /\ map dr_status entries = statuses process myDeposits s.
Proof.
  induction myDeposits as [| depositId rest IH]; intros acc s.
  - exists []. rewrite app_nil_r. repeat split.
  - cbn [processEach afterEach statuses fold_left].
    unfold bind at 1, tryCatch, bind, ret.
    destruct (process depositId s) as [[a | e] s1]; cbn [fst snd].
    + match goal with
      | |- context [processEach process rest ?acc' s1] =>
          destruct (IH acc' s1) as (entries & -> & Hids & Hst)
      end.
      eexists (_ :: entries). rewrite <- app_assoc.
      split; [reflexivity |]. simpl. rewrite Hids, Hst. split; reflexivity.
    + match goal with
      | |- context [processEach process rest ?acc' s1] =>
          destruct (IH acc' s1) as (entries & -> & Hids & Hst)
      end.
      eexists (_ :: entries). rewrite <- app_assoc.
      split; [reflexivity |]. simpl. rewrite Hids, Hst. split; reflexivity.
Qed.

(** X20. [runAgentOnce] reports on every assigned deposit.  Once the
    agent's identity is known and the pool state and [nextDepositId]
    can be read, the run returns: its assigned deposits are processed
    one after the other, in ascending order of id, each on the state
    the previous one left; a deposit whose processing throws is reported
    with status "error" and does not stop the run, every other one is
    reported "processed" (also one that [processDeposit] skipped);
    [depositResults] has one entry per assigned deposit, in order, and
    [depositsProcessed] counts them all, failed ones included.  This
    holds for the [processDeposit] of either variant of [agent.ts]. *)
Theorem runAgentOnce_reports_every_deposit {A}
    (process : Z -> M (State World) A) (s s0 : State World)
    (info : Erc8004.AgentInfo) (poolState : PoolState) (nextId : Z) :
  initAgent getMyAgentInfo s = (Ok info, s0) ->
  readPoolState (world s0) = Ok poolState ->
  nextDepositId (world s0) = Ok nextId ->
  let myDeposits :=
    List.filter (PoolReader.selected (readDeposit (world s0))
                   (agentWalletAddress (world s0)))
                (seqZ 1 (nextId - 1)) in
  exists res,
    runAgentOnceWith process s = (Ok res, afterEach process myDeposits s0)
    /\ ar_depositsProcessed res = length myDeposits
    /\ map dr_depositId (ar_depositResults res) = myDeposits
    /\ map dr_status (ar_depositResults res) = statuses process myDeposits s0
    /\ ar_agentId res = Erc8004.ai_agentId info.
Proof.
  intros Hinit Hpool Hnext myDeposits.
  unfold runAgentOnceWith. unfold bind at 1. rewrite Hinit.
  unfold tryCatch, bind, readWorld, getMyAssignedDeposits, ret.
  rewrite Hpool, Hnext. cbn [PoolReader.getMyAssignedDeposits].
  rewrite scanDeposits_filter. cbn [app]. fold myDeposits.
  destruct (processEach_run process myDeposits [] s0)
    as (entries & -> & Hids & Hst).
  cbn [app]. eexists. split; [reflexivity |]. cbn.
  repeat split; assumption.
Qed.
End RunnerFacts.

Section RunnerExamples.
Import Effects Types Agent AgentRunner SimAgent SimRunner.

Lemma runAgentOnce_reports_every_deposit_witness :
  exists res,
    runAgentOnceGated (fresh backendDown)
    = (Ok res,
       afterEach Agent.processDeposit [1; 2] (ready backendDown))
    /\ ar_depositsProcessed res = 2%nat
    /\ map dr_depositId (ar_depositResults res) = [1; 2]
    /\ map dr_status (ar_depositResults res) = ["error"; "error"]
    /\ ar_agentId res = 2.
Proof.
  assert (Hinit : initAgent getMyAgentInfo (fresh backendDown)
                  = (Ok balancedAgent, ready backendDown)) by reflexivity.
  assert (Hpool : readPoolState (world (ready backendDown))
                  = Ok SimLedger.samplePool) by reflexivity.
  assert (Hnext : nextDepositId (world (ready backendDown)) = Ok 3)
    by reflexivity.
  exact (runAgentOnce_reports_every_deposit Agent.processDeposit
           (fresh backendDown) (ready backendDown) balancedAgent
           SimLedger.samplePool 3 Hinit Hpool Hnext).
Defined.
End RunnerExamples.

(** ** Closing the positions of a deposit *)

Section CloseFacts.
Import Effects JsNumber JsString Types TxExecutor TxDecision ClosePositions.
Import AgentRunner(includesId).
Context {World : Type} `{WorldOps World} `{CloseOps World}.


End CloseFacts.

Section CloseExamples.
Import Effects Types TxExecutor TxDecision ClosePositions SimLedger
  SimDecision SimClose.

End CloseExamples.
Section ReportExamples.
Import Effects Erc8004 SimRegistry.

(** Agent 2 of three, with one answered request on chain and one
    authorization, from agent 1. *)
Lemma getAgentReputation_report_consistent_witness :
  exists rep s',
    getAgentReputation 2 (initialState busyChain) = (Ok rep, s')
    /\ totalValidations rep = 1%nat
    /\ respondedValidations rep = 1%nat
    /\ map clientAgentId (feedbackAuthorizations rep) = [1]
    /\ Z.of_nat (totalFeedbackAuths rep) <= 3 - 1.
Proof.
  destruct (getAgentReputation 2 (initialState busyChain))
    as [[rep | e] s'] eqn:Hrun; [| vm_compute in Hrun; discriminate].
  destruct (getAgentReputation_report_consistent 2 _ rep s' Hrun)
    as (n & Hn & _ & _ & _ & _ & _ & _ & _ & Hbound).
  vm_compute in Hn. injection Hn as <-.
  exists rep, s'. split; [reflexivity |].
  vm_compute in Hrun. injection Hrun as <- <-.
  split; [reflexivity |]. split; [reflexivity |]. split; [reflexivity |].
  apply Hbound. lia.
Defined.
End ReportExamples.

Section ProcessingExamples.
Import Effects Types Agent AgentProtocol SimAgent SimRunner SimRestart.

(** Deposit 1 is assigned to the conservative agent. *)
Lemma processDeposit_ineligible_witness :
  Agent.processDeposit 1 (ready foreignWorld) = (Ok tt, ready foreignWorld)
  /\ AgentWithFallback.processDeposit 1 (ready foreignWorld)
     = (Ok None, ready foreignWorld).
Proof.
  apply processDeposit_ineligible. right. eexists.
  split; [reflexivity |]. intros [Ha _]. vm_compute in Ha. discriminate.
Defined.

(** After a restart position 7 has liquidity but no known range. *)
Lemma processDeposit_unknown_range_witness :
  Agent.processDeposit 1 restarted = (Ok tt, restarted)
  /\ fst (AgentWithFallback.processDeposit 1 restarted)
     = Ok (Some {| AgentWithFallback.pr_action := "HOLD";
                   AgentWithFallback.pr_tickLower := None;
                   AgentWithFallback.pr_tickUpper := None;
                   AgentWithFallback.pr_newTokenId := None;
                   AgentWithFallback.pr_reason :=
                     "Position has unknown tick range";
                   AgentWithFallback.pr_confidence := 100;
                   AgentWithFallback.pr_txHashes := [];
                   AgentWithFallback.pr_validationHash := None |}).
Proof.
  assert (Hinfo : agentInfo restarted = Some balancedAgent) by reflexivity.
  assert (Hdep : readDeposit (world restarted) 1
                 = Ok (SimLedger.sampleDeposit 0 0 [7])) by reflexivity.
  assert (Hpool : readPoolState (world restarted) = Ok SimLedger.samplePool)
    by reflexivity.
  destruct (processDeposit_unknown_range 1 restarted balancedAgent
              (SimLedger.sampleDeposit 0 0 [7]) SimLedger.samplePool
              Hinfo Hdep) as [Hgated Hlater].
  - split; reflexivity.
  - repeat constructor. eexists. reflexivity.
  - constructor. eexists. split; [reflexivity |].
    split; [reflexivity |]. split; [reflexivity |].
    split; [reflexivity |]. discriminate.
  - exact Hpool.
  - split; [exact Hgated | rewrite Hlater; reflexivity].
Defined.
End ProcessingExamples.

(** ** One run for one deposit *)

Section SingleRunFacts.
Import Effects JsNumber JsString Types Agent AgentRunner.
Context {World : Type} `{AgentOps World} `{RunnerOps World}.

(** On an initialized agent and one of its active deposits the later
    [processDeposit] answers with a result or throws: it does not
    return [null]. *)
Lemma processDeposit_answers (depositId : Z) (s : State World)
    (info : Erc8004.AgentInfo) (deposit : DepositInfo) :
  agentInfo s = Some info ->
  readDeposit (world s) depositId = Ok deposit ->
  PoolReader.isActiveFor (agentWalletAddress (world s)) deposit = true ->
  fst (AgentWithFallback.processDeposit depositId s) <> Ok None.
Proof.
  intros Hinfo Hdep Hact.
  apply andb_true_iff in Hact as [Ha Hs].
  unfold AgentWithFallback.processDeposit, bind, readWorld, ret.
  rewrite Hinfo, Hdep. cbv beta iota. rewrite Ha, Hs. cbn [negb].
  destruct (collectPositions _ _ s) as [[existingPositions | e] s1];
    [| discriminate].
  destruct (readPoolState (world s1)) as [poolState | e]; [| discriminate].
  destruct ((0 <? length existingPositions)%nat
            && hasUnknownPositions existingPositions); [discriminate |].
  destruct (AgentWithFallback.analyzePool _ _ _ s1) as [[decision | e] s2];
    [| discriminate].
  destruct (requestValidationBeforeExecuting _ _ _ s2)
    as [[dataHash | e] s3]; [| discriminate].
  destruct (callWorld _ _ s3) as [[execResult | e] s4]; [| discriminate].
  destruct (submitResponseAfterExecuting _ _ s4) as [[u | e] s5];
    discriminate.
Qed.

(** X22. [runAgentForDeposit] processes a deposit only when the scan of
    [getMyAssignedDeposits] lists it, and reports instead of throwing.
    Once the agent's identity is known and the pool state and
    [nextDepositId] can be read, the call returns a result.  For a
    deposit the scan does not list, the result is "error", "Deposit #n
    is not assigned to this agent", and [processDeposit] is not run:
    the state is left as it was.  For a listed deposit [processDeposit]
    runs once: its result is reported as "processed" with its action,
    hashes and validation hash; what it throws is reported as "error"
    with the error's text.  As the scan and [processDeposit] apply the
    same test to the same deposit, the status "skipped" is never
    reported while the ledger stays as the scan read it. *)
Theorem runAgentForDeposit_outcome (depositId : Z) (s s0 : State World)
    (info : Erc8004.AgentInfo) (poolState : PoolState) (nextId : Z) :
  initAgent getMyAgentInfo s = (Ok info, s0) ->
  readPoolState (world s0) = Ok poolState ->
  nextDepositId (world s0) = Ok nextId ->
  let listed :=
    1 <= depositId < nextId
    /\ PoolReader.selected (readDeposit (world s0))
         (agentWalletAddress (world s0)) depositId = true in
  let run := AgentWithFallback.processDeposit depositId s0 in
  exists res s',
    runAgentForDeposit depositId s = (Ok res, s')
    /\ sr_depositId res = depositId
    /\ sr_status res <> "skipped"
    /\ ((~ listed /\ s' = s0
         /\ sr_status res = "error"
         /\ sr_message res = "Deposit #" +:+ pretty depositId
                               +:+ " is not assigned to this agent")
        \/ (listed /\ s' = snd run
            /\ match fst run with
               | Ok (Some r) =>
                   sr_status res = "processed"
                   /\ sr_action res = Some (AgentWithFallback.pr_action r)
                   /\ sr_newTokenId res = AgentWithFallback.pr_newTokenId r
                   /\ sr_txHashes res
                      = Some (AgentWithFallback.pr_txHashes r)
                   /\ sr_validationHash res
                      = AgentWithFallback.pr_validationHash r
               | Ok None => False
               | Throw error =>
                   sr_status res = "error"
                   /\ sr_message res = errorText error
               end)).
Proof.
  intros Hinit Hpool Hnext listed run.
  assert (Hinfo : agentInfo s0 = Some info).
  { revert Hinit. unfold initAgent, bind, ret.
    destruct (agentInfo s) as [known |] eqn:Hknown.
    - intros [= <- <-]. exact Hknown.
    - destruct (getMyAgentInfo (world s)); intros [= <- <-]. reflexivity. }
  unfold runAgentForDeposit. unfold bind at 1. rewrite Hinit.
  unfold tryCatch at 1. unfold bind at 1. unfold readWorld at 1.
  rewrite Hpool. unfold bind at 1. unfold readWorld at 1.
  unfold bind at 1. unfold getMyAssignedDeposits at 1. rewrite Hnext.
  cbn [PoolReader.getMyAssignedDeposits].
  rewrite scanDeposits_filter. cbn [app].
  destruct (includesId _ depositId) eqn:Hinc; cbn [negb].
  - apply includesId_In, List.filter_In in Hinc as [Hrange Hsel].
    apply list_elem_of_In, elem_of_seqZ in Hrange.
    assert (Hlisted : listed) by (split; [lia | exact Hsel]).
    unfold PoolReader.selected in Hsel.
    destruct (readDeposit (world s0) depositId) as [deposit | e] eqn:Hdep;
      [| discriminate].
    pose proof (processDeposit_answers depositId s0 info deposit
                  Hinfo Hdep Hsel) as Hans.
    fold run in Hans. unfold tryCatch, bind. fold run.
    destruct run as [[[r |] | error] s1]; cbn [fst snd] in *.
    + eexists _, s1. split; [reflexivity |]. cbn.
      split; [reflexivity |]. split; [discriminate |].
      right. split; [exact Hlisted |]. repeat split.
    + contradiction.
    + eexists _, s1. split; [reflexivity |]. cbn.
      split; [reflexivity |]. split; [discriminate |].
      right. split; [exact Hlisted |]. repeat split.
  - eexists _, s0. split; [reflexivity |]. cbn.
    split; [reflexivity |]. split; [discriminate |].
    left. split; [| repeat split].
    intros [Hrange Hsel].
    assert (Hin : includesId
                    (List.filter
                       (PoolReader.selected (readDeposit (world s0))
                          (agentWalletAddress (world s0)))
                       (seqZ 1 (nextId - 1))) depositId = true).
    { apply includesId_In, List.filter_In.
      split; [| exact Hsel]. apply list_elem_of_In, elem_of_seqZ. lia. }
    congruence.
Qed.
End SingleRunFacts.
Section SingleRunExamples.
Import Effects Types Agent AgentRunner SimAgent SimRunner.

(** Deposit 1 is assigned to the agent: it is processed, and the mint
    and its validation hash are reported. *)
Lemma runAgentForDeposit_outcome_witness :
  exists res s',
    runAgentForDeposit 1 (fresh hesitantWorld) = (Ok res, s')
    /\ sr_status res = "processed"
    /\ sr_action res = Some "MINT"
    /\ sr_validationHash res = Some "0xhash".
Proof.
  assert (Hinit : initAgent getMyAgentInfo (fresh hesitantWorld)
                  = (Ok balancedAgent, ready hesitantWorld)) by reflexivity.
  assert (Hpool : readPoolState (world (ready hesitantWorld))
                  = Ok SimLedger.samplePool) by reflexivity.
  assert (Hnext : nextDepositId (world (ready hesitantWorld)) = Ok 3)
    by reflexivity.
  destruct (runAgentForDeposit_outcome 1 (fresh hesitantWorld)
              (ready hesitantWorld) balancedAgent SimLedger.samplePool 3
              Hinit Hpool Hnext)
    as (res & s' & Hrun & _ & _ & [(Hnot & _) | (_ & _ & Hout)]).
  - exfalso. apply Hnot. split; [lia | reflexivity].
  - exists res, s'. split; [exact Hrun |].
    vm_compute in Hout. destruct Hout as (Hst & Hact & _ & _ & Hhash).
    split; [exact Hst |]. split; [exact Hact | exact Hhash].
Defined.
End SingleRunExamples.
